(** * Benchmark discovery and orchestration (benchmarks.py)

    A shallow embedding of [get_methods], [bench_product], [bench_qaa],
    [bench_chl] and [run_benchmarks], followed by the properties of the
    discovery / registration engine and of the orchestration layer.

    Conventions of the embedding:
    - a Python [dict] is an association list with Python's insertion order
      (assigning to an existing key keeps its position);
    - a 2-D numpy array is a record holding its column count and its rows,
      its elements are binary64 floats;
    - the test data [x_test] is the one array the program writes to: line
      74 and line 75 assign zeros in place to what an algorithm returned,
      and what it returned may be a view of [x_test].  So an algorithm
      returns an array that owns its memory or a view of its input, the
      orchestrators take what [x_test] holds when they start and return
      what it holds when they return, and an estimate that is a view is
      kept as a view;
    - Python exceptions are values of [exn]; effectful code lives in the
      monad [M], which threads the trace of observable events (entry-point
      invocations and printed lines) and may stop with a raised exception;
    - the trace also records, as a ghost event [Run], each orchestrator
      variant that [run_benchmarks] starts;
    - named parameters hold integers ([tol=15], the placeholder 1);
    - collaborators that are not part of this file's source ([get_sensor_bands],
      [performance], the plugin directory, the QAA engine, the scikit-learn
      bench, numpy's printing of an array element that is not an int64)
      are Section variables, taken to be functions; the arrays that the QAA
      engine and the scikit-learn bench return own their memory. *)

From Stdlib Require Import ZArith List String Ascii Bool Lia PrimFloat DecimalString.
Import ListNotations.

Local Open Scope string_scope.
Local Open Scope list_scope.

Set Implicit Arguments.

(* ================================================================= *)
(** ** Python dictionaries *)

Module Dict.

Definition t (V : Type) := list (string * V).

Fixpoint get {V} (k : string) (d : t V) : option V :=
  match d with
  | [] => None
  | (k', v) :: r => if String.eqb k k' then Some v else get k r
  end.

(** [d[k] = v] *)
Fixpoint set {V} (k : string) (v : V) (d : t V) : t V :=
  match d with
  | [] => [(k, v)]
  | (k', v') :: r =>
      if String.eqb k k' then (k', v) :: r else (k', v') :: set k v r
  end.

Definition mem {V} (k : string) (d : t V) : bool :=
  match get k d with Some _ => true | None => false end.

Definition keys {V} (d : t V) : list string := map fst d.

(** [d.update(other)], [other] given by its items in order *)
Definition update {V} (d : t V) (other : list (string * V)) : t V :=
  fold_left (fun acc kv => set (fst kv) (snd kv) acc) other d.

(** [dict(pairs)] *)
Definition of_list {V} (pairs : list (string * V)) : t V := update [] pairs.

End Dict.

(* ================================================================= *)
(** ** Strings *)

(** [s.split(sep)[0]] for a one-character separator *)
Fixpoint split_head (sep : ascii) (s : string) : string :=
  match s with
  | EmptyString => EmptyString
  | String c r => if Ascii.eqb c sep then EmptyString else String c (split_head sep r)
  end.

(** [p in s] on strings *)
Fixpoint str_in (p s : string) : bool :=
  String.prefix p s ||
  match s with
  | EmptyString => false
  | String _ r => str_in p r
  end.

(** [s.replace(old, new)] for a one-character [old] *)
Fixpoint replace (old : ascii) (new : string) (s : string) : string :=
  match s with
  | EmptyString => EmptyString
  | String c r =>
      if Ascii.eqb c old then String.append new (replace old new r)
      else String c (replace old new r)
  end.

(** ['%s' % n] and ['%i' % n] for an integer *)
Definition str_of_Z (z : Z) : string := NilZero.string_of_int (Z.to_int z).

(** An integer that fits 64 bits, signed. *)
Definition int64 (z : Z) : bool := (- 2 ^ 63 <=? z)%Z && (z <? 2 ^ 63)%Z.

(* ================================================================= *)
(** ** Arrays *)

Record ndarray := { ncols : nat; rows : list (list float) }.

Definition shape (a : ndarray) : nat * nat := (List.length (rows a), ncols a).

(** [np.ones((r, c))] *)
Definition np_ones (r c : nat) : ndarray :=
  {| ncols := c; rows := repeat (repeat 1%float c) r |}.

(** [a[mask(a)] = 0] for an elementwise mask *)
Definition mask_zero (mask : float -> bool) (a : ndarray) : ndarray :=
  {| ncols := ncols a;
     rows := map (map (fun x => if mask x then 0%float else x)) (rows a) |}.

(** [a[:, i]] *)
Definition column (i : nat) (a : ndarray) : list float :=
  map (fun r => nth i r 0%float) (rows a).

(** Python [slice(start, stop)]; [slice(None)] is [full_slice]. *)
Record pyslice := { start : option Z; stop : option Z }.

Definition full_slice : pyslice := {| start := None; stop := None |}.

Definition slice_bound (n : Z) (default : Z) (i : option Z) : Z :=
  match i with
  | None => default
  | Some i => if (i <? 0)%Z then Z.max (i + n) 0 else Z.min i n
  end.

(** first selected index and number of selected indices, on an axis of length [n] *)
Definition slice_range (sl : pyslice) (n : nat) : nat * nat :=
  let lo := slice_bound (Z.of_nat n) 0 (start sl) in
  let hi := slice_bound (Z.of_nat n) (Z.of_nat n) (stop sl) in
  (Z.to_nat lo, Z.to_nat (hi - lo)).

(** [a[:, sl]] *)
Definition getitem_cols (a : ndarray) (sl : pyslice) : ndarray :=
  let '(lo, len) := slice_range sl (ncols a) in
  {| ncols := len; rows := map (fun r => firstn len (skipn lo r)) (rows a) |}.

(** [a[r, c]]; a position outside the array reads as zero. *)
Definition elem (a : ndarray) (r c : nat) : float :=
  nth c (nth r (rows a) []) 0%float.

(** A 2-D array as a callable returns it: an array that owns its memory, or
    a view of the array the callable was given (the array itself, a slice,
    a transpose, ...).  A view lists, row by row, where each of its
    elements lies in its base. *)
Inductive array :=
| Own (a : ndarray)
| View (cols : nat) (src : list (list (nat * nat))).

(** What an array holds, given what the base of a view holds. *)
Definition value_of (base : ndarray) (a : array) : ndarray :=
  match a with
  | Own a => a
  | View cols src =>
      {| ncols := cols;
         rows := map (map (fun p => elem base (fst p) (snd p))) src |}
  end.

(** The view has an element at row [r] and column [c] of its base. *)
Definition touched (src : list (list (nat * nat))) (r c : nat) : bool :=
  existsb (existsb (fun p => Nat.eqb (fst p) r && Nat.eqb (snd p) c)) src.

Fixpoint imap {A B} (f : nat -> A -> B) (i : nat) (l : list A) : list B :=
  match l with
  | [] => []
  | a :: r => f i a :: imap f (S i) r
  end.

(** [v[mask(v)] = 0] for a view [v]: the zeros are written to its base. *)
Definition mask_zero_view (mask : float -> bool) (src : list (list (nat * nat)))
    (base : ndarray) : ndarray :=
  {| ncols := ncols base;
     rows := imap (fun r =>
                     imap (fun c x => if touched src r c && mask x then 0%float else x) 0)
                  0 (rows base) |}.

(** What an estimate slot can hold: [None], a 2-D array that owns its
    memory, a 1-D array, or a 2-D view of the test data. *)
Inductive pyval :=
| PyNone
| Arr2 (a : ndarray)
| Arr1 (v : list float)
| Shared (cols : nat) (src : list (list (nat * nat))).

Definition pyval_of (o : option ndarray) : pyval :=
  match o with Some a => Arr2 a | None => PyNone end.

(** The slot that keeps what a callable returned. *)
Definition slot (o : option array) : pyval :=
  match o with
  | Some (Own a) => Arr2 a
  | Some (View cols src) => Shared cols src
  | None => PyNone
  end.

(** What a slot reads as while the test data holds [x_test]. *)
Definition observe (x_test : ndarray) (v : pyval) : pyval :=
  match v with
  | Shared cols src => Arr2 (value_of x_test (View cols src))
  | _ => v
  end.

(* ================================================================= *)
(** ** Exceptions, entry points, events *)

Inductive assertion :=
| MustProvideY                                           (* line 59 *)
| TooManyFeatures (sensor : string) (given available : nat)   (* line 62 *)
| UnknownAlgorithm (method : string) (options : list string)  (* line 65 *)
| AmbiguousY                                             (* line 80 *)
| ShapeMismatch (ins est : nat * nat)                    (* line 248 *)
| NotFound (key : string).                               (* line 257 *)

(** Exceptions, all of them instances of Python's [Exception]. *)
Inductive exn :=
| AssertionError (a : assertion)
| TypeError
| AttributeError
| KeyError (k : string)
| IndexError
| ModelError (msg : string).

Inductive result (A : Type) :=
| Returned (a : A)
| Raised (e : exn).
Arguments Returned {A} a.
Arguments Raised {A} e.

(** A symbol exposed by a plugin module.  [has_default = None] is a symbol
    without that attribute; [model_name = None] one without a display-name
    override; [opt_vars] is read only when [has_default] is false (line 40).
    [call x wavelengths sensor kwargs] is the call
    [model(x, wavelengths, sensor, **kwargs)] while [x] holds these values;
    it returns an array (its own, or a view of [x]) or [None], or raises,
    and it does not write to [x]. *)
Record pyobj := {
  has_default : option bool;
  opt_vars : list string;
  model_name : option string;
  call : ndarray -> list Z -> string -> Dict.t Z -> result (option array)
}.

(** [partial(model, sensor=sensor)] with its [__name__] attribute *)
Record partial := { func : pyobj; keywords_sensor : string; __name__ : string }.

Inductive line :=
| ExceptionFor (name : string) (e : exn)      (* line 50 *)
| RequiresOptimization (name : string)        (* line 54 *)
| Report (text : string)                      (* print(performance(...)) *)
| Keys (ks : list string).                    (* line 256 *)

Inductive orchestrator :=
| Qaa
| Product (product : string)
| Ml.

Inductive event :=
| Call (f : pyobj) (x : ndarray) (wavelengths : list Z) (sensor : string)
       (kwargs : Dict.t Z)
| Printed (l : line)
| Run (o : orchestrator).

(** One algorithm folder: an item of [pkgutil.iter_modules] together with
    the symbols [dir(imported)] of its [model] module, in [dir] order.  The
    import of line 29 is taken to succeed: a failing import leaves
    [get_methods] through no handler of its own and is not modelled. *)
Record plugin := {
  name : string;
  is_folder : bool;
  imported : list (string * pyobj)
}.

(* ================================================================= *)
(** ** The monad of traced, fallible computations *)

Definition M (A : Type) : Type := list event -> list event * result A.

Definition ret {A} (a : A) : M A := fun t => (t, Returned a).

Definition raise {A} (e : exn) : M A := fun t => (t, Raised e).

Definition bind {A B} (m : M A) (k : A -> M B) : M B :=
  fun t =>
    match m t with
    | (t', Returned a) => k a t'
    | (t', Raised e) => (t', Raised e)
    end.

Declare Scope py_scope.
Delimit Scope py_scope with py.
Notation "x <- c1 ;; c2" := (bind c1 (fun x => c2))
  (at level 100, c1 at next level, right associativity) : py_scope.
Notation "c1 ;;; c2" := (bind c1 (fun _ => c2))
  (at level 100, right associativity) : py_scope.
Local Open Scope py_scope.

Definition emit (ev : event) : M unit := fun t => (t ++ [ev], Returned tt).

Definition print (l : line) : M unit := emit (Printed l).

(** [try: body except Exception as e: handler] *)
Definition try_except {A} (body : M A) (handler : exn -> M A) : M A :=
  fun t =>
    match body t with
    | (t', Returned a) => (t', Returned a)
    | (t', Raised e) => handler e t'
    end.

(** [assert b, msg] *)
Definition assert (b : bool) (msg : assertion) : M unit :=
  if b then ret tt else raise (AssertionError msg).

Definition when (b : bool) (m : M unit) : M unit := if b then m else ret tt.

(** [for b in l: a = f(a, b)] *)
Fixpoint for_each {A B} (f : A -> B -> M A) (l : list B) (a : A) : M A :=
  match l with
  | [] => ret a
  | b :: r => a' <- f a b ;; for_each f r a'
  end.

(** [[b for b in l if p(b)]] with a fallible test *)
Fixpoint filter_m {B} (p : B -> M bool) (l : list B) : M (list B) :=
  match l with
  | [] => ret []
  | b :: r =>
      keep <- p b ;;
      r' <- filter_m p r ;;
      ret (if keep then b :: r' else r')
  end.

(** the call [model(x, wavelengths, sensor, **kwargs)], recorded in the trace *)
Definition invoke (f : pyobj) (x : ndarray) (wavelengths : list Z)
    (sensor : string) (kwargs : Dict.t Z) : M (option array) :=
  fun t => (t ++ [Call f x wavelengths sensor kwargs], call f x wavelengths sensor kwargs).

(** the call [func(x, wavelengths, **kwargs)] of a registered callable *)
Definition invoke_partial (p : partial) (x : ndarray) (wavelengths : list Z)
    (kwargs : Dict.t Z) : M (option array) :=
  invoke (func p) x wavelengths (keywords_sensor p) kwargs.

(** [d[k]] *)
Definition getitem {V} (d : Dict.t V) (k : string) : M V :=
  match Dict.get k d with
  | Some v => ret v
  | None => raise (KeyError k)
  end.

(** [l[i]] for [0 <= i] *)
Definition index {A} (l : list A) (i : nat) : M A :=
  match nth_error l i with
  | Some a => ret a
  | None => raise IndexError
  end.

(* ================================================================= *)
(** ** The program *)

(** Local variables of [get_methods] that its loop assigns to. *)
Record locals := { methods : Dict.t partial; kwargs : Dict.t Z }.

(** [getattr(model, 'model_name', name)] *)
Definition display_name (name : string) (model : pyobj) : string :=
  match model_name model with
  | Some n => n
  | None => name
  end.

(** Line 70: [method is None or name == method] *)
Definition selected (method : option string) (name : string) : bool :=
  match method with
  | None => true
  | Some m => String.eqb name m
  end.

Section Program.

(** The type of the opaque [args] namespace. *)
Variable Args : Type.

(** [meta.get_sensor_bands] *)
Variable get_sensor_bands : string -> Args -> list Z.

(** [metrics.performance] *)
Variable performance : string -> list float -> pyval -> string.

(** The [Benchmarks/<product>] directory as [pkgutil.iter_modules] lists it. *)
Variable Benchmarks : string -> list plugin.

(** [QAA.QAA]; the arrays it returns own their memory. *)
Variable QAA : ndarray -> list Z -> Dict.t ndarray.

(** Line 238 turns the bands into a numpy array.  When every band fits a
    signed 64-bit integer the array is an int64 array, and ['%i'] and ['%s']
    both print an element of it in decimal.  Otherwise numpy chooses an
    unsigned, a floating or an object dtype: [other_dtype bands w] is what
    ['%i'] and ['%s'] then print for the element that stands for [w]. *)
Variable other_dtype : list Z -> Z -> string * string.

(** [bench_ml] (lines 110-233) fits and runs scikit-learn and xgboost
    regressors; its printed lines and its outcome are taken as given. *)
Variable ml_engine :
  Args -> string -> option ndarray -> option ndarray -> ndarray ->
  ndarray -> Dict.t pyslice -> bool -> bool -> list string * result (Dict.t pyval).

(** Lines 33-54: the body of the loop over [dir(imported)]. *)
Definition visit (wavelengths : list Z) (sensor : string) (debug allow_opt : bool)
    (name : string) (st : locals) (entry : string * pyobj) : M locals :=
  let '(function, model) := entry in
  if str_in "model" function then
    match has_default model with
    | Some hd =>
        if hd || allow_opt then
          let kwargs' :=
            if negb hd then
              Dict.update (kwargs st)
                (Dict.of_list (combine (opt_vars model)
                                       (repeat 1%Z (List.length (opt_vars model)))))
            else kwargs st in
          try_except
            (out <- invoke model (np_ones 1 (List.length wavelengths)) wavelengths
                      sensor kwargs' ;;
             match out with
             | Some _ =>
                 let model_name := display_name name model in
                 ret {| methods :=
                          Dict.set model_name
                            {| func := model; keywords_sensor := sensor;
                               __name__ := model_name |}
                            (methods st);
                        kwargs := kwargs' |}
             | None => ret {| methods := methods st; kwargs := kwargs' |}
             end)
            (fun e =>
               when debug (print (ExceptionFor name e)) ;;;
               ret {| methods := methods st; kwargs := kwargs' |})
        else
          when debug (print (RequiresOptimization name)) ;;;
          ret st
    | None => ret st
    end
  else ret st.

(** Lines 27-54: the body of the loop over the product directory. *)
Definition visit_plugin (wavelengths : list Z) (sensor : string)
    (debug allow_opt : bool) (st : locals) (p : plugin) : M locals :=
  if is_folder p then
    for_each (visit wavelengths sensor debug allow_opt (name p)) (imported p) st
  else ret st.

Definition get_methods (wavelengths : list Z) (sensor product : string)
    (debug allow_opt : bool) (kwargs : Dict.t Z) : M (Dict.t partial) :=
  let sensor := split_head "-" sensor in
  st <- for_each (visit_plugin wavelengths sensor debug allow_opt)
          (Benchmarks product) {| methods := []; kwargs := kwargs |} ;;
  ret (methods st).

(** Lines 74-75 on an array that owns its memory *)
Definition clamp (est_val : ndarray) : ndarray :=
  mask_zero (fun x => (x <? 0)%float)
    (mask_zero (fun x => negb (is_finite x)) est_val).

(** Lines 74-75: the two assignments write into [est_val]; when [est_val]
    is a view of the test data they write into the test data.  The result
    is what [x_test] holds afterwards, and [est_val]. *)
Definition clamp_in_place (x_test : ndarray) (est_val : array) : ndarray * array :=
  match est_val with
  | Own a => (x_test, Own (clamp a))
  | View cols src =>
      (mask_zero_view (fun x => (x <? 0)%float) src
         (mask_zero_view (fun x => negb (is_finite x)) src x_test),
       View cols src)
  end.

(** Lines 77-85 *)
Definition score (name product : string) (y_test : option ndarray)
    (slices : option (Dict.t pyslice)) (est_val : option ndarray) : M unit :=
  curr_slice <-
    match slices with
    | Some s => ret s
    | None =>
        match y_test, est_val with
        | Some y, Some est =>
            assert (Nat.eqb (ncols y) (ncols est)) AmbiguousY ;;;
            ret [(product, full_slice)]
        | _, _ => raise AttributeError
        end
    end ;;
  sl <- getitem curr_slice product ;;
  match y_test with
  | Some y =>
      let ins_val := getitem_cols y sl in
      for_each
        (fun _ i => print (Report (performance name (column i ins_val) (pyval_of est_val))))
        (seq 0 (ncols ins_val)) tt
  | None => raise TypeError
  end.

(** Lines 70-87: the body of the loop over [methods.items()].  The first
    component of [acc] is what [x_test] holds when the iteration starts. *)
Definition run_method (y_test : option ndarray)
    (slices : option (Dict.t pyslice)) (silent : bool) (product : string)
    (method : option string) (waves : list Z)
    (acc : ndarray * (list pyval * list string)) (item : string * partial)
    : M (ndarray * (list pyval * list string)) :=
  let '(x_test, (ests, lbls)) := acc in
  let '(name, func) := item in
  if selected method name then
    out <- invoke_partial func x_test waves [("tol", 15%Z)] ;;
    st <-
      (if String.eqb product "chl" then
         match out with
         | Some a =>
             let '(x_test', a') := clamp_in_place x_test a in
             ret (x_test', Some a')
         | None => raise TypeError
         end
       else ret (x_test, out)) ;;
    let '(x_test', est_val) := st in
    when (negb silent)
      (score name product y_test slices (option_map (value_of x_test') est_val)) ;;;
    ret (x_test', (ests ++ [slot est_val], lbls ++ [name]))
  else ret acc.

(** Lines 58-88.  [x_test] is what the test data holds when the function is
    called; it returns what the test data holds when it returns, and the
    mapping. *)
Definition bench_product (args : Args) (sensor : string) (x_test : ndarray)
    (y_test : option ndarray) (slices : option (Dict.t pyslice))
    (silent : bool) (product : string) (method : option string)
    : M (ndarray * Dict.t pyval) :=
  assert (silent || match y_test with Some _ => true | None => false end)
    MustProvideY ;;;
  let waves := get_sensor_bands sensor args in
  assert (Nat.leb (ncols x_test) (List.length waves))
    (TooManyFeatures sensor (ncols x_test) (List.length waves)) ;;;
  methods <- get_methods waves sensor product true false [("tol", 15%Z)] ;;
  assert (match method with None => true | Some m => Dict.mem m methods end)
    (UnknownAlgorithm (match method with Some m => m | None => EmptyString end)
       (Dict.keys methods)) ;;;
  acc <- for_each (run_method y_test slices silent product method waves)
           methods (x_test, ([], [])) ;;
  let '(x_test', (ests, lbls)) := acc in
  ret (x_test', Dict.of_list (combine lbls ests)).

(** [k[0]] is one of [cs] *)
Definition first_char_in (cs : list ascii) (k : string) : M bool :=
  match k with
  | EmptyString => raise IndexError
  | String c _ => ret (existsb (Ascii.eqb c) cs)
  end.

(** ['%i' % w] and ['%s' % w] for an element [w] of [np.array(bands)] *)
Definition format_i (bands : list Z) (w : Z) : string :=
  if forallb int64 bands then str_of_Z w else fst (other_dtype bands w).

Definition format_s (bands : list Z) (w : Z) : string :=
  if forallb int64 bands then str_of_Z w else snd (other_dtype bands w).

(** Lines 250-254: the body of the loop over the columns of [ins_val]. *)
Definition qaa_column (name : string) (waves : list Z) (silent : bool)
    (ins_val est_val : ndarray) (acc : list pyval * list string) (i : nat)
    : M (list pyval * list string) :=
  let '(ests, lbls) := acc in
  when (negb silent)
    (w <- index waves i ;;
     print (Report (performance
                      (String.append "QAA " (String.append name (format_i waves w)))
                      (column i ins_val) (Arr1 (column i est_val))))) ;;;
  w <- index waves i ;;
  ret (ests ++ [Arr1 (column i est_val)],
       lbls ++ [String.append "QAA " (String.append name (format_s waves w))]).

(** Lines 244-257: the body of the loop over [param]. *)
Definition qaa_param (y_test : ndarray) (slices : Dict.t pyslice)
    (silent : bool) (waves : list Z) (qaa : Dict.t ndarray)
    (acc : list pyval * list string) (name : string)
    : M (list pyval * list string) :=
  match Dict.get (replace "_" EmptyString name) qaa with
  | Some est_val =>
      sl <- getitem slices name ;;
      let ins_val := getitem_cols y_test sl in
      assert (Nat.eqb (fst (shape ins_val)) (fst (shape est_val))
              && Nat.eqb (snd (shape ins_val)) (snd (shape est_val)))
        (ShapeMismatch (shape ins_val) (shape est_val)) ;;;
      for_each (qaa_column name waves silent ins_val est_val)
        (seq 0 (ncols ins_val)) acc
  | None =>
      print (Keys (Dict.keys qaa)) ;;;
      raise (AssertionError (NotFound (replace "_" EmptyString name)))
  end.

Definition bench_qaa (args : Args) (sensor : string) (x_test y_test : ndarray)
    (slices : Dict.t pyslice) (silent : bool) : M (Dict.t pyval) :=
  let waves := get_sensor_bands sensor args in
  param <- filter_m (first_char_in ["a"; "b"]%char) (Dict.keys slices) ;;
  let qaa := QAA x_test (firstn (ncols x_test) waves) in
  acc <- for_each (qaa_param y_test slices silent waves qaa) param ([], []) ;;
  let '(ests, lbls) := acc in
  ret (Dict.of_list (combine lbls ests)).

Definition bench_ml (args : Args) (sensor : string)
    (x_train y_train : option ndarray) (x_test y_test : ndarray)
    (slices : Dict.t pyslice) (silent gridsearch : bool) : M (Dict.t pyval) :=
  fun t =>
    let '(printed, out) :=
      ml_engine args sensor x_train y_train x_test y_test slices silent gridsearch in
    (t ++ map (fun s => Printed (Report s)) printed, out).

Definition bench_chl (args : Args) (sensor : string) (x_test y_test : ndarray)
    (slices : Dict.t pyslice) (silent : bool) : M (ndarray * Dict.t pyval) :=
  bench_product args sensor x_test (Some y_test) (Some slices) silent "chl" None.

(** Line 312: the keys that select the analytic inversion *)
Definition iop_key (k : string) : M bool :=
  ab <- first_char_in ["a"; "b"]%char k ;;
  ret (ab && negb (str_in "*" k) && negb (str_in "ad" k)).

(** [benchmarks.update(variant(...))]; the [Run] event marks the call. *)
Definition update_with (o : orchestrator) (variant : M (Dict.t pyval))
    (benchmarks : Dict.t pyval) : M (Dict.t pyval) :=
  emit (Run o) ;;;
  r <- variant ;;
  ret (Dict.update benchmarks r).

(** [benchmarks.update(variant(...))] for a variant that may write to the
    test data: what the test data holds afterwards is passed on. *)
Definition update_with_product (o : orchestrator)
    (variant : M (ndarray * Dict.t pyval)) (benchmarks : Dict.t pyval)
    : M (ndarray * Dict.t pyval) :=
  emit (Run o) ;;;
  r <- variant ;;
  ret (fst r, Dict.update benchmarks (snd r)).

(** Lines 310-329.  [x_test] is what the test data holds when the function
    is called; it returns what the test data holds when it returns, and the
    mapping. *)
Definition run_benchmarks (args : Args) (sensor : string)
    (x_test y_test : ndarray) (slices : Dict.t pyslice) (silent : bool)
    (x_train y_train : option ndarray) (gridsearch with_ml : bool)
    : M (ndarray * Dict.t pyval) :=
  let benchmarks := [] in
  iop <- filter_m iop_key (Dict.keys slices) ;;
  benchmarks <-
    (if Nat.ltb 0 (List.length iop) then
       update_with Qaa (bench_qaa args sensor x_test y_test slices silent) benchmarks
     else ret benchmarks) ;;
  st <-
    (if Dict.mem "chl" slices then
       st <-
         update_with_product (Product "chl")
           (bench_chl args sensor x_test y_test slices silent) benchmarks ;;
       let '(x_test, benchmarks) := st in
       benchmarks <-
         (if with_ml then
            update_with Ml
              (bench_ml args sensor x_train y_train x_test y_test slices silent
                 gridsearch) benchmarks
          else ret benchmarks) ;;
       ret (x_test, benchmarks)
     else ret (x_test, benchmarks)) ;;
  let '(x_test, benchmarks) := st in
  st <-
    (if Dict.mem "tss" slices then
       update_with_product (Product "tss")
         (bench_product args sensor x_test (Some y_test) (Some slices) silent
            "tss" None) benchmarks
     else ret (x_test, benchmarks)) ;;
  ret st.

End Program.

(* ================================================================= *)
(** ** Vocabulary of the properties *)

(** The symbols the discovery loops visit, in order, each with the name of
    its algorithm folder. *)
Definition symbols (ps : list plugin) : list (string * (string * pyobj)) :=
  flat_map
    (fun p => if is_folder p then map (pair (name p)) (imported p) else [])
    ps.

(** Line 33: the symbol's name contains "model". *)
Definition is_candidate (c : string * (string * pyobj)) : bool :=
  str_in "model" (fst (snd c)).

(** The candidate entry points of a directory: folder name and callable. *)
Definition candidates (ps : list plugin) : list (string * pyobj) :=
  map (fun c => (fst c, snd (snd c))) (filter is_candidate (symbols ps)).

(** Lines 35-36: the has_default / optimization gate. *)
Definition eligible (allow_opt : bool) (model : pyobj) : bool :=
  match has_default model with
  | Some hd => hd || allow_opt
  | None => false
  end.

(** The callables invoked in a trace, in order. *)
Definition calls (t : list event) : list pyobj :=
  flat_map (fun ev => match ev with Call f _ _ _ _ => [f] | _ => [] end) t.

(** The lines printed in a trace, in order. *)
Definition printed (t : list event) : list line :=
  flat_map (fun ev => match ev with Printed l => [l] | _ => [] end) t.

(** The orchestrator variants started in a trace, in order. *)
Definition runs (t : list event) : list orchestrator :=
  flat_map (fun ev => match ev with Run o => [o] | _ => [] end) t.

(** The events a computation adds to an empty trace, and its outcome. *)
Definition events_of {A} (m : M A) : list event := fst (m []).
Definition outcome {A} (m : M A) : result A := snd (m []).

(** A computation only appends to the trace, and what it appends and
    returns does not depend on the trace it starts from. *)
Definition uniform {A} (m : M A) : Prop :=
  forall t, m t = (t ++ events_of m, outcome m).

(** An element that is finite and not below zero. *)
Definition physical (x : float) : bool :=
  is_finite x && negb (x <? 0)%float.

(** Lines 39-40: the named parameters a candidate is probed with, given
    the ones accumulated so far. *)
Definition probe_kwargs (kwargs : Dict.t Z) (model : pyobj) : Dict.t Z :=
  match has_default model with
  | Some false =>
      Dict.update kwargs
        (Dict.of_list (combine (opt_vars model)
                               (repeat 1%Z (List.length (opt_vars model)))))
  | _ => kwargs
  end.

(** One candidate of the discovery pass as a function: the events it adds
    and the locals it leaves. *)
Definition discover_step (wavelengths : list Z) (sensor : string)
    (debug allow_opt : bool) (acc : list event * locals) (c : string * pyobj)
    : list event * locals :=
  let '(t, st) := acc in
  let '(name, model) := c in
  if eligible allow_opt model then
    let x := np_ones 1 (List.length wavelengths) in
    let kw := probe_kwargs (kwargs st) model in
    match call model x wavelengths sensor kw with
    | Returned (Some _) =>
        (t ++ [Call model x wavelengths sensor kw],
         {| methods :=
              Dict.set (display_name name model)
                {| func := model; keywords_sensor := sensor;
                   __name__ := display_name name model |} (methods st);
            kwargs := kw |})
    | Returned None =>
        (t ++ [Call model x wavelengths sensor kw],
         {| methods := methods st; kwargs := kw |})
    | Raised e =>
        (t ++ Call model x wavelengths sensor kw
              :: (if debug then [Printed (ExceptionFor name e)] else []),
         {| methods := methods st; kwargs := kw |})
    end
  else
    (t ++ (match has_default model with
           | Some _ => if debug then [Printed (RequiresOptimization name)] else []
           | None => []
           end),
     st).

Definition discover (wavelengths : list Z) (sensor : string)
    (debug allow_opt : bool) (cs : list (string * pyobj)) (acc : list event * locals)
    : list event * locals :=
  fold_left (discover_step wavelengths sensor debug allow_opt) cs acc.

(** The probe invocations of a discovery pass over the candidates that pass
    the gate, as the specification describes them: each is called on a
    one-row matrix of ones with the wavelengths, the sensor and the named
    parameters resolved so far. *)
Fixpoint expected_probes (wavelengths : list Z) (sensor : string)
    (kwargs : Dict.t Z) (models : list pyobj) : list event :=
  match models with
  | [] => []
  | model :: r =>
      let kw := probe_kwargs kwargs model in
      Call model (np_ones 1 (List.length wavelengths)) wavelengths sensor kw
      :: expected_probes wavelengths sensor kw r
  end.

(** The registry of a discovery pass over the candidates that pass the gate,
    as the specification describes it: a candidate is registered, under its
    display name, exactly when its probe returns a value. *)
Fixpoint expected_registry (wavelengths : list Z) (sensor : string)
    (kwargs : Dict.t Z) (reg : Dict.t partial) (cs : list (string * pyobj))
    : Dict.t partial :=
  match cs with
  | [] => reg
  | (name, model) :: r =>
      let kw := probe_kwargs kwargs model in
      let reg' :=
        match call model (np_ones 1 (List.length wavelengths)) wavelengths sensor kw with
        | Returned (Some _) =>
            Dict.set (display_name name model)
              {| func := model; keywords_sensor := sensor;
                 __name__ := display_name name model |} reg
        | _ => reg
        end in
      expected_registry wavelengths sensor kw reg' r
  end.

(** The [Call] events of a trace, in order. *)
Definition call_events (t : list event) : list event :=
  filter (fun ev => match ev with Call _ _ _ _ _ => true | _ => false end) t.



(** Lines 74-75 on one element. *)
Definition clamp_element (e : float) : float :=
  let e' := if negb (is_finite e) then 0%float else e in
  if (e' <? 0)%float then 0%float else e'.

(** What a registered callable returns on the test data while the test
    data holds [x_test]: the call [func(x_test, waves, tol=15)] of line 71. *)
Definition run_partial (x_test : ndarray) (waves : list Z) (p : partial)
    : result (option array) :=
  call (func p) x_test waves (keywords_sensor p) [("tol", 15%Z)].

(** Lines 73-75 on what an algorithm returned while the test data held
    [x_test]: what the test data holds afterwards, and the estimate. *)
Definition postprocess (product : string) (x_test : ndarray) (out : option array)
    : ndarray * option array :=
  if String.eqb product "chl" then
    match out with
    | Some a => let '(x_test', a') := clamp_in_place x_test a in (x_test', Some a')
    | None => (x_test, None)
    end
  else (x_test, out).

(** What the post-processed estimate holds. *)
Definition est_value (product : string) (x_test : ndarray) (out : option array)
    : option ndarray :=
  option_map (value_of (fst (postprocess product x_test out)))
             (snd (postprocess product x_test out)).

(** What the test data holds after a registered callable has run on it and
    its estimate is post-processed. *)
Definition next (product : string) (waves : list Z) (x_test : ndarray) (p : partial)
    : ndarray :=
  match run_partial x_test waves p with
  | Returned out => fst (postprocess product x_test out)
  | Raised _ => x_test
  end.

(** The estimate slot the orchestrator fills for a registered callable that
    runs while the test data holds [x_test]. *)
Definition estimate (product : string) (x_test : ndarray) (waves : list Z)
    (p : partial) : pyval :=
  match run_partial x_test waves p with
  | Returned out => slot (snd (postprocess product x_test out))
  | Raised _ => PyNone
  end.

(** The entries of the registry that [method] selects. *)
Definition selection (method : option string) (reg : Dict.t partial) : Dict.t partial :=
  filter (fun kp => selected method (fst kp)) reg.

(** The entries in the order the loop takes them, each with what the test
    data holds when its turn comes (the entries before it having run). *)
Fixpoint turns (product : string) (waves : list Z) (x_test : ndarray)
    (l : list (string * partial)) : list (string * partial * ndarray) :=
  match l with
  | [] => []
  | kp :: r => (kp, x_test) :: turns product waves (next product waves x_test (snd kp)) r
  end.

(** What the test data holds after all these entries have run. *)
Definition finally (product : string) (waves : list Z) (x_test : ndarray)
    (l : list (string * partial)) : ndarray :=
  fold_left (fun x kp => next product waves x (snd kp)) l x_test.


(** The mapping the orchestrator returns when every selected callable runs:
    one entry per selected registry entry, in registry order. *)
Definition expected_estimates (product : string) (x_test : ndarray)
    (waves : list Z) (method : option string) (reg : Dict.t partial) : Dict.t pyval :=
  map (fun turn => (fst (fst turn), estimate product (snd turn) waves (snd (fst turn))))
      (turns product waves x_test (selection method reg)).

(** What one selected entry adds to the trace when it runs. *)
Definition run_events (perf : string -> list float -> pyval -> string)
    (y : option ndarray) (slices : option (Dict.t pyslice)) (silent : bool)
    (product : string) (waves : list Z) (turn : string * partial * ndarray)
    : list event :=
  let '(k, p, x) := turn in
  Call (func p) x waves (keywords_sensor p) [("tol", 15%Z)]
  :: (if silent then []
      else match run_partial x waves p with
           | Returned out =>
               events_of (score perf k product y slices (est_value product x out))
           | Raised _ => []
           end).

(** The turn of an entry completes: its callable returns (a value, for the
    chlorophyll product) and scoring, when enabled, raises nothing. *)
Definition completes (perf : string -> list float -> pyval -> string)
    (y : option ndarray) (slices : option (Dict.t pyslice)) (silent : bool)
    (product : string) (waves : list Z) (turn : string * partial * ndarray) : Prop :=
  exists out,
    run_partial (snd turn) waves (snd (fst turn)) = Returned out /\
    (product = "chl" -> out <> None) /\
    (silent = false ->
     outcome (score perf (fst (fst turn)) product y slices
                (est_value product (snd turn) out)) = Returned tt).


(** [x'] is [x] with some elements that are not finite or are below zero
    replaced by zero: what in-place post-processing can do to the test
    data. *)
Definition zeroed (x x' : ndarray) : Prop :=
  ncols x' = ncols x /\
  map (@List.length float) (rows x') = map (@List.length float) (rows x) /\
  forall r c,
    elem x' r c = elem x r c \/
    (physical (elem x r c) = false /\ elem x' r c = 0%float).

(** The registry the orchestrator discovers (line 64). *)
Definition registry_of (B : string -> list plugin) (waves : list Z)
    (sensor product : string) : Dict.t partial :=
  match outcome (get_methods B waves sensor product true false [("tol", 15%Z)]) with
  | Returned reg => reg
  | Raised _ => []
  end.

(** Whether ground truth was passed. *)
Definition given (y_test : option ndarray) : bool :=
  match y_test with Some _ => true | None => false end.

(** Line 312 on one key that is not empty. *)
Definition is_iop_key (k : string) : bool :=
  match k with
  | EmptyString => false
  | String c _ =>
      existsb (Ascii.eqb c) ["a"; "b"]%char
      && negb (str_in "*" k) && negb (str_in "ad" k)
  end.

(** A variant that the dispatcher runs returns [r]; one that it does not
    run contributes nothing. *)
Definition variant_returns (on : bool) (variant : M (Dict.t pyval))
    (r : Dict.t pyval) : Prop :=
  if on then outcome variant = Returned r else r = [].

(** The same for a variant that may write to the test data, which holds
    [x_test] before: [r] is what it holds afterwards, and the mapping. *)
Definition product_returns (on : bool) (variant : M (ndarray * Dict.t pyval))
    (x_test : ndarray) (r : ndarray * Dict.t pyval) : Prop :=
  if on then outcome variant = Returned r else r = (x_test, []).

(** A computation that appends only events satisfying [P]. *)
Definition emits (P : event -> Prop) {A} (m : M A) : Prop :=
  uniform m /\ Forall P (events_of m).

Definition not_run (ev : event) : Prop :=
  match ev with Run _ => False | _ => True end.

(* ================================================================= *)
(** ** Example plugin layouts and inputs *)

Module Fixtures.

(** Four bands, as in the end-to-end scenario of the design notes. *)
Definition oli : list Z := [443; 490; 555; 670]%Z.

Definition bands (sensor : string) (_ : unit) : list Z := oli.

Definition perf (lbl : string) (_ : list float) (_ : pyval) : string := lbl.

Definition full (r c : nat) (v : float) : ndarray :=
  {| ncols := c; rows := repeat (repeat v c) r |}.

Definition first_column (x : ndarray) : ndarray :=
  {| ncols := 1; rows := map (fun r => [nth 0 r 0%float]) (rows x) |}.

(** A band-ratio algorithm with defaults; it reads the fourth band. *)
Definition OC3 : pyobj :=
  {| has_default := Some true; opt_vars := []; model_name := None;
     call := fun x _ _ _ =>
               if Nat.leb 4 (ncols x) then Returned (Some (Own (first_column x)))
               else Raised IndexError |}.

(** An algorithm that must be tuned: it needs the parameter [a]. *)
Definition tuned : pyobj :=
  {| has_default := Some false; opt_vars := ["a"]; model_name := None;
     call := fun x _ _ kw =>
               match Dict.get "a" kw with
               | Some _ => Returned (Some (Own (first_column x)))
               | None => Raised (KeyError "a")
               end |}.

(** An algorithm with one output column per input column: it returns a
    copy of its input. *)
Definition echo : pyobj :=
  {| has_default := Some true; opt_vars := []; model_name := Some "Echo";
     call := fun x _ _ _ => Returned (Some (Own x)) |}.

(** An algorithm whose output holds a negative and a non-finite element. *)
Definition noisy : pyobj :=
  {| has_default := Some true; opt_vars := []; model_name := Some "Noisy";
     call := fun _ _ _ _ =>
               Returned (Some (Own {| ncols := 3;
                                      rows := [[(-1)%float; nan;
                                                0x1.999999999999ap+1%float]] |})) |}.

(** An algorithm that cannot run on these bands. *)
Definition broken : pyobj :=
  {| has_default := Some true; opt_vars := []; model_name := None;
     call := fun _ _ _ _ => Raised (ModelError "no band near 709") |}.

Definition folder (n : string) (symbols : list (string * pyobj)) : plugin :=
  {| name := n; is_folder := true; imported := symbols |}.

Definition layout_oc3 (product : string) : list plugin :=
  [folder "OC3" [("model", OC3)]].


(** One folder exposing a default entry point and a tunable one. *)
Definition layout_shared (product : string) : list plugin :=
  [folder "OC" [("model", OC3); ("model_opt", tuned)]].

Definition layout_broken (product : string) : list plugin :=
  [folder "Broken" [("model", broken)]; folder "OC3" [("model", OC3)]].


Definition layout_noisy (product : string) : list plugin :=
  [folder "noisy" [("model", noisy)]].

Definition tol15 : Dict.t Z := [("tol", 15%Z)].

Definition columns (lo hi : Z) : pyslice := {| start := Some lo; stop := Some hi |}.

(** Ground truth with an absorption column, a chlorophyll column and a
    suspended-solids column. *)
Definition slices_all : Dict.t pyslice :=
  [("aph", columns 0 1); ("chl", columns 1 2); ("tss", columns 2 3)].

Definition slices_aph_chl : Dict.t pyslice :=
  [("aph", columns 0 1); ("chl", columns 1 2)].

Definition slices_empty_key : Dict.t pyslice :=
  [(EmptyString, columns 0 1); ("tss", columns 1 2)].

(** An inversion engine with the single output [aph], and one with none. *)
Definition qaa_aph (x : ndarray) (_ : list Z) : Dict.t ndarray :=
  [("aph", first_column x)].

Definition qaa_empty (_ : ndarray) (_ : list Z) : Dict.t ndarray := [].

(** A learned bench that prints nothing and returns one estimate. *)
Definition ml_xgb (_ : unit) (_ : string) (_ _ : option ndarray) (x _ : ndarray)
    (_ : Dict.t pyslice) (_ _ : bool) : list string * result (Dict.t pyval) :=
  ([], Returned [("XGB", Arr1 (column 0 x))]).

End Fixtures.

(* ================================================================= *)
(** ** The rest of the program *)

Section Variants.

Variable Args : Type.
Variable get_sensor_bands : string -> Args -> list Z.
Variable performance : string -> list float -> pyval -> string.
Variable QAA : ndarray -> list Z -> Dict.t ndarray.
Variable other_dtype : list Z -> Z -> string * string.

(** Lines 286-290 *)
Definition bench_iop (args : Args) (sensor : string) (x_test y_test : ndarray)
    (slices : Dict.t pyslice) (silent : bool) : M (Dict.t pyval) :=
  let iop_ests := [] in
  r <- bench_qaa get_sensor_bands performance QAA other_dtype args sensor x_test y_test
         slices silent ;;
  ret (Dict.update iop_ests r).

End Variants.

(* ================================================================= *)
(** ** More vocabulary *)

(** A symbol that discovery looks at: its name contains "model" and it has
    the [has_default] attribute. *)
Definition entry_point (e : string * pyobj) : bool :=
  str_in "model" (fst e) &&
  match has_default (snd e) with Some _ => true | None => false end.

(** A product directory without what discovery passes over: the items
    that are not folders and, in each module, the symbols that are not
    entry points. *)
Definition prune (ps : list plugin) : list plugin :=
  map (fun p => {| name := name p; is_folder := true;
                   imported := filter entry_point (imported p) |})
      (filter is_folder ps).

(** The bound callable that line 46 stores for a candidate. *)
Definition bound (sensor name : string) (model : pyobj) : partial :=
  {| func := model; keywords_sensor := sensor; __name__ := display_name name model |}.

(** Line 239 on one key that is not empty. *)
Definition starts_ab (k : string) : bool :=
  match k with
  | EmptyString => false
  | String c _ => existsb (Ascii.eqb c) ["a"; "b"]%char
  end.

(** Line 254: ['QAA %s%s' % (name, w)], the key of an estimate *)
Definition qaa_label (other : list Z -> Z -> string * string) (name : string)
    (waves : list Z) (w : Z) : string :=
  String.append "QAA " (String.append name (format_s other waves w)).

(** Line 252: ['QAA %s%i' % (name, w)], the label of a report *)
Definition qaa_report_label (other : list Z -> Z -> string * string) (name : string)
    (waves : list Z) (w : Z) : string :=
  String.append "QAA " (String.append name (format_i other waves w)).

(** The slice key [name] can be processed by [bench_qaa]: the inversion has
    an output under the key without its underscores, that output has the
    shape of the ground-truth columns of [name], and the sensor has a
    wavelength for each of these columns. *)
Definition qaa_ready (y_test : ndarray) (slices : Dict.t pyslice) (waves : list Z)
    (qaa : Dict.t ndarray) (name : string) : bool :=
  match Dict.get (replace "_" EmptyString name) qaa, Dict.get name slices with
  | Some est_val, Some sl =>
      Nat.eqb (List.length (rows (getitem_cols y_test sl))) (List.length (rows est_val))
      && Nat.eqb (ncols (getitem_cols y_test sl)) (ncols est_val)
      && Nat.leb (ncols est_val) (List.length waves)
  | _, _ => false
  end.

(** The entries [bench_qaa] builds for one slice key: one per output column,
    labelled with the wavelength at the column's position. *)
Definition qaa_entries (other : list Z -> Z -> string * string) (waves : list Z)
    (qaa : Dict.t ndarray) (name : string) : list (string * pyval) :=
  match Dict.get (replace "_" EmptyString name) qaa with
  | Some est_val =>
      map (fun i => (qaa_label other name waves (nth i waves 0%Z),
                     Arr1 (column i est_val)))
          (seq 0 (ncols est_val))
  | None => []
  end.

(** The lines [bench_qaa] prints for one slice key when it is not silent. *)
Definition qaa_reports (perf : string -> list float -> pyval -> string)
    (other : list Z -> Z -> string * string)
    (y_test : ndarray) (slices : Dict.t pyslice) (waves : list Z)
    (qaa : Dict.t ndarray) (name : string) : list event :=
  match Dict.get (replace "_" EmptyString name) qaa, Dict.get name slices with
  | Some est_val, Some sl =>
      map (fun i => Printed (Report (perf (qaa_report_label other name waves
                                             (nth i waves 0%Z))
                                          (column i (getitem_cols y_test sl))
                                          (Arr1 (column i est_val)))))
          (seq 0 (ncols est_val))
  | _, _ => []
  end.

(** The call of line 71, in the turn of an entry, as an event. *)
Definition run_call (waves : list Z) (turn : string * partial * ndarray) : event :=
  Call (func (snd (fst turn))) (snd turn) waves (keywords_sensor (snd (fst turn)))
       [("tol", 15%Z)].

(* ================================================================= *)
(** ** More example layouts and inputs *)

Module MoreFixtures.

(** A second algorithm with defaults; it reads the first band only. *)
Definition OC2 : pyobj :=
  {| has_default := Some true; opt_vars := []; model_name := None;
     call := fun x _ _ _ => Returned (Some (Own (Fixtures.first_column x))) |}.

(** An algorithm that answers a single sample and returns [None] otherwise. *)
Definition shy : pyobj :=
  {| has_default := Some true; opt_vars := []; model_name := Some "Shy";
     call := fun x _ _ _ =>
               if Nat.eqb (List.length (rows x)) 1
               then Returned (Some (Own (Fixtures.first_column x)))
               else Returned None |}.

(** A helper that is no entry point: it lacks [has_default]. *)
Definition helper : pyobj :=
  {| has_default := None; opt_vars := []; model_name := None;
     call := fun _ _ _ _ => Raised (ModelError "not an algorithm") |}.

(** One folder whose two entry points share the folder name. *)
Definition layout_twins (product : string) : list plugin :=
  [Fixtures.folder "OC" [("model", Fixtures.OC3); ("model_b", OC2)]].

Definition layout_tuned_oc3 (product : string) : list plugin :=
  [Fixtures.folder "Fit" [("model", Fixtures.tuned)];
   Fixtures.folder "OC3" [("model", Fixtures.OC3)]].

Definition layout_echo_shy (product : string) : list plugin :=
  [Fixtures.folder "echo" [("model", Fixtures.echo)];
   Fixtures.folder "shy" [("model", shy)]].

Definition layout_nothing (product : string) : list plugin :=
  [Fixtures.folder "Broken" [("model", Fixtures.broken)]].

(** A directory with a plain module next to the folders, and a [model]
    module with a helper and an imported name next to its entry point. *)
Definition layout_messy (product : string) : list plugin :=
  [Fixtures.folder "OC3"
     [("find_wavelength", Fixtures.echo); ("model", Fixtures.OC3);
      ("model_helper", helper)];
   {| name := "utils"; is_folder := false; imported := [("model", Fixtures.OC3)] |}].

Definition slices_a_ph : Dict.t pyslice :=
  [("a_ph", Fixtures.columns 0 1); ("chl", Fixtures.columns 1 2)].

Definition slices_a_ph_bbp : Dict.t pyslice :=
  [("a_ph", Fixtures.columns 0 1); ("bbp", Fixtures.columns 1 2)].

Definition slices_aph_wide : Dict.t pyslice :=
  [("aph", Fixtures.columns 0 5)].

(** An inversion whose [aph] output has one column per feature column. *)
Definition qaa_wide (x : ndarray) (_ : list Z) : Dict.t ndarray := [("aph", x)].

(** The view [x[:, lo:lo+n]] of [x]. *)
Definition view_cols (x : ndarray) (lo n : nat) : array :=
  View n (map (fun r => map (fun c => (r, c)) (seq lo n))
              (seq 0 (List.length (rows x)))).

(** A band-ratio algorithm that returns the first band as it is: a view of
    the first column of its input. *)
Definition Band1 : pyobj :=
  {| has_default := Some true; opt_vars := []; model_name := None;
     call := fun x _ _ _ => Returned (Some (view_cols x 0 1)) |}.

(** An algorithm that returns its input itself. *)
Definition same : pyobj :=
  {| has_default := Some true; opt_vars := []; model_name := None;
     call := fun x _ _ _ => Returned (Some (view_cols x 0 (ncols x))) |}.

(** An algorithm that divides by its input: it fails on data with an
    element equal to zero. *)
Definition picky : pyobj :=
  {| has_default := Some true; opt_vars := []; model_name := None;
     call := fun x _ _ _ =>
               if existsb (existsb (fun e => (e =? 0)%float)) (rows x)
               then Raised (ModelError "zero reflectance")
               else Returned (Some (Own (Fixtures.first_column x))) |}.

(** Folders and symbols in the order [pkgutil.iter_modules] and [dir] list
    them. *)
Definition layout_band1_oc3 (product : string) : list plugin :=
  [Fixtures.folder "Band1" [("model", Band1)];
   Fixtures.folder "OC3" [("model", Fixtures.OC3)]].

Definition layout_band1 (product : string) : list plugin :=
  [Fixtures.folder "Band1" [("model", Band1)]].

Definition layout_same_picky (product : string) : list plugin :=
  [Fixtures.folder "A_same" [("model", same)];
   Fixtures.folder "B_picky" [("model", picky)]].

(** Test data of one sample and four bands. *)
Definition row4 (a b c d : float) : ndarray :=
  {| ncols := 4; rows := [[a; b; c; d]] |}.

(** Two samples whose first band is zero and whose other bands are -1. *)
Definition zero_first : ndarray :=
  {| ncols := 4;
     rows := [[0%float; (-1)%float; (-1)%float; (-1)%float];
              [0%float; (-1)%float; (-1)%float; (-1)%float]] |}.

(** Bands that depend on the whole sensor identifier. *)
Definition bands_of (sensor : string) (_ : unit) : list Z :=
  if String.eqb sensor "OLI-rho" then [443; 490]%Z else Fixtures.oli.

(** numpy's printing for band arrays that are not int64; never reached on
    the example bands. *)
Definition no_other (_ : list Z) (_ : Z) : string * string :=
  (EmptyString, EmptyString).

End MoreFixtures.


(* ================================================================= *)
(** ** Facts about dictionaries *)

Module DictFacts.

Lemma get_set_eq {V} (k : string) (v : V) d : Dict.get k (Dict.set k v d) = Some v.
Proof.
  induction d as [|[k' v'] r IH]; simpl.
  - now rewrite String.eqb_refl.
  - destruct (String.eqb k k') eqn:E; simpl; rewrite E; auto.
Qed.

Lemma get_set_ne {V} (k k' : string) (v : V) d :
  k <> k' -> Dict.get k (Dict.set k' v d) = Dict.get k d.
Proof.
  intros Hne. induction d as [|[k2 v2] r IH]; simpl.
  - destruct (String.eqb_spec k k'); congruence.
  - destruct (String.eqb_spec k' k2) as [->|Hk]; simpl.
    + destruct (String.eqb_spec k k2); congruence.
    + destruct (String.eqb_spec k k2); auto.
Qed.

Lemma get_set {V} (k k' : string) (v : V) d :
  Dict.get k (Dict.set k' v d) = if String.eqb k k' then Some v else Dict.get k d.
Proof.
  destruct (String.eqb_spec k k') as [->|Hne].
  - apply get_set_eq.
  - now apply get_set_ne.
Qed.

Lemma get_In {V} (k : string) (v : V) d : Dict.get k d = Some v -> In (k, v) d.
Proof.
  induction d as [|[k' v'] r IH]; simpl; [discriminate|].
  destruct (String.eqb_spec k k') as [->|Hne]; intros H.
  - inversion H; auto.
  - auto.
Qed.

Lemma get_None {V} (k : string) (d : Dict.t V) :
  Dict.get k d = None <-> ~ In k (Dict.keys d).
Proof.
  induction d as [|[k' v'] r IH]; simpl.
  - tauto.
  - destruct (String.eqb_spec k k') as [->|Hne].
    + split; [discriminate | intros H; exfalso; auto].
    + rewrite IH. split; intros H; [intros [E|E]; [congruence | auto] | auto].
Qed.

Lemma mem_keys {V} (k : string) (d : Dict.t V) :
  Dict.mem k d = true <-> In k (Dict.keys d).
Proof.
  unfold Dict.mem. destruct (Dict.get k d) eqn:E.
  - split; auto. intros _. apply get_In in E.
    apply (in_map fst) in E. exact E.
  - split; [discriminate|]. intros H. apply get_None in E. contradiction.
Qed.

Lemma keys_set {V} (k : string) (v : V) d :
  Dict.keys (Dict.set k v d) =
  if Dict.mem k d then Dict.keys d else Dict.keys d ++ [k].
Proof.
  unfold Dict.mem. induction d as [|[k' v'] r IH]; simpl; auto.
  destruct (String.eqb_spec k k') as [->|Hne]; simpl; auto.
  rewrite IH. destruct (Dict.get k r); auto.
Qed.

Lemma In_keys_set {V} (k k' : string) (v : V) d :
  In k (Dict.keys (Dict.set k' v d)) <-> k = k' \/ In k (Dict.keys d).
Proof.
  rewrite keys_set. destruct (Dict.mem k' d) eqn:E.
  - apply mem_keys in E. split; auto. intros [->|H]; auto.
  - rewrite in_app_iff. simpl. intuition auto.
Qed.

Lemma NoDup_keys_set {V} (k : string) (v : V) d :
  NoDup (Dict.keys d) -> NoDup (Dict.keys (Dict.set k v d)).
Proof.
  intros Hnd. rewrite keys_set. destruct (Dict.mem k d) eqn:E; auto.
  assert (Hk : ~ In k (Dict.keys d)).
  { intros H. apply mem_keys in H. congruence. }
  clear E. induction (Dict.keys d) as [|a l IH]; simpl.
  - repeat constructor; auto.
  - inversion Hnd; subst. constructor.
    + rewrite in_app_iff. simpl in *. intuition auto.
    + apply IH; simpl in *; auto.
Qed.

Lemma In_set {V} (k k' : string) (v v' : V) d :
  In (k, v) (Dict.set k' v' d) -> (k = k' /\ v = v') \/ In (k, v) d.
Proof.
  induction d as [|[k2 v2] r IH]; simpl.
  - intros [H|[]]. inversion H; auto.
  - destruct (String.eqb_spec k' k2) as [->|Hne]; simpl.
    + intros [H|H]; [inversion H; auto | auto].
    + intros [H|H]; auto. destruct (IH H); auto.
Qed.

(** Keys outside [other] keep their value under [update]. *)
Lemma get_update_notin {V} (k : string) (other : list (string * V)) d :
  ~ In k (map fst other) -> Dict.get k (Dict.update d other) = Dict.get k d.
Proof.
  unfold Dict.update. revert d.
  induction other as [|[k' v'] o IH]; simpl; intros d Hk; auto.
  rewrite IH by tauto. apply get_set_ne. intros ->. tauto.
Qed.

(** Keys of [other] take one of the values [other] gives them. *)
Lemma get_update_in {V} (k : string) (other : list (string * V)) d :
  In k (map fst other) ->
  exists v, Dict.get k (Dict.update d other) = Some v /\ In (k, v) other.
Proof.
  unfold Dict.update. revert d.
  induction other as [|[k' v'] o IH]; simpl; intros d Hk; [tauto|].
  destruct (in_dec string_dec k (map fst o)) as [Hin|Hnin].
  - destruct (IH (Dict.set k' v' d) Hin) as (v & Hv & Hi). eauto.
  - destruct Hk as [->|Hk]; [|tauto].
    exists v'. split; auto.
    change (Dict.get k (Dict.update (Dict.set k v' d) o) = Some v').
    rewrite get_update_notin by assumption. apply get_set_eq.
Qed.

Lemma In_update {V} (k : string) (v : V) (other : list (string * V)) d :
  In (k, v) (Dict.update d other) -> In (k, v) d \/ In (k, v) other.
Proof.
  unfold Dict.update. revert d.
  induction other as [|[k' v'] o IH]; simpl; intros d H; auto.
  destruct (IH _ H) as [H1|H1]; auto.
  destruct (In_set _ _ _ _ _ H1) as [[-> ->]|H2]; auto.
Qed.

Lemma In_keys_update {V} (k : string) (other : list (string * V)) d :
  In k (Dict.keys (Dict.update d other)) <->
  In k (Dict.keys d) \/ In k (map fst other).
Proof.
  unfold Dict.update. revert d.
  induction other as [|[k' v'] o IH]; simpl; intros d.
  - tauto.
  - rewrite IH, In_keys_set. intuition auto.
Qed.


(** The value [update] gives a key: the last one in [other], else the old one. *)
Lemma get_update {V} (k : string) (other : list (string * V)) d :
  Dict.get k (Dict.update d other) =
  match Dict.get k (Dict.of_list other) with
  | Some v => Some v
  | None => Dict.get k d
  end.
Proof.
  unfold Dict.of_list, Dict.update.
  assert (G : forall o (d1 d2 : Dict.t V),
             (Dict.get k d1 = match Dict.get k d2 with
                              | Some v => Some v | None => Dict.get k d end) ->
             Dict.get k (fold_left (fun acc kv => Dict.set (fst kv) (snd kv) acc) o d1) =
             match Dict.get k (fold_left (fun acc kv => Dict.set (fst kv) (snd kv) acc) o d2) with
             | Some v => Some v | None => Dict.get k d end).
  { induction o as [|[k' v'] o IH]; simpl; intros d1 d2 H; auto.
    apply IH. rewrite !get_set. destruct (String.eqb k k'); auto. }
  apply G. reflexivity.
Qed.

(** Appending fresh keys one by one is list append. *)
Lemma update_fresh {V} (other : list (string * V)) d :
  NoDup (Dict.keys d ++ map fst other) -> Dict.update d other = d ++ other.
Proof.
  unfold Dict.update. revert d.
  induction other as [|[k v] o IH]; simpl; intros d H.
  - now rewrite app_nil_r.
  - assert (Hk : ~ In k (Dict.keys d)).
    { apply NoDup_remove_2 in H. rewrite in_app_iff in H. tauto. }
    assert (Hs : Dict.set k v d = d ++ [(k, v)]).
    { clear - Hk. induction d as [|[k' v'] r IH]; simpl in *; auto.
      destruct (String.eqb_spec k k') as [->|Hne]; [tauto|].
      rewrite IH; auto. }
    rewrite Hs, IH.
    + now rewrite <- app_assoc.
    + unfold Dict.keys in *. rewrite map_app, <- app_assoc. simpl. exact H.
Qed.

Lemma of_list_NoDup {V} (l : list (string * V)) :
  NoDup (map fst l) -> Dict.of_list l = l.
Proof. intros H. unfold Dict.of_list. now rewrite update_fresh. Qed.

End DictFacts.

(* ================================================================= *)
(** ** Facts about the monad *)

Create HintDb uniform.

Lemma uniform_intro {A} (m : M A) (new : list event) (r : result A) :
  (forall t, m t = (t ++ new, r)) -> uniform m.
Proof.
  intros H t. unfold events_of, outcome. rewrite (H []), (H t). reflexivity.
Qed.

Lemma uniform_ret {A} (a : A) : uniform (ret a).
Proof. apply uniform_intro with (new := []) (r := Returned a).
  intros t. unfold ret. now rewrite app_nil_r. Qed.

Lemma uniform_raise {A} (e : exn) : uniform (@raise A e).
Proof. apply uniform_intro with (new := []) (r := Raised e).
  intros t. unfold raise. now rewrite app_nil_r. Qed.

Lemma uniform_emit (ev : event) : uniform (emit ev).
Proof. apply uniform_intro with (new := [ev]) (r := Returned tt). reflexivity. Qed.

Lemma uniform_print (l : line) : uniform (print l).
Proof. apply uniform_emit. Qed.

Lemma uniform_invoke f x w s kw : uniform (invoke f x w s kw).
Proof.
  apply uniform_intro with (new := [Call f x w s kw]) (r := call f x w s kw).
  reflexivity.
Qed.

Lemma uniform_bind {A B} (m : M A) (k : A -> M B) :
  uniform m -> (forall a, uniform (k a)) -> uniform (bind m k).
Proof.
  intros Hm Hk.
  apply uniform_intro with
    (new := events_of m ++
            match outcome m with Returned a => events_of (k a) | Raised _ => [] end)
    (r := match outcome m with Returned a => outcome (k a) | Raised e => Raised e end).
  intros t. unfold bind. rewrite (Hm t). destruct (outcome m) as [a|e].
  - rewrite (Hk a). now rewrite app_assoc.
  - now rewrite app_nil_r.
Qed.

Lemma uniform_try_except {A} (m : M A) (h : exn -> M A) :
  uniform m -> (forall e, uniform (h e)) -> uniform (try_except m h).
Proof.
  intros Hm Hh.
  apply uniform_intro with
    (new := events_of m ++
            match outcome m with Returned _ => [] | Raised e => events_of (h e) end)
    (r := match outcome m with Returned a => Returned a | Raised e => outcome (h e) end).
  intros t. unfold try_except. rewrite (Hm t). destruct (outcome m) as [a|e].
  - now rewrite app_nil_r.
  - rewrite (Hh e). now rewrite app_assoc.
Qed.

Lemma uniform_assert b msg : uniform (assert b msg).
Proof. destruct b; [apply uniform_ret | apply uniform_raise]. Qed.

Lemma uniform_when b m : uniform m -> uniform (when b m).
Proof. intros H. destruct b; simpl; [exact H | apply uniform_ret]. Qed.

Lemma uniform_getitem {V} (d : Dict.t V) k : uniform (getitem d k).
Proof. unfold getitem. destruct (Dict.get k d); [apply uniform_ret | apply uniform_raise]. Qed.

Lemma uniform_index {A} (l : list A) i : uniform (index l i).
Proof. unfold index. destruct (nth_error l i); [apply uniform_ret | apply uniform_raise]. Qed.

Lemma uniform_for_each {A B} (f : A -> B -> M A) (l : list B) :
  (forall a b, uniform (f a b)) -> forall a, uniform (for_each f l a).
Proof.
  intros Hf. induction l as [|b r IH]; intros a; simpl.
  - apply uniform_ret.
  - apply uniform_bind; auto.
Qed.

Lemma uniform_filter_m {B} (p : B -> M bool) (l : list B) :
  (forall b, uniform (p b)) -> uniform (filter_m p l).
Proof.
  intros Hp. induction l as [|b r IH]; simpl.
  - apply uniform_ret.
  - apply uniform_bind; auto. intros keep.
    apply uniform_bind; auto. intros r'. apply uniform_ret.
Qed.

#[export] Hint Resolve uniform_ret uniform_raise uniform_emit uniform_print
  uniform_invoke uniform_bind uniform_try_except uniform_assert uniform_when
  uniform_getitem uniform_index uniform_for_each uniform_filter_m : uniform.

Lemma events_bind {A B} (m : M A) (k : A -> M B) :
  uniform m -> (forall a, uniform (k a)) ->
  events_of (bind m k) =
  events_of m ++ match outcome m with Returned a => events_of (k a) | Raised _ => [] end.
Proof.
  intros Hm Hk. unfold events_of at 1, bind. rewrite (Hm []). simpl.
  destruct (outcome m) as [a|e]; simpl.
  - now rewrite (Hk a).
  - now rewrite app_nil_r.
Qed.



Lemma printed_app t1 t2 : printed (t1 ++ t2) = printed t1 ++ printed t2.
Proof. apply flat_map_app. Qed.

Lemma runs_app t1 t2 : runs (t1 ++ t2) = runs t1 ++ runs t2.
Proof. apply flat_map_app. Qed.



(* ================================================================= *)
(** ** The discovery pass *)


Lemma visit_run wl s debug allow_opt name st function model t :
  visit wl s debug allow_opt name st (function, model) t =
  if str_in "model" function then
    (fst (discover_step wl s debug allow_opt (t, st) (name, model)),
     Returned (snd (discover_step wl s debug allow_opt (t, st) (name, model))))
  else (t, Returned st).
Proof.
  unfold visit, discover_step, eligible, probe_kwargs.
  destruct (str_in "model" function); [|reflexivity].
  destruct (has_default model) as [[|]|]; simpl.
  - unfold try_except, bind, invoke.
    destruct (call model _ wl s (kwargs st)) as [[a|]|e]; simpl; try reflexivity.
    destruct debug; simpl; try reflexivity.
    now rewrite <- app_assoc.
  - destruct allow_opt; simpl.
    + unfold try_except, bind, invoke.
      destruct (call model _ wl s _) as [[a|]|e]; simpl; try reflexivity.
      destruct debug; simpl; try reflexivity.
      now rewrite <- app_assoc.
    + destruct debug; simpl; try reflexivity.
      now rewrite app_nil_r.
  - now rewrite app_nil_r.
Qed.

Lemma discover_app wl s debug allow_opt l1 l2 acc :
  discover wl s debug allow_opt (l1 ++ l2) acc =
  discover wl s debug allow_opt l2 (discover wl s debug allow_opt l1 acc).
Proof. apply fold_left_app. Qed.

(** The loop over the symbols of one module is the fold over its candidates. *)
Lemma visit_loop wl s debug allow_opt name (entries : list (string * pyobj)) st t :
  for_each (visit wl s debug allow_opt name) entries st t =
  (fst (discover wl s debug allow_opt
          (map (fun e => (name, snd e))
               (filter (fun e => str_in "model" (fst e)) entries)) (t, st)),
   Returned (snd (discover wl s debug allow_opt
          (map (fun e => (name, snd e))
               (filter (fun e => str_in "model" (fst e)) entries)) (t, st)))).
Proof.
  revert st t. induction entries as [|[function model] r IH]; intros st t.
  - reflexivity.
  - cbn [for_each filter fst snd]. unfold bind. rewrite visit_run.
    destruct (str_in "model" function); cbn [map fst snd].
    + rewrite IH. unfold discover. cbn [fold_left].
      now rewrite <- surjective_pairing.
    + apply IH.
Qed.

Lemma candidates_cons p ps :
  candidates (p :: ps) =
  (if is_folder p then
     map (fun e => (name p, snd e)) (filter (fun e => str_in "model" (fst e)) (imported p))
   else []) ++ candidates ps.
Proof.
  unfold candidates, symbols. simpl. rewrite filter_app, map_app. f_equal.
  destruct (is_folder p); [|reflexivity].
  induction (imported p) as [|[fn m] r IH]; simpl; auto.
  unfold is_candidate at 1. simpl. destruct (str_in "model" fn); simpl; now rewrite IH.
Qed.

(** The nested loops of [get_methods] are the fold over the candidates. *)
Lemma plugin_loop wl s debug allow_opt (ps : list plugin) st t :
  for_each (visit_plugin wl s debug allow_opt) ps st t =
  (fst (discover wl s debug allow_opt (candidates ps) (t, st)),
   Returned (snd (discover wl s debug allow_opt (candidates ps) (t, st)))).
Proof.
  revert st t. induction ps as [|p r IH]; intros st t.
  - reflexivity.
  - simpl for_each. unfold bind. rewrite candidates_cons, discover_app.
    unfold visit_plugin at 1. destruct (is_folder p).
    + rewrite visit_loop, IH. now rewrite <- surjective_pairing.
    + simpl. apply IH.
Qed.

Lemma get_methods_run B wl sensor product debug allow_opt kw t :
  get_methods B wl sensor product debug allow_opt kw t =
  (fst (discover wl (split_head "-" sensor) debug allow_opt (candidates (B product))
          (t, {| methods := []; kwargs := kw |})),
   Returned (methods (snd (discover wl (split_head "-" sensor) debug allow_opt
                             (candidates (B product))
                             (t, {| methods := []; kwargs := kw |}))))).
Proof. unfold get_methods, bind. rewrite plugin_loop. reflexivity. Qed.

(** The fold only appends to the trace it starts from. *)
Lemma discover_trace wl s debug allow_opt cs t st :
  discover wl s debug allow_opt cs (t, st) =
  (t ++ fst (discover wl s debug allow_opt cs ([], st)),
   snd (discover wl s debug allow_opt cs ([], st))).
Proof.
  revert t st. induction cs as [|[name model] r IH]; intros t st; simpl.
  - now rewrite app_nil_r.
  - unfold discover in *. simpl.
    destruct (eligible allow_opt model).
    + destruct (call model _ wl s _) as [[a|]|e]; simpl;
        rewrite IH; symmetry; rewrite IH; simpl; now rewrite <- app_assoc.
    + rewrite IH; symmetry; rewrite IH; simpl; now rewrite <- app_assoc.
Qed.

Lemma uniform_get_methods B wl sensor product debug allow_opt kw :
  uniform (get_methods B wl sensor product debug allow_opt kw).
Proof.
  eapply uniform_intro. intros t. rewrite get_methods_run, discover_trace.
  cbn [fst snd]. reflexivity.
Qed.
#[export] Hint Resolve uniform_get_methods : uniform.

Lemma discover_cons wl s debug allow_opt c cs st :
  discover wl s debug allow_opt (c :: cs) ([], st) =
  (fst (discover_step wl s debug allow_opt ([], st) c)
     ++ fst (discover wl s debug allow_opt cs
               ([], snd (discover_step wl s debug allow_opt ([], st) c))),
   snd (discover wl s debug allow_opt cs
          ([], snd (discover_step wl s debug allow_opt ([], st) c)))).
Proof.
  unfold discover at 1. cbn [fold_left].
  destruct (discover_step wl s debug allow_opt ([], st) c) as [t1 st1].
  apply discover_trace.
Qed.

Lemma call_events_app t1 t2 : call_events (t1 ++ t2) = call_events t1 ++ call_events t2.
Proof. apply filter_app. Qed.

Lemma In_call_events ev t :
  In ev (call_events t) <->
  In ev t /\ exists f x w s kw, ev = Call f x w s kw.
Proof.
  unfold call_events. rewrite filter_In. split; intros [H1 H2]; split; auto.
  - destruct ev; try discriminate. eauto 10.
  - destruct H2 as (f & x & w & s & kw & ->). reflexivity.
Qed.

(** The probes of a pass are the expected ones, whatever they return. *)
Lemma discover_probes wl s debug allow_opt cs st :
  call_events (fst (discover wl s debug allow_opt cs ([], st))) =
  expected_probes wl s (kwargs st) (filter (eligible allow_opt) (map snd cs)).
Proof.
  revert st. induction cs as [|[name model] r IH]; intros st.
  - reflexivity.
  - rewrite discover_cons. cbn [fst]. rewrite call_events_app, IH. cbn [map snd filter].
    unfold discover_step. destruct (eligible allow_opt model).
    + cbn [expected_probes].
      destruct (call model _ wl s _) as [[a|]|e]; cbn [fst snd kwargs app call_events filter];
        try reflexivity.
      destruct debug; reflexivity.
    + cbn [fst snd app]. destruct (has_default model); [destruct debug|]; reflexivity.
Qed.

(** The registry of a pass is the expected one. *)
Lemma discover_registry wl s debug allow_opt cs st :
  methods (snd (discover wl s debug allow_opt cs ([], st))) =
  expected_registry wl s (kwargs st) (methods st)
    (filter (fun c => eligible allow_opt (snd c)) cs).
Proof.
  revert st. induction cs as [|[name model] r IH]; intros st.
  - reflexivity.
  - rewrite discover_cons. cbn [snd]. rewrite IH. cbn [filter snd].
    unfold discover_step. destruct (eligible allow_opt model).
    + cbn [expected_registry].
      destruct (call model _ wl s _) as [[a|]|e]; reflexivity.
    + reflexivity.
Qed.

Lemma events_get_methods B wl sensor product debug allow_opt kw :
  events_of (get_methods B wl sensor product debug allow_opt kw) =
  fst (discover wl (split_head "-" sensor) debug allow_opt (candidates (B product))
         ([], {| methods := []; kwargs := kw |})).
Proof. unfold events_of. now rewrite get_methods_run. Qed.

Lemma outcome_get_methods B wl sensor product debug allow_opt kw :
  outcome (get_methods B wl sensor product debug allow_opt kw) =
  Returned (methods (snd (discover wl (split_head "-" sensor) debug allow_opt
                            (candidates (B product))
                            ([], {| methods := []; kwargs := kw |})))).
Proof. unfold outcome. now rewrite get_methods_run. Qed.

(** *** The named parameters of a probe *)

Lemma combine_repeat_fst {A B} (l : list A) (b : B) :
  map fst (combine l (repeat b (List.length l))) = l.
Proof. induction l as [|a r IH]; simpl; congruence. Qed.

Lemma probe_kwargs_placeholder kw model k :
  has_default model = Some false -> In k (opt_vars model) ->
  Dict.get k (probe_kwargs kw model) = Some 1%Z.
Proof.
  intros Hd Hk. unfold probe_kwargs. rewrite Hd.
  set (pairs := combine (opt_vars model) (repeat 1%Z (List.length (opt_vars model)))).
  destruct (DictFacts.get_update_in k (Dict.of_list pairs) kw) as (v & Hv & Hin).
  - change (In k (Dict.keys (Dict.of_list pairs))). unfold Dict.of_list.
    rewrite DictFacts.In_keys_update. right. unfold pairs.
    now rewrite combine_repeat_fst.
  - rewrite Hv. f_equal.
    apply DictFacts.In_update in Hin. destruct Hin as [[]|Hin].
    apply in_combine_r in Hin. now apply repeat_spec in Hin.
Qed.

Lemma probe_kwargs_other kw model k :
  (has_default model = Some false -> ~ In k (opt_vars model)) ->
  Dict.get k (probe_kwargs kw model) = Dict.get k kw.
Proof.
  intros H. unfold probe_kwargs.
  destruct (has_default model) as [[|]|]; auto.
  apply DictFacts.get_update_notin.
  change (~ In k (Dict.keys (Dict.of_list
            (combine (opt_vars model) (repeat 1%Z (List.length (opt_vars model))))))).
  unfold Dict.of_list. rewrite DictFacts.In_keys_update, combine_repeat_fst.
  simpl. intuition auto.
Qed.

Lemma probe_kwargs_cases kw model k :
  Dict.get k (probe_kwargs kw model) = Some 1%Z \/
  Dict.get k (probe_kwargs kw model) = Dict.get k kw.
Proof.
  destruct (has_default model) as [[|]|] eqn:Hd;
    try (right; apply probe_kwargs_other; congruence).
  destruct (in_dec string_dec k (opt_vars model)).
  - left. now apply probe_kwargs_placeholder.
  - right. now apply probe_kwargs_other.
Qed.

Lemma expected_probes_spec wl s models : forall kw0 f x w s' kws,
  In (Call f x w s' kws) (expected_probes wl s kw0 models) ->
  (x = np_ones 1 (List.length wl) /\ w = wl /\ s' = s /\ In f models) /\
  (has_default f = Some false ->
   forall k, In k (opt_vars f) -> Dict.get k kws = Some 1%Z) /\
  (forall k, Dict.get k kws = Some 1%Z \/ Dict.get k kws = Dict.get k kw0) /\
  (forall k,
     (forall m, In m models -> has_default m = Some false -> ~ In k (opt_vars m)) ->
     Dict.get k kws = Dict.get k kw0).
Proof.
  induction models as [|m r IH]; intros kw0 f x w s' kws Hin.
  - destruct Hin.
  - cbn [expected_probes] in Hin. destruct Hin as [Heq|Hin].
    + inversion Heq; subst. repeat split; simpl; auto.
      * intros Hd k Hk. now apply probe_kwargs_placeholder.
      * intros k. apply probe_kwargs_cases.
      * intros k Hk. apply probe_kwargs_other. intros Hd. apply Hk; simpl; auto.
    + apply IH in Hin. destruct Hin as ((-> & -> & -> & Hf) & H1 & H2 & H3).
      repeat split; simpl; auto.
      * intros k. destruct (H2 k) as [E|E]; auto. rewrite E. apply probe_kwargs_cases.
      * intros k Hk. rewrite H3.
        -- apply probe_kwargs_other. intros Hd. apply Hk; simpl; auto.
        -- intros m' Hm'. apply Hk. simpl; auto.
Qed.

(** *** The fate of each candidate *)

Ltac step_cases allow_opt model debug :=
  unfold discover_step;
  destruct (eligible allow_opt model) eqn:?He;
  [ match goal with
    | |- context [call model ?x ?w ?s ?kw] =>
        destruct (call model x w s kw) as [[?a|]|?e] eqn:?Hc;
        [ | | destruct debug eqn:?Hd ]
    end
  | destruct (has_default model) as [?hd|] eqn:?Hh; [destruct debug eqn:?Hd|] ];
  cbn [fst snd methods kwargs app].

Lemma discover_methods_mono wl s debug allow_opt cs : forall st k,
  Dict.mem k (methods st) = true ->
  Dict.mem k (methods (snd (discover wl s debug allow_opt cs ([], st)))) = true.
Proof.
  induction cs as [|[name model] r IH]; intros st k Hk.
  - exact Hk.
  - rewrite discover_cons. cbn [snd]. apply IH.
    step_cases allow_opt model debug; auto.
    apply DictFacts.mem_keys. apply DictFacts.In_keys_set. right.
    now apply DictFacts.mem_keys.
Qed.

(** An eligible candidate is probed; a probe that returns a value leaves the
    display name registered, a probe that raises leaves a line in the log
    when [debug] is set. *)
Lemma discover_each wl s debug allow_opt cs : forall st name model,
  In (name, model) cs -> eligible allow_opt model = true ->
  exists kws,
    In (Call model (np_ones 1 (List.length wl)) wl s kws)
       (fst (discover wl s debug allow_opt cs ([], st))) /\
    match call model (np_ones 1 (List.length wl)) wl s kws with
    | Returned (Some _) =>
        Dict.mem (display_name name model)
          (methods (snd (discover wl s debug allow_opt cs ([], st)))) = true
    | Returned None => True
    | Raised e =>
        debug = true ->
        In (Printed (ExceptionFor name e))
           (fst (discover wl s debug allow_opt cs ([], st)))
    end.
Proof.
  induction cs as [|[name0 model0] r IH]; intros st name model Hin Hel.
  - destruct Hin.
  - rewrite discover_cons. cbn [fst snd]. destruct Hin as [Heq|Hin].
    + inversion Heq; subst name0 model0. clear Heq.
      exists (probe_kwargs (kwargs st) model).
      unfold discover_step. rewrite Hel.
      destruct (call model _ wl s _) as [[a|]|e] eqn:Hc; cbn [fst snd].
      * split; [apply in_or_app; left; apply in_or_app; right; simpl; auto|].
        apply discover_methods_mono. cbn [methods].
        apply DictFacts.mem_keys, DictFacts.In_keys_set. auto.
      * split; [apply in_or_app; left; apply in_or_app; right; simpl; auto|auto].
      * split; [apply in_or_app; left; simpl; auto|].
        intros ->. apply in_or_app; left. simpl; auto.
    + destruct (IH (snd (discover_step wl s debug allow_opt ([], st) (name0, model0)))
                  name model Hin Hel) as (kws & H1 & H2).
      exists kws. split; [apply in_or_app; right; exact H1|].
      destruct (call model _ wl s kws) as [[a|]|e]; auto.
      intros Hd. apply in_or_app; right; auto.
Qed.

(** Where a registry entry comes from. *)
Lemma discover_origin wl s debug allow_opt cs : forall st k p,
  In (k, p) (methods (snd (discover wl s debug allow_opt cs ([], st)))) ->
  In (k, p) (methods st) \/
  (__name__ p = k /\ keywords_sensor p = s /\ eligible allow_opt (func p) = true /\
   exists name kws out,
     In (name, func p) cs /\ k = display_name name (func p) /\
     In (Call (func p) (np_ones 1 (List.length wl)) wl s kws)
        (fst (discover wl s debug allow_opt cs ([], st))) /\
     call (func p) (np_ones 1 (List.length wl)) wl s kws = Returned (Some out)).
Proof.
  induction cs as [|[name0 model0] r IH]; intros st k p Hin.
  - left. exact Hin.
  - rewrite discover_cons in Hin |- *. cbn [fst snd] in Hin |- *.
    apply IH in Hin. destruct Hin as [Hin|Hin].
    + revert Hin. step_cases allow_opt model0 debug; auto.
      intros Hin. apply DictFacts.In_set in Hin. destruct Hin as [[-> ->]|Hin]; auto.
      right. cbn [__name__ keywords_sensor func]. repeat split; auto.
      exists name0, (probe_kwargs (kwargs st) model0), a.
      repeat split; simpl; auto.
    + right. destruct Hin as (H1 & H2 & H3 & name & kws & out & H4 & H5 & H6 & H7).
      repeat split; auto. exists name, kws, out. repeat split; simpl; auto.
      apply in_or_app. right. exact H6.
Qed.

Lemma discover_NoDup wl s debug allow_opt cs : forall st,
  NoDup (Dict.keys (methods st)) ->
  NoDup (Dict.keys (methods (snd (discover wl s debug allow_opt cs ([], st))))).
Proof.
  induction cs as [|[name model] r IH]; intros st H.
  - exact H.
  - rewrite discover_cons. cbn [snd]. apply IH.
    step_cases allow_opt model debug; auto.
    now apply DictFacts.NoDup_keys_set.
Qed.

(** What a pass prints. *)
Lemma discover_quiet wl s allow_opt cs : forall st,
  printed (fst (discover wl s false allow_opt cs ([], st))) = [].
Proof.
  induction cs as [|[name model] r IH]; intros st.
  - reflexivity.
  - rewrite discover_cons. cbn [fst]. rewrite printed_app, IH, app_nil_r.
    unfold discover_step. destruct (eligible allow_opt model).
    + destruct (call model _ wl s _) as [[a|]|e]; reflexivity.
    + destruct (has_default model); reflexivity.
Qed.

Lemma discover_requires_opt wl s cs : forall st name model,
  In (name, model) cs -> has_default model = Some false ->
  In (Printed (RequiresOptimization name))
     (fst (discover wl s true false cs ([], st))).
Proof.
  induction cs as [|[name0 model0] r IH]; intros st name model Hin Hd.
  - destruct Hin.
  - rewrite discover_cons. cbn [fst]. apply in_or_app. destruct Hin as [Heq|Hin].
    + left. inversion Heq; subst. unfold discover_step, eligible. rewrite Hd.
      simpl. auto.
    + right. eapply IH; eauto.
Qed.


(* ================================================================= *)
(** ** Properties of discovery *)

Lemma calls_call_events t : calls (call_events t) = calls t.
Proof.
  induction t as [|ev t IH]; [reflexivity|].
  destruct ev; unfold calls, call_events in *; simpl; now rewrite ?IH.
Qed.

Lemma calls_expected_probes wl s models : forall kw,
  calls (expected_probes wl s kw models) = models.
Proof.
  induction models as [|m r IH]; intros kw; [reflexivity|].
  cbn [expected_probes]. unfold calls in *. simpl. now rewrite IH.
Qed.



Lemma eligible_no_opt model :
  eligible false model = true -> has_default model = Some true.
Proof.
  unfold eligible. destruct (has_default model) as [[|]|]; simpl; congruence.
Qed.

Lemma discover_calls wl s debug allow_opt cs st f x w s' kws :
  In (Call f x w s' kws) (fst (discover wl s debug allow_opt cs ([], st))) ->
  In (Call f x w s' kws)
     (expected_probes wl s (kwargs st) (filter (eligible allow_opt) (map snd cs))).
Proof.
  intros H. rewrite <- (discover_probes wl s debug allow_opt cs st).
  apply In_call_events. split; eauto 10.
Qed.







(** C5: a probe that raises never makes discovery raise.  Whatever the
    probes do, discovery returns a registry; every candidate that passes the
    gate, in whichever plugin unit, is evaluated; a candidate whose probe
    raises is logged with the folder name and the error when [debug] is set
    and not otherwise; a registered callable is always one whose probe
    returned a value; and a candidate whose probe returns a value has its
    display name in the registry whatever the other probes did. *)
Theorem probe_fault_containment B wl sensor product debug allow_opt kw :
  let s := split_head "-" sensor in
  let x := np_ones 1 (List.length wl) in
  let run := get_methods B wl sensor product debug allow_opt kw in
  exists reg,
    outcome run = Returned reg /\
    calls (events_of run) =
      filter (eligible allow_opt) (map snd (candidates (B product))) /\
    (forall name model,
       In (name, model) (candidates (B product)) ->
       eligible allow_opt model = true ->
       exists kws,
         In (Call model x wl s kws) (events_of run) /\
         match call model x wl s kws with
         | Returned (Some _) => Dict.mem (display_name name model) reg = true
         | Returned None => True
         | Raised e => debug = true -> In (Printed (ExceptionFor name e)) (events_of run)
         end) /\
    (forall k p,
       In (k, p) reg ->
       exists kws out,
         In (Call (func p) x wl s kws) (events_of run) /\
         call (func p) x wl s kws = Returned (Some out)) /\
    (debug = false -> printed (events_of run) = []).
Proof.
  intros s x run. unfold run.
  rewrite events_get_methods, outcome_get_methods. fold s.
  eexists. split; [reflexivity|]. repeat split.
  - rewrite <- calls_call_events, discover_probes. apply calls_expected_probes.
  - intros name model Hin Hel. now apply discover_each.
  - intros k p Hin. apply discover_origin in Hin.
    destruct Hin as [[]|(_ & _ & _ & name & kws & out & _ & _ & H6 & H7)].
    eauto.
  - intros ->. apply discover_quiet.
Qed.




(** C4, as the code has it: with optimization disabled, no entry point whose
    [has_default] is false is probed and none is registered: every callable
    invoked and every callable in the returned registry has a true
    [has_default]; so the display name of such an entry point is a key of the
    registry only when a candidate with defaults is registered under the same
    display name.  When [debug] is set, a line saying that the folder
    requires optimization is printed for it. *)
Theorem no_default_not_registered B wl sensor product debug kw :
  let run := get_methods B wl sensor product debug false kw in
  (forall f x w s kws,
     In (Call f x w s kws) (events_of run) -> has_default f = Some true) /\
  (forall reg k p,
     outcome run = Returned reg -> In (k, p) reg -> has_default (func p) = Some true) /\
  (forall reg name model,
     outcome run = Returned reg ->
     In (name, model) (candidates (B product)) ->
     has_default model = Some false ->
     (forall name' model',
        In (name', model') (candidates (B product)) ->
        has_default model' = Some true ->
        display_name name' model' <> display_name name model) ->
     Dict.mem (display_name name model) reg = false) /\
  (debug = true ->
   forall name model,
     In (name, model) (candidates (B product)) ->
     has_default model = Some false ->
     In (Printed (RequiresOptimization name)) (events_of run)).
Proof.
  intros run. unfold run. rewrite events_get_methods, outcome_get_methods.
  repeat split.
  - intros f x w s kws Hin. apply discover_calls in Hin.
    apply expected_probes_spec in Hin. destruct Hin as ((_ & _ & _ & Hf) & _).
    apply filter_In in Hf. now apply eligible_no_opt.
  - intros reg k p Heq Hin. inversion Heq; subst reg; clear Heq.
    apply discover_origin in Hin. destruct Hin as [[]|(_ & _ & He & _)].
    now apply eligible_no_opt.
  - intros reg name model Heq Hc Hd Hother. inversion Heq; subst reg; clear Heq.
    unfold Dict.mem.
    destruct (Dict.get _ _) as [p|] eqn:Hg; [|reflexivity].
    apply DictFacts.get_In, discover_origin in Hg.
    destruct Hg as [[]|(_ & _ & He & name' & kws & out & H4 & H5 & _)].
    exfalso. apply (Hother name' (func p)); auto using eligible_no_opt.
  - intros -> name model Hin Hd. eapply discover_requires_opt; eauto.
Qed.

(** C4 as stated fails: a folder exposes [model], which has defaults and
    whose probe succeeds, and [model_opt], whose [has_default] is false.
    Neither declares [model_name], so both have the folder name as display
    name, and with optimization disabled the registry holds that name. *)
Lemma shared_display_name_is_registered :
  In ("OC", Fixtures.tuned) (candidates (Fixtures.layout_shared "chl")) /\
  has_default Fixtures.tuned = Some false /\
  exists reg,
    outcome (get_methods Fixtures.layout_shared Fixtures.oli "OLI" "chl" true false
               Fixtures.tol15) = Returned reg /\
    Dict.mem (display_name "OC" Fixtures.tuned) reg = true.
Proof.
  split; [right; left; reflexivity|]. split; [reflexivity|].
  eexists. split; reflexivity.
Qed.

(* ================================================================= *)
(** ** Arrays, views and in-place post-processing *)

Lemma ndarray_eq (a b : ndarray) : ncols a = ncols b -> rows a = rows b -> a = b.
Proof. destruct a, b. cbn. now intros -> ->. Qed.

Lemma clamp_rows a : rows (clamp a) = map (map clamp_element) (rows a).
Proof.
  unfold clamp, mask_zero. cbn [rows]. rewrite map_map.
  apply map_ext. intros r. rewrite map_map. reflexivity.
Qed.

Lemma clamp_element_physical e : physical (clamp_element e) = true.
Proof.
  unfold clamp_element, physical.
  destruct (is_finite e) eqn:Hf; cbn [negb].
  - destruct (e <? 0)%float eqn:Hn.
    + reflexivity.
    + now rewrite Hf, Hn.
  - reflexivity.
Qed.

Lemma clamp_element_spec e :
  clamp_element e = if physical e then e else 0%float.
Proof.
  unfold clamp_element, physical.
  destruct (is_finite e) eqn:Hf; cbn [negb andb].
  - destruct (e <? 0)%float; reflexivity.
  - reflexivity.
Qed.

Lemma clamp_element_idempotent e : clamp_element (clamp_element e) = clamp_element e.
Proof.
  rewrite (clamp_element_spec (clamp_element e)).
  now rewrite clamp_element_physical.
Qed.

Lemma clamp_element_fixes e : physical e = true -> clamp_element e = e.
Proof. intros H. rewrite clamp_element_spec. now rewrite H. Qed.



Lemma length_imap {A C} (f : nat -> A -> C) (l : list A) : forall i,
  List.length (imap f i l) = List.length l.
Proof. induction l as [|a r IH]; intros i; cbn; [reflexivity | now rewrite IH]. Qed.

Lemma nth_imap {A C} (f : nat -> A -> C) (l : list A) (d : C) (d' : A) : forall i k,
  nth k (imap f i l) d = if Nat.ltb k (List.length l) then f (i + k) (nth k l d') else d.
Proof.
  induction l as [|a r IH]; intros i k.
  - destruct k; reflexivity.
  - destruct k as [|k]; cbn [imap nth List.length].
    + now rewrite Nat.add_0_r.
    + rewrite IH. change (Nat.ltb (S k) (S (List.length r))) with (Nat.ltb k (List.length r)).
      now rewrite Nat.add_succ_r.
Qed.

(** An in-place assignment through a view, element by element. *)
Lemma elem_mask_zero_view mask src x r c :
  elem (mask_zero_view mask src x) r c =
  if touched src r c && mask (elem x r c) then 0%float else elem x r c.
Proof.
  unfold elem, mask_zero_view. cbn [rows].
  rewrite (nth_imap _ (rows x) [] []). cbn [Nat.add].
  destruct (Nat.ltb r (List.length (rows x))) eqn:Hr.
  - rewrite (nth_imap _ (nth r (rows x) []) 0%float 0%float). cbn [Nat.add].
    destruct (Nat.ltb c (List.length (nth r (rows x) []))) eqn:Hc; [reflexivity|].
    apply Nat.ltb_ge in Hc. rewrite (nth_overflow _ _ Hc).
    destruct (touched src r c && mask 0%float); reflexivity.
  - apply Nat.ltb_ge in Hr. rewrite (nth_overflow (rows x) [] Hr).
    destruct c; cbn; destruct (touched src r _ && mask 0%float); reflexivity.
Qed.

Lemma shape_mask_zero_view mask src x :
  ncols (mask_zero_view mask src x) = ncols x /\
  map (@List.length float) (rows (mask_zero_view mask src x)) =
  map (@List.length float) (rows x).
Proof.
  split; [reflexivity|]. unfold mask_zero_view. cbn [rows].
  generalize 0 at 2. induction (rows x) as [|row rs IH]; intros i; [reflexivity|].
  cbn [imap map]. now rewrite length_imap, IH.
Qed.

(** Lines 74-75 through a view: an element of the test data that the view
    shows is clamped, every other element is left as it is. *)
Lemma elem_clamp_view x cols src r c :
  elem (fst (clamp_in_place x (View cols src))) r c =
  if touched src r c then clamp_element (elem x r c) else elem x r c.
Proof.
  cbn [clamp_in_place fst]. rewrite !elem_mask_zero_view.
  unfold clamp_element. destruct (touched src r c); cbn [andb]; [|reflexivity].
  destruct (negb (is_finite (elem x r c))); reflexivity.
Qed.

Lemma touched_in src row p :
  In row src -> In p row -> touched src (fst p) (snd p) = true.
Proof.
  intros Hrow Hp. unfold touched. apply existsb_exists. exists row. split; [exact Hrow|].
  apply existsb_exists. exists p. split; [exact Hp|]. now rewrite !Nat.eqb_refl.
Qed.

(** Reading a view after the in-place assignments gives the clamped
    values of what it showed before. *)
Lemma value_of_clamped x cols src :
  value_of (fst (clamp_in_place x (View cols src))) (View cols src) =
  clamp (value_of x (View cols src)).
Proof.
  apply ndarray_eq; [reflexivity|].
  rewrite clamp_rows. cbn [value_of rows]. rewrite map_map.
  apply map_ext_in. intros row Hrow. rewrite map_map.
  apply map_ext_in. intros p Hp.
  rewrite elem_clamp_view. now rewrite (touched_in src row p Hrow Hp).
Qed.

(** *** What in-place post-processing does to the test data *)

Lemma zeroed_refl x : zeroed x x.
Proof. repeat split; auto. Qed.

Lemma zeroed_trans x y z : zeroed x y -> zeroed y z -> zeroed x z.
Proof.
  intros (H1 & H2 & H3) (G1 & G2 & G3). repeat split; try congruence.
  intros r c. destruct (G3 r c) as [E|[E1 E2]].
  - rewrite E. apply H3.
  - destruct (H3 r c) as [E'|[E1' E2']].
    + right. now rewrite <- E'.
    + rewrite E2' in E1. discriminate.
Qed.

Lemma zeroed_clamp_in_place x a : zeroed x (fst (clamp_in_place x a)).
Proof.
  destruct a as [a|cols src]; [apply zeroed_refl|].
  split; [reflexivity|]. split.
  - cbn [clamp_in_place fst].
    rewrite (proj2 (shape_mask_zero_view _ _ _)).
    apply (proj2 (shape_mask_zero_view _ _ _)).
  - intros r c. rewrite elem_clamp_view.
    destruct (touched src r c); [|now left].
    rewrite clamp_element_spec. destruct (physical (elem x r c)) eqn:E; auto.
Qed.

Lemma zeroed_postprocess product x out : zeroed x (fst (postprocess product x out)).
Proof.
  unfold postprocess. destruct (String.eqb product "chl"); [|apply zeroed_refl].
  destruct out as [a|]; [|apply zeroed_refl].
  pose proof (zeroed_clamp_in_place x a) as H.
  destruct (clamp_in_place x a). exact H.
Qed.

Lemma zeroed_next product waves x p : zeroed x (next product waves x p).
Proof.
  unfold next. destruct (run_partial x waves p); [apply zeroed_postprocess|apply zeroed_refl].
Qed.

Lemma zeroed_finally product waves l : forall x, zeroed x (finally product waves x l).
Proof.
  unfold finally. induction l as [|kp r IH]; intros x; [apply zeroed_refl|].
  cbn [fold_left]. eapply zeroed_trans; [apply zeroed_next | apply IH].
Qed.

(** Every entry finds the test data as the entries before it left them,
    and the test data at the end are what it left, zeroed further. *)
Lemma turns_zeroed product waves l : forall x turn,
  In turn (turns product waves x l) ->
  zeroed x (snd turn) /\
  zeroed (next product waves (snd turn) (snd (fst turn))) (finally product waves x l).
Proof.
  induction l as [|kp r IH]; intros x turn Hin; [destruct Hin|].
  cbn [turns] in Hin. destruct Hin as [<-|Hin].
  - cbn [fst snd]. split; [apply zeroed_refl|].
    change (finally product waves x (kp :: r))
      with (finally product waves (next product waves x (snd kp)) r).
    apply zeroed_finally.
  - apply IH in Hin. destruct Hin as [H1 H2]. split; [|exact H2].
    eapply zeroed_trans; [apply zeroed_next | exact H1].
Qed.

Lemma turns_fst product waves l : forall x,
  map fst (turns product waves x l) = l.
Proof. induction l as [|kp r IH]; intros x; cbn; [reflexivity | now rewrite IH]. Qed.

(** For a product other than chlorophyll nothing is written. *)
Lemma postprocess_other product x out :
  product <> "chl" -> postprocess product x out = (x, out).
Proof.
  intros H. unfold postprocess.
  destruct (String.eqb_spec product "chl"); [contradiction | reflexivity].
Qed.

Lemma next_other product waves x p : product <> "chl" -> next product waves x p = x.
Proof.
  intros H. unfold next. destruct (run_partial x waves p); [|reflexivity].
  now rewrite postprocess_other.
Qed.

Lemma turns_other product waves l x :
  product <> "chl" -> turns product waves x l = map (fun kp => (kp, x)) l.
Proof.
  intros H. induction l as [|kp r IH]; [reflexivity|].
  cbn [turns map]. now rewrite next_other, IH.
Qed.

Lemma finally_other product waves l x :
  product <> "chl" -> finally product waves x l = x.
Proof.
  intros H. unfold finally. induction l as [|kp r IH]; [reflexivity|].
  cbn [fold_left]. now rewrite next_other.
Qed.

(** What the post-processed estimate holds: for chlorophyll the clamped
    values of what the algorithm returned, for any other product what the
    algorithm returned. *)
Lemma est_value_spec product x out :
  est_value product x out =
  if String.eqb product "chl"
  then option_map (fun a => clamp (value_of x a)) out
  else option_map (value_of x) out.
Proof.
  unfold est_value, postprocess. destruct (String.eqb product "chl"); [|reflexivity].
  destruct out as [[a|cols src]|]; cbn [clamp_in_place fst snd option_map value_of];
    try reflexivity.
  f_equal. apply (value_of_clamped x cols src).
Qed.

(** Reading the slot right after post-processing gives that value. *)
Lemma observe_slot product x out :
  observe (fst (postprocess product x out)) (slot (snd (postprocess product x out))) =
  pyval_of (est_value product x out).
Proof.
  unfold est_value, postprocess. destruct (String.eqb product "chl").
  - destruct out as [[a|cols src]|]; reflexivity.
  - destruct out as [[a|cols src]|]; reflexivity.
Qed.


(** A view whose elements are all finite and not below zero reads the same
    after further in-place post-processing. *)
Lemma value_of_stable x x' cols src :
  zeroed x x' ->
  Forall (Forall (fun p => physical (elem x (fst p) (snd p)) = true)) src ->
  value_of x' (View cols src) = value_of x (View cols src).
Proof.
  intros (_ & _ & Hz) Hsrc. apply ndarray_eq; [reflexivity|]. cbn [value_of rows].
  apply map_ext_in. intros row Hrow. apply map_ext_in. intros p Hp.
  rewrite Forall_forall in Hsrc. specialize (Hsrc row Hrow).
  rewrite Forall_forall in Hsrc. specialize (Hsrc p Hp).
  destruct (Hz (fst p) (snd p)) as [E|[E _]]; [exact E | congruence].
Qed.

Lemma clamped_view_physical x cols src :
  Forall (Forall (fun p =>
                    physical (elem (fst (clamp_in_place x (View cols src))) (fst p) (snd p))
                    = true)) src.
Proof.
  apply Forall_forall. intros row Hrow. apply Forall_forall. intros p Hp.
  rewrite elem_clamp_view, (touched_in src row p Hrow Hp).
  apply clamp_element_physical.
Qed.

(** The slot of a chlorophyll estimate reads as the clamped values of what
    the algorithm returned, also after the entries that run later. *)
Lemma observe_later x a x' :
  zeroed (fst (postprocess "chl" x (Some a))) x' ->
  observe x' (slot (snd (postprocess "chl" x (Some a)))) = Arr2 (clamp (value_of x a)).
Proof.
  intros Hz. destruct a as [a|cols src].
  - reflexivity.
  - cbn [postprocess String.eqb Ascii.eqb Bool.eqb clamp_in_place fst snd slot observe] in *.
    f_equal.
    rewrite (value_of_stable cols Hz).
    + apply (value_of_clamped x cols src).
    + apply (clamped_view_physical x cols src).
Qed.

Lemma clamp_physical a : Forall (Forall (fun e => physical e = true)) (rows (clamp a)).
Proof.
  rewrite clamp_rows. apply Forall_forall. intros row Hrow.
  apply in_map_iff in Hrow. destruct Hrow as (row0 & <- & _).
  apply Forall_forall. intros e He.
  apply in_map_iff in He. destruct He as (e0 & <- & _).
  apply clamp_element_physical.
Qed.

(* ================================================================= *)
(** ** The orchestrator *)

Lemma for_each_print (g : nat -> line) (l : list nat) t :
  for_each (fun _ i => print (g i)) l tt t = (t ++ map (fun i => Printed (g i)) l, Returned tt).
Proof.
  revert t. induction l as [|i r IH]; intros t; simpl.
  - now rewrite app_nil_r.
  - unfold bind, print, emit. rewrite IH. now rewrite <- app_assoc.
Qed.


Section Orchestration.

Variable Args : Type.
Variable gsb : string -> Args -> list Z.
Variable perf : string -> list float -> pyval -> string.
Variable B : string -> list plugin.

Lemma uniform_score name product y slices est :
  uniform (score perf name product y slices est).
Proof.
  unfold score. apply uniform_bind.
  - destruct slices; [auto with uniform|].
    destruct y; [destruct est|]; auto with uniform.
  - intros cs. apply uniform_bind; [auto with uniform|].
    intros sl. destruct y; auto with uniform.
Qed.

Lemma uniform_run_method y slices silent product method waves acc item :
  uniform (run_method perf y slices silent product method waves acc item).
Proof.
  unfold run_method. destruct acc as [x [ests lbls]], item as [name p].
  destruct (selected method name); [|auto with uniform].
  apply uniform_bind; [apply uniform_invoke|]. intros out.
  apply uniform_bind.
  - destruct (String.eqb product "chl"); [|auto with uniform].
    destruct out as [a|]; [|auto with uniform].
    destruct (clamp_in_place x a). auto with uniform.
  - intros [x' est]. apply uniform_bind; [|auto with uniform].
    apply uniform_when, uniform_score.
Qed.

Lemma uniform_bench_product args sensor x y slices silent product method :
  uniform (bench_product gsb perf B args sensor x y slices silent product method).
Proof.
  unfold bench_product.
  apply uniform_bind; [auto with uniform|]. intros _.
  apply uniform_bind; [auto with uniform|]. intros _.
  apply uniform_bind; [auto with uniform|]. intros reg.
  apply uniform_bind; [auto with uniform|]. intros _.
  apply uniform_bind.
  - apply uniform_for_each. intros. apply uniform_run_method.
  - intros [x' [ests lbls]]. auto with uniform.
Qed.


(** One iteration of the loop over the registry. *)
Lemma run_method_skip y slices silent product method waves acc name p t :
  selected method name = false ->
  run_method perf y slices silent product method waves acc (name, p) t =
  (t, Returned acc).
Proof. intros H. unfold run_method. destruct acc as [x [ests lbls]]. now rewrite H. Qed.

Lemma run_method_run y slices silent product method waves x ests lbls name p t :
  selected method name = true ->
  run_method perf y slices silent product method waves (x, (ests, lbls)) (name, p) t =
  let t1 := t ++ [Call (func p) x waves (keywords_sensor p) [("tol", 15%Z)]] in
  match run_partial x waves p with
  | Raised e => (t1, Raised e)
  | Returned out =>
      match (if String.eqb product "chl" then
               match out with Some _ => false | None => true end
             else false) with
      | true => (t1, Raised TypeError)
      | false =>
          let r := Returned (fst (postprocess product x out),
                             (ests ++ [slot (snd (postprocess product x out))],
                              lbls ++ [name])) in
          if silent then (t1, r)
          else
            match score perf name product y slices (est_value product x out) t1 with
            | (t2, Returned _) => (t2, r)
            | (t2, Raised e) => (t2, Raised e)
            end
      end
  end.
Proof.
  intros H. unfold run_method, run_partial, est_value, postprocess. rewrite H.
  unfold bind, invoke_partial, invoke. cbn zeta.
  destruct (call (func p) x waves (keywords_sensor p) _) as [out|e]; [|reflexivity].
  destruct (String.eqb product "chl").
  - destruct out as [a|]; [|reflexivity].
    destruct (clamp_in_place x a) as [x' a']. cbn [ret fst snd].
    destruct silent; cbn [negb when ret]; [reflexivity|].
    destruct (score _ _ _ _ _ _ _) as [t2 [[]|e]]; reflexivity.
  - cbn [ret fst snd]. destruct silent; cbn [negb when ret]; [reflexivity|].
    destruct (score _ _ _ _ _ _ _) as [t2 [[]|e]]; reflexivity.
Qed.

(** *** The loop over the registry *)

Lemma selection_cons method k p reg :
  selection method ((k, p) :: reg) =
  if selected method k then (k, p) :: selection method reg else selection method reg.
Proof. reflexivity. Qed.

Lemma completes_guard y slices silent product waves kp x out :
  completes perf y slices silent product waves (kp, x) ->
  run_partial x waves (snd kp) = Returned out ->
  (if String.eqb product "chl" then match out with Some _ => false | None => true end
   else false) = false.
Proof.
  intros (out' & Hc & Hchl & _) Hout. cbn [fst snd] in Hc.
  rewrite Hc in Hout. inversion Hout; subst out'.
  destruct (String.eqb_spec product "chl") as [E|]; [|reflexivity].
  destruct out; [reflexivity|]. now destruct (Hchl E).
Qed.

(** When the turn of every selected entry completes, the loop returns: it
    has invoked exactly the selected entries, each on the test data as the
    entries before it left them, and stored one estimate per entry. *)
Lemma loop_returns y slices silent product method waves : forall reg x acc t,
  (forall turn, In turn (turns product waves x (selection method reg)) ->
                completes perf y slices silent product waves turn) ->
  for_each (run_method perf y slices silent product method waves) reg (x, acc) t =
  (t ++ flat_map (run_events perf y slices silent product waves)
                 (turns product waves x (selection method reg)),
   Returned (finally product waves x (selection method reg),
             (fst acc ++ map (fun turn => estimate product (snd turn) waves (snd (fst turn)))
                             (turns product waves x (selection method reg)),
              snd acc ++ map fst (selection method reg)))).
Proof.
  induction reg as [|[k p] r IH]; intros x [ests lbls] t Hall.
  - cbn. now rewrite !app_nil_r.
  - cbn [for_each]. unfold bind. rewrite selection_cons in *.
    destruct (selected method k) eqn:Hs.
    + cbn [turns snd] in Hall |- *.
      pose proof (Hall _ (or_introl eq_refl)) as Hhead.
      destruct Hhead as (out & Hc & Hchl & Hscore). cbn [fst snd] in Hc, Hscore.
      rewrite run_method_run by exact Hs. cbn zeta.
      unfold finally. cbn [fold_left map flat_map fst snd].
      fold (finally product waves (next product waves x p) (selection method r)).
      unfold run_events at 1, estimate at 1. rewrite Hc.
      rewrite (completes_guard (kp := (k, p)) (Hall _ (or_introl eq_refl)) Hc).
      assert (Hnext : next product waves x p = fst (postprocess product x out)).
      { unfold next. now rewrite Hc. }
      rewrite <- Hnext.
      destruct silent.
      * rewrite IH by (intros; apply Hall; right; assumption).
        cbn [fst snd]. now rewrite <- !app_assoc.
      * rewrite (uniform_score k product y slices (est_value product x out)).
        rewrite (Hscore eq_refl).
        rewrite IH by (intros; apply Hall; right; assumption).
        cbn [fst snd]. now rewrite <- !app_assoc.
    + rewrite run_method_skip by exact Hs. apply IH. exact Hall.
Qed.

(** When the loop returns, the turn of every selected entry completed. *)
Lemma loop_returned y slices silent product method waves : forall reg x acc t t' acc',
  for_each (run_method perf y slices silent product method waves) reg (x, acc) t
  = (t', Returned acc') ->
  forall turn, In turn (turns product waves x (selection method reg)) ->
               completes perf y slices silent product waves turn.
Proof.
  induction reg as [|[k p] r IH]; intros x [ests lbls] t t' acc' H turn Hin.
  - destruct Hin.
  - cbn [for_each] in H. unfold bind in H. rewrite selection_cons in Hin.
    destruct (selected method k) eqn:Hs.
    + rewrite run_method_run in H by exact Hs. cbn zeta in H.
      cbn [turns snd] in Hin. unfold next in Hin.
      destruct (run_partial x waves p) as [out|e] eqn:Hc; [|discriminate].
      destruct (if String.eqb product "chl" then _ else false) eqn:Hg; [discriminate|].
      assert (Hchl : product = "chl" -> out <> None).
      { intros -> ->. cbn in Hg. discriminate. }
      destruct Hin as [<-|Hin].
      * exists out. cbn [fst snd]. repeat split; auto.
        intros ->. unfold outcome.
        rewrite (uniform_score k product y slices (est_value product x out)) in H.
        destruct (outcome (score perf k product y slices (est_value product x out)))
          as [[]|e] eqn:Ho; [|discriminate].
        exact Ho.
      * destruct silent.
        -- eapply IH; eassumption.
        -- destruct (score _ _ _ _ _ _ _) as [t2 [[]|e]]; [|discriminate].
           eapply IH; eassumption.
    + rewrite run_method_skip in H by exact Hs. eapply IH; eassumption.
Qed.

Lemma NoDup_selection method (reg : Dict.t partial) :
  NoDup (Dict.keys reg) -> NoDup (map fst (selection method reg)).
Proof.
  unfold Dict.keys. induction reg as [|[k p] r IH]; intros H.
  - constructor.
  - inversion H; subst. rewrite selection_cons.
    destruct (selected method k); auto. cbn. constructor; auto.
    intros Hin. apply H2. apply in_map_iff in Hin.
    destruct Hin as ([k' p'] & <- & Hin). apply filter_In in Hin.
    apply in_map_iff. exists (k', p'). tauto.
Qed.

Lemma selection_single m (reg : Dict.t partial) p :
  NoDup (Dict.keys reg) -> Dict.get m reg = Some p ->
  selection (Some m) reg = [(m, p)].
Proof.
  unfold Dict.keys. induction reg as [|[k q] r IH]; intros Hnd Hg.
  - discriminate.
  - inversion Hnd; subst. rewrite selection_cons. cbn [selected].
    cbn [Dict.get] in Hg. rewrite String.eqb_sym in Hg.
    destruct (String.eqb_spec k m) as [->|Hne].
    + inversion Hg; subst. f_equal.
      apply (proj2 (DictFacts.get_None m r)) in H1.
      clear - H1. induction r as [|[k' q'] r IH]; [reflexivity|].
      rewrite selection_cons. cbn [selected Dict.get] in *.
      rewrite String.eqb_sym.
      destruct (String.eqb m k'); [discriminate | auto].
    + auto.
Qed.

Lemma selection_all (reg : Dict.t partial) : selection None reg = reg.
Proof.
  unfold selection, selected. induction reg as [|kp r IH]; [reflexivity|].
  cbn [filter]. f_equal. exact IH.
Qed.

Lemma selection_In method (reg : Dict.t partial) k p :
  In (k, p) (selection method reg) -> In (k, p) reg.
Proof. unfold selection. intros H. apply filter_In in H. tauto. Qed.

Lemma combine_map_map {A X Y} (f : A -> X) (g : A -> Y) (l : list A) :
  combine (map f l) (map g l) = map (fun a => (f a, g a)) l.
Proof. induction l; simpl; congruence. Qed.

(** The mapping built from the loop's two lists. *)
Lemma zip_estimates product x waves method (reg : Dict.t partial) :
  NoDup (Dict.keys reg) ->
  Dict.of_list (combine (map fst (selection method reg))
                        (map (fun turn => estimate product (snd turn) waves (snd (fst turn)))
                             (turns product waves x (selection method reg))))
  = expected_estimates product x waves method reg.
Proof.
  intros H.
  rewrite <- (turns_fst product waves (selection method reg) x) at 1.
  rewrite map_map, combine_map_map. unfold expected_estimates.
  apply DictFacts.of_list_NoDup.
  rewrite map_map. cbn [fst].
  rewrite <- (map_map fst fst), turns_fst. now apply NoDup_selection.
Qed.

(** *** [bench_product] *)

Lemma get_methods_registry waves sensor product t :
  get_methods B waves sensor product true false [("tol", 15%Z)] t =
  (t ++ events_of (get_methods B waves sensor product true false [("tol", 15%Z)]),
   Returned (registry_of B waves sensor product)).
Proof.
  rewrite (uniform_get_methods B waves sensor product true false [("tol", 15%Z)] t).
  unfold registry_of. now rewrite outcome_get_methods.
Qed.

Lemma registry_of_outcome waves sensor product reg :
  outcome (get_methods B waves sensor product true false [("tol", 15%Z)]) = Returned reg ->
  reg = registry_of B waves sensor product.
Proof. unfold registry_of. now intros ->. Qed.

Lemma registry_NoDup waves sensor product :
  NoDup (Dict.keys (registry_of B waves sensor product)).
Proof.
  unfold registry_of. rewrite outcome_get_methods.
  apply discover_NoDup. constructor.
Qed.

Lemma registry_sensor waves sensor product k p :
  In (k, p) (registry_of B waves sensor product) ->
  keywords_sensor p = split_head "-" sensor.
Proof.
  unfold registry_of. rewrite outcome_get_methods. intros H.
  apply discover_origin in H. destruct H as [[]|(_ & H & _)]. exact H.
Qed.

(** The control flow of [bench_product], check by check. *)
Lemma bench_product_run args sensor x y slices silent product method t :
  let waves := gsb sensor args in
  let reg := registry_of B waves sensor product in
  let d := events_of (get_methods B waves sensor product true false [("tol", 15%Z)]) in
  bench_product gsb perf B args sensor x y slices silent product method t =
  if negb (silent || given y) then (t, Raised (AssertionError MustProvideY))
  else if negb (Nat.leb (ncols x) (List.length waves)) then
    (t, Raised (AssertionError (TooManyFeatures sensor (ncols x) (List.length waves))))
  else if negb (match method with Some m => Dict.mem m reg | None => true end) then
    (t ++ d,
     Raised (AssertionError
               (UnknownAlgorithm (match method with Some m => m | None => EmptyString end)
                  (Dict.keys reg))))
  else
    match for_each (run_method perf y slices silent product method waves)
            reg (x, ([], [])) (t ++ d) with
    | (t', Returned (x', (ests, lbls))) =>
        (t', Returned (x', Dict.of_list (combine lbls ests)))
    | (t', Raised e) => (t', Raised e)
    end.
Proof.
  intros waves reg d. unfold bench_product, given. fold waves.
  unfold bind at 1.
  destruct (silent || match y with Some _ => true | None => false end);
    cbn [negb assert ret raise]; [|reflexivity].
  unfold bind at 1.
  destruct (Nat.leb (ncols x) (List.length waves));
    cbn [negb assert ret raise]; [|reflexivity].
  unfold bind at 1. rewrite get_methods_registry. fold reg d.
  unfold bind at 1.
  destruct (match method with Some m => Dict.mem m reg | None => true end) eqn:Hm.
  - cbn [negb assert ret]. unfold bind.
    destruct (for_each _ reg _ (t ++ d)) as [t' [[x' [ests lbls]]|e]]; reflexivity.
  - reflexivity.
Qed.

(** [bench_product] when the turn of every selected entry completes. *)
Lemma bench_product_returns args sensor x y slices silent product method t :
  let waves := gsb sensor args in
  let reg := registry_of B waves sensor product in
  let d := events_of (get_methods B waves sensor product true false [("tol", 15%Z)]) in
  silent || given y = true ->
  ncols x <= List.length waves ->
  match method with Some m => Dict.mem m reg = true | None => True end ->
  (forall turn, In turn (turns product waves x (selection method reg)) ->
                completes perf y slices silent product waves turn) ->
  bench_product gsb perf B args sensor x y slices silent product method t =
  (t ++ d ++ flat_map (run_events perf y slices silent product waves)
                      (turns product waves x (selection method reg)),
   Returned (finally product waves x (selection method reg),
             expected_estimates product x waves method reg)).
Proof.
  intros waves reg d Hy Hn Hm Hall.
  rewrite bench_product_run. cbn zeta. fold waves reg d.
  apply Nat.leb_le in Hn. rewrite Hy, Hn. cbn [negb].
  replace (match method with Some m => Dict.mem m reg | None => true end) with true
    by (destruct method; auto).
  cbn [negb]. rewrite loop_returns by exact Hall. cbn [fst snd app].
  rewrite zip_estimates by apply registry_NoDup. now rewrite <- app_assoc.
Qed.

(** C6, as the code has it: with more feature columns than the sensor has
    wavelengths, [bench_product] raises before discovery starts, so before
    any probe and any registered algorithm runs: the trace is untouched.
    The error is the band-count mismatch, naming the sensor and both
    counts, whenever ground truth is given or [silent] is set; otherwise
    the assertion of line 59 fires first. *)
Theorem band_count_checked_before_discovery
    args sensor x y slices silent product method t :
  List.length (gsb sensor args) < ncols x ->
  bench_product gsb perf B args sensor x y slices silent product method t =
  (t, Raised (AssertionError
                (if silent || given y
                 then TooManyFeatures sensor (ncols x) (List.length (gsb sensor args))
                 else MustProvideY))).
Proof.
  intros H. rewrite bench_product_run. cbn zeta.
  destruct (silent || given y); cbn [negb]; [|reflexivity].
  apply Nat.leb_gt in H. now rewrite H.
Qed.

(** C7, as the code has it, for a call that passes the checks of lines 59
    and 62.  A method name that is not a key of the registry makes the
    orchestrator raise right after discovery, before any registered
    callable is invoked on the test data, with an error that lists the
    registry keys.  For a name that is a key, only that entry is invoked;
    if that invocation returns (a value that is not [None] for the
    chlorophyll product) and scoring, when enabled, completes, the result
    has exactly one entry, keyed by that name.  That entry reads as what
    the callable returned, clamped for the chlorophyll product; when what
    it returned is a view of the test data, the clamping is done in the
    test data. *)
Theorem method_selection args sensor x y slices silent product m :
  let waves := gsb sensor args in
  let discovery := get_methods B waves sensor product true false [("tol", 15%Z)] in
  silent || given y = true ->
  ncols x <= List.length waves ->
  forall reg, outcome discovery = Returned reg ->
  (Dict.mem m reg = false ->
   forall t,
     bench_product gsb perf B args sensor x y slices silent product (Some m) t =
     (t ++ events_of discovery,
      Raised (AssertionError (UnknownAlgorithm m (Dict.keys reg))))) /\
  (forall p out,
     Dict.get m reg = Some p ->
     run_partial x waves p = Returned out ->
     (product = "chl" -> out <> None) ->
     (silent = false ->
      outcome (score perf m product y slices (est_value product x out)) = Returned tt) ->
     (forall t,
        bench_product gsb perf B args sensor x y slices silent product (Some m) t =
        (t ++ events_of discovery
           ++ run_events perf y slices silent product waves (m, p, x),
         Returned (fst (postprocess product x out),
                   [(m, slot (snd (postprocess product x out)))]))) /\
     observe (fst (postprocess product x out)) (slot (snd (postprocess product x out)))
     = pyval_of (est_value product x out) /\
     est_value product x out =
       (if String.eqb product "chl"
        then option_map (fun a => clamp (value_of x a)) out
        else option_map (value_of x) out)).
Proof.
  intros waves discovery Hy Hn reg Hreg.
  apply registry_of_outcome in Hreg. subst reg. split.
  - intros Hm t. rewrite bench_product_run. cbn zeta. fold waves.
    apply Nat.leb_le in Hn. now rewrite Hy, Hn, Hm.
  - intros p out Hg Hc Hchl Hs.
    split; [|split; [apply observe_slot | apply est_value_spec]].
    intros t.
    assert (Hsel : selection (Some m) (registry_of B waves sensor product) = [(m, p)]).
    { apply selection_single; [apply registry_NoDup | exact Hg]. }
    rewrite bench_product_returns; auto.
    + unfold expected_estimates. fold waves. rewrite Hsel.
      cbn [turns flat_map map fst snd]. unfold finally. cbn [fold_left snd].
      unfold next, estimate. rewrite Hc. now rewrite app_nil_r.
    + unfold Dict.mem. fold waves. now rewrite Hg.
    + fold waves. rewrite Hsel. intros turn [<-|[]].
      exists out. cbn [fst snd]. auto.
Qed.

(** *** Events of scoring, of the loop and of the orchestrator *)

Lemma score_events name product y slices est :
  exists ls, events_of (score perf name product y slices est) = map Printed ls.
Proof.
  unfold events_of, score, bind, assert, getitem.
  destruct slices as [s|]; cbn [ret].
  - destruct (Dict.get product s) as [sl|]; cbn [ret raise fst].
    + destruct y as [y|]; cbn [raise fst]; [|now exists []].
      rewrite for_each_print. cbn [fst app]. rewrite <- map_map. eauto.
    + now exists [].
  - destruct y as [y|]; [destruct est as [est|]|]; cbn [raise fst];
      try (now exists []).
    destruct (Nat.eqb (ncols y) (ncols est)); cbn [ret raise fst]; [|now exists []].
    cbn [Dict.get]. rewrite String.eqb_refl. cbn [ret].
    rewrite for_each_print. cbn [fst app]. rewrite <- map_map. eauto.
Qed.

Lemma loop_events (P : event -> Prop) y slices silent product method waves :
  (forall l, P (Printed l)) ->
  forall reg,
    (forall k p x', In (k, p) reg ->
                    P (Call (func p) x' waves (keywords_sensor p) [("tol", 15%Z)])) ->
    forall x acc t,
      Forall P t ->
      Forall P (fst (for_each (run_method perf y slices silent product method waves)
                       reg (x, acc) t)).
Proof.
  intros Hp. induction reg as [|[k p] r IH]; intros Hc x [ests lbls] t Ht.
  - exact Ht.
  - cbn [for_each]. unfold bind.
    assert (Ht1 : Forall P (t ++ [Call (func p) x waves (keywords_sensor p) [("tol", 15%Z)]])).
    { apply Forall_app. split; auto. constructor; auto. apply (Hc k p). now left. }
    assert (Hr : forall k' p' x', In (k', p') r ->
               P (Call (func p') x' waves (keywords_sensor p') [("tol", 15%Z)])).
    { intros k' p' x' Hin. apply (Hc k' p'). now right. }
    destruct (selected method k) eqn:Hs.
    + rewrite run_method_run by exact Hs. cbn zeta.
      destruct (run_partial x waves p) as [out|e]; [|exact Ht1].
      destruct (if String.eqb product "chl" then _ else false); [exact Ht1|].
      destruct silent; [now apply IH|].
      rewrite (uniform_score k product y slices (est_value product x out)).
      destruct (score_events k product y slices (est_value product x out)) as (ls & ->).
      assert (Ht2 : Forall P ((t ++ [Call (func p) x waves (keywords_sensor p)
                                       [("tol", 15%Z)]]) ++ map Printed ls)).
      { apply Forall_app. split; auto. apply Forall_forall.
        intros ev Hev. apply in_map_iff in Hev. destruct Hev as (l & <- & _). auto. }
      destruct (outcome _) as [[]|e]; [now apply IH | exact Ht2].
    + rewrite run_method_skip by exact Hs. now apply IH.
Qed.

Lemma discover_events_shape wl s debug allow_opt cs : forall st ev,
  In ev (fst (discover wl s debug allow_opt cs ([], st))) ->
  (exists l, ev = Printed l) \/
  (exists f kws, ev = Call f (np_ones 1 (List.length wl)) wl s kws).
Proof.
  induction cs as [|[name model] r IH]; intros st ev Hin.
  - destruct Hin.
  - rewrite discover_cons in Hin. cbn [fst] in Hin.
    apply in_app_or in Hin. destruct Hin as [Hin|Hin]; [|eauto].
    revert Hin. step_cases allow_opt model debug; cbn [In];
      intuition (subst; eauto).
Qed.

Lemma bench_product_events (P : event -> Prop)
    args sensor x y slices silent product method :
  let waves := gsb sensor args in
  let s := split_head "-" sensor in
  (forall l, P (Printed l)) ->
  (forall f x' kws, P (Call f x' waves s kws)) ->
  Forall P (events_of (bench_product gsb perf B args sensor x y slices silent
                         product method)).
Proof.
  intros waves s Hp Hrun. unfold events_of.
  rewrite bench_product_run. cbn zeta. fold waves.
  destruct (negb (silent || given y)); [constructor|].
  destruct (negb (Nat.leb (ncols x) (List.length waves))); [constructor|].
  assert (Hd : Forall P ([] ++ events_of (get_methods B waves sensor product true false
                                            [("tol", 15%Z)]))).
  { cbn [app]. rewrite events_get_methods. apply Forall_forall. intros ev Hin.
    apply discover_events_shape in Hin.
    destruct Hin as [(l & ->)|(f & kws & ->)]; auto. }
  destruct (negb _); [exact Hd|].
  assert (Hloop : forall acc,
             Forall P (fst (for_each (run_method perf y slices silent product method waves)
                              (registry_of B waves sensor product) (x, acc)
                              ([] ++ events_of (get_methods B waves sensor product true
                                                  false [("tol", 15%Z)]))))).
  { intros acc. apply loop_events; auto.
    intros k p x' Hin. rewrite (registry_sensor _ _ _ _ _ Hin). apply Hrun. }
  specialize (Hloop ([], [])).
  destruct (for_each _ _ _ _) as [t' [[x' [ests lbls]]|e]]; exact Hloop.
Qed.



(** *** Scoring without a slice mapping *)




(** What a returning [bench_product] has done to the test data. *)
Lemma bench_product_memory args sensor x y slices silent product method t t' x' r :
  bench_product gsb perf B args sensor x y slices silent product method t
  = (t', Returned (x', r)) ->
  zeroed x x' /\ (product <> "chl" -> x' = x).
Proof.
  intros H. rewrite bench_product_run in H. cbn zeta in H.
  destruct (negb (silent || given y)); [discriminate|].
  destruct (negb (Nat.leb _ _)); [discriminate|].
  destruct (negb _); [discriminate|].
  destruct (for_each _ _ _ _) as [t2 [[x2 [ests lbls]]|e]] eqn:E; [|discriminate].
  inversion H; subst; clear H.
  pose proof (loop_returned _ _ _ _ _ _ _ _ _ _ E) as Hall.
  rewrite loop_returns in E by exact Hall. inversion E; subst.
  split; [apply zeroed_finally | intros Hp; now apply finally_other].
Qed.

Lemma In_turns_call y slices silent product waves turn todo :
  In turn todo ->
  In (Call (func (snd (fst turn))) (snd turn) waves (keywords_sensor (snd (fst turn)))
        [("tol", 15%Z)])
     (flat_map (run_events perf y slices silent product waves) todo).
Proof.
  intros Hin. apply in_flat_map. exists turn. split; [exact Hin|].
  destruct turn as [[k p] xk]. left. reflexivity.
Qed.

(** C8: when the orchestrator returns, every entry of the result is the
    estimate of a registry entry that was invoked on the test data.  For
    the chlorophyll product the entry reads as the algorithm's output with
    every element that is not finite or is below zero replaced by zero,
    every other element kept, so each element of it is finite and not
    negative; for any other product it is the algorithm's output
    unchanged.  The replacement is done in place: where an algorithm
    returns a view of the test data, the test data themselves are changed,
    and a later algorithm is invoked on the changed data; they differ from
    the caller's data only in such replaced elements.  The row
    [-1.0, NaN, 3.2] becomes [0.0, 0.0, 3.2]. *)
Theorem chlorophyll_estimates_clamped
    args sensor x y slices silent product method t t' x' r :
  let waves := gsb sensor args in
  let reg := registry_of B waves sensor product in
  let s := split_head "-" sensor in
  bench_product gsb perf B args sensor x y slices silent product method t
  = (t', Returned (x', r)) ->
  zeroed x x' /\
  (product <> "chl" -> x' = x) /\
  (forall k v,
     In (k, v) r ->
     exists p xk out,
       In (k, p) reg /\
       In (Call (func p) xk waves s [("tol", 15%Z)]) t' /\
       zeroed x xk /\ (product <> "chl" -> xk = x) /\
       run_partial xk waves p = Returned out /\
       if String.eqb product "chl" then
         exists a,
           out = Some a /\ observe x' v = Arr2 (clamp (value_of xk a)) /\
           rows (clamp (value_of xk a)) =
             map (map (fun e => if physical e then e else 0%float))
                 (rows (value_of xk a)) /\
           Forall (Forall (fun e => physical e = true)) (rows (clamp (value_of xk a)))
       else v = slot out /\ observe x' v = pyval_of (option_map (value_of xk) out)) /\
  clamp {| ncols := 3;
           rows := [[(-1)%float; nan; 0x1.999999999999ap+1%float]] |} =
    {| ncols := 3; rows := [[0%float; 0%float; 0x1.999999999999ap+1%float]] |}.
Proof.
  intros waves reg s H.
  assert (Hret : silent || given y = true /\ ncols x <= List.length waves /\
                 match method with Some m => Dict.mem m reg = true | None => True end /\
                 forall turn, In turn (turns product waves x (selection method reg)) ->
                              completes perf y slices silent product waves turn).
  { rewrite bench_product_run in H. cbn zeta in H. fold waves reg in H.
    destruct (silent || given y); [|discriminate].
    destruct (Nat.leb (ncols x) (List.length waves)) eqn:Hn; [|discriminate].
    apply Nat.leb_le in Hn. cbn [negb] in H.
    destruct (match method with Some m => Dict.mem m reg | None => true end) eqn:Hm;
      [|discriminate].
    cbn [negb] in H. repeat split; auto.
    - destruct method; auto.
    - destruct (for_each _ reg _ _) as [t2 [[x2 [ests lbls]]|e]] eqn:E; [|discriminate].
      eapply loop_returned. exact E. }
  destruct Hret as (Hy & Hn & Hm & Hall).
  rewrite bench_product_returns in H by assumption. fold waves reg in H.
  inversion H; subst t' x' r; clear H.
  split; [apply zeroed_finally|]. split; [intros Hp; now apply finally_other|].
  split; [|reflexivity].
  intros k v Hin. unfold expected_estimates in Hin.
  apply in_map_iff in Hin. destruct Hin as ([[k' p] xk] & Heq & Hin).
  cbn [fst snd] in Heq. inversion Heq; subst k' v; clear Heq.
  destruct (Hall _ Hin) as (out & Hc & Hchl & _). cbn [fst snd] in Hc.
  destruct (turns_zeroed product waves _ _ _ Hin) as [Hz1 Hz2]. cbn [fst snd] in Hz1, Hz2.
  assert (Hreg : In (k, p) reg).
  { apply (selection_In method). rewrite <- (turns_fst product waves (selection method reg) x).
    apply in_map_iff. exists (k, p, xk). auto. }
  exists p, xk, out. split; [exact Hreg|]. split.
  { apply in_or_app. right. apply in_or_app. right.
    unfold s. rewrite <- (registry_sensor _ _ _ _ _ Hreg).
    apply (In_turns_call y slices silent product waves (k, p, xk) _ Hin). }
  split; [exact Hz1|]. split.
  { intros Hp. rewrite turns_other in Hin by exact Hp.
    apply in_map_iff in Hin. destruct Hin as (kp & Heq & _). now inversion Heq. }
  split; [exact Hc|].
  unfold estimate. rewrite Hc.
  destruct (String.eqb_spec product "chl") as [Hp|Hp].
  - subst product. destruct out as [a|]; [|now destruct (Hchl eq_refl)].
    exists a. split; [reflexivity|]. split.
    + apply observe_later. unfold next in Hz2. now rewrite Hc in Hz2.
    + split; [|apply clamp_physical].
      rewrite clamp_rows. apply map_ext. intros row. apply map_ext.
      apply clamp_element_spec.
  - rewrite postprocess_other by exact Hp. cbn [snd]. split; [reflexivity|].
    rewrite finally_other by exact Hp.
    assert (Hx : xk = x).
    { rewrite turns_other in Hin by exact Hp.
      apply in_map_iff in Hin. destruct Hin as (kp & Heq & _). now inversion Heq. }
    subst xk. destruct out as [[a|cols src]|]; reflexivity.
Qed.

(** *** The sensor identifier *)

Lemma split_head_suffix s suffix :
  split_head "-" (String.append s (String "-" suffix)) = split_head "-" s.
Proof.
  induction s as [|c r IH]; cbn [String.append split_head].
  - reflexivity.
  - destruct (Ascii.eqb c "-"); [reflexivity | now rewrite IH].
Qed.

Lemma split_head_prefix prefix rest :
  (forall c, In c (list_ascii_of_string prefix) -> c <> "-"%char) ->
  rest = EmptyString \/ (exists r, rest = String "-" r) ->
  split_head "-" (String.append prefix rest) = prefix.
Proof.
  induction prefix as [|c r IH]; intros Hno Hrest; cbn [String.append split_head].
  - destruct Hrest as [->|(r & ->)]; reflexivity.
  - destruct (Ascii.eqb_spec c "-") as [->|Hne].
    + exfalso. apply (Hno "-"%char); [now left | reflexivity].
    + f_equal. apply IH; [|exact Hrest].
      intros c' Hc'. apply Hno. now right.
Qed.

(** C10, as the code has it: [get_methods] keeps only the part of the
    sensor identifier before its first hyphen.  The whole discovery pass
    for an identifier followed by a hyphen and any suffix equals the pass
    for the identifier; where the identifier is a hyphen-free prefix
    followed by nothing or by a hyphen and more, every probe receives that
    prefix and every registered callable has it bound in, and so does
    every entry-point invocation of a [bench_product] run.  The
    orchestrator itself does see the full identifier: the wavelengths it
    passes on are those [get_sensor_bands] gives for the full identifier
    (line 61), and the band-count error names it (line 62). *)
Theorem registry_ignores_sensor_suffix
    wl sensor suffix product debug allow_opt kw args x y slices silent method :
  (forall t,
     get_methods B wl (String.append sensor (String "-" suffix)) product debug
       allow_opt kw t
     = get_methods B wl sensor product debug allow_opt kw t) /\
  (forall prefix rest,
     sensor = String.append prefix rest ->
     (forall c, In c (list_ascii_of_string prefix) -> c <> "-"%char) ->
     rest = EmptyString \/ (exists r, rest = String "-" r) ->
     (forall f x' w s kws,
        In (Call f x' w s kws)
           (events_of (get_methods B wl sensor product debug allow_opt kw)) ->
        s = prefix) /\
     (forall reg k p,
        outcome (get_methods B wl sensor product debug allow_opt kw) = Returned reg ->
        In (k, p) reg -> keywords_sensor p = prefix) /\
     (forall f x' w s kws,
        In (Call f x' w s kws)
           (events_of (bench_product gsb perf B args sensor x y slices silent
                         product method)) ->
        s = prefix /\ w = gsb sensor args)) /\
  (silent || given y = true ->
   List.length (gsb sensor args) < ncols x ->
   outcome (bench_product gsb perf B args sensor x y slices silent product method) =
   Raised (AssertionError
             (TooManyFeatures sensor (ncols x) (List.length (gsb sensor args))))).
Proof.
  split; [|split].
  - intros t. now rewrite !get_methods_run, split_head_suffix.
  - intros prefix rest Hs Hno Hrest.
    assert (Hsplit : split_head "-" sensor = prefix).
    { rewrite Hs. now apply split_head_prefix. }
    repeat split.
    + intros f x' w s kws Hin. rewrite events_get_methods in Hin.
      apply discover_calls, expected_probes_spec in Hin.
      rewrite <- Hsplit. tauto.
    + intros reg k p Heq Hin. rewrite outcome_get_methods in Heq.
      inversion Heq; subst reg. apply discover_origin in Hin.
      destruct Hin as [[]|(_ & H & _)]. now rewrite <- Hsplit.
    + pose proof (bench_product_events
                    (fun ev => match ev with
                               | Call _ _ w' s' _ =>
                                   s' = split_head "-" sensor /\ w' = gsb sensor args
                               | _ => True
                               end)
                    args sensor x y slices silent product method) as HF.
      cbn zeta in HF.
      specialize (HF (fun _ => I) (fun _ _ _ => conj eq_refl eq_refl)).
      rewrite Forall_forall in HF. specialize (HF _ H). cbn in HF.
      rewrite <- Hsplit. tauto.
    + pose proof (bench_product_events
                    (fun ev => match ev with
                               | Call _ _ w' s' _ =>
                                   s' = split_head "-" sensor /\ w' = gsb sensor args
                               | _ => True
                               end)
                    args sensor x y slices silent product method) as HF.
      cbn zeta in HF.
      specialize (HF (fun _ => I) (fun _ _ _ => conj eq_refl eq_refl)).
      rewrite Forall_forall in HF. specialize (HF _ H). cbn in HF. tauto.
  - intros Hy Hn. unfold outcome. rewrite bench_product_run. cbn zeta.
    rewrite Hy. cbn [negb]. apply Nat.leb_gt in Hn. now rewrite Hn.
Qed.

End Orchestration.


(* ================================================================= *)
(** ** The dispatcher *)

Lemma emits_ret P {A} (a : A) : emits P (ret a).
Proof. split; [apply uniform_ret | constructor]. Qed.

Lemma emits_raise P {A} (e : exn) : emits P (@raise A e).
Proof. split; [apply uniform_raise | constructor]. Qed.

Lemma emits_print (P : event -> Prop) l : P (Printed l) -> emits P (print l).
Proof. intros H. split; [apply uniform_print | repeat constructor; exact H]. Qed.

Lemma emits_bind P {A C} (m : M A) (k : A -> M C) :
  emits P m -> (forall a, emits P (k a)) -> emits P (bind m k).
Proof.
  intros [Um Fm] Hk. split.
  - apply uniform_bind; [exact Um | intros a; apply Hk].
  - rewrite events_bind by (auto; intros a; apply Hk).
    apply Forall_app. split; [exact Fm|].
    destruct (outcome m); [apply Hk | constructor].
Qed.

Lemma emits_assert P b msg : emits P (assert b msg).
Proof. destruct b; [apply emits_ret | apply emits_raise]. Qed.

Lemma emits_when P b m : emits P m -> emits P (when b m).
Proof. intros H. destruct b; [exact H | apply emits_ret]. Qed.

Lemma emits_getitem P {V} (d : Dict.t V) k : emits P (getitem d k).
Proof. unfold getitem. destruct (Dict.get k d); [apply emits_ret | apply emits_raise]. Qed.

Lemma emits_index P {A} (l : list A) i : emits P (index l i).
Proof. unfold index. destruct (nth_error l i); [apply emits_ret | apply emits_raise]. Qed.

Lemma emits_for_each P {A C} (f : A -> C -> M A) (l : list C) :
  (forall a c, emits P (f a c)) -> forall a, emits P (for_each f l a).
Proof.
  intros Hf. induction l as [|c r IH]; intros a; cbn [for_each].
  - apply emits_ret.
  - apply emits_bind; auto.
Qed.

Lemma emits_filter_m P {C} (p : C -> M bool) (l : list C) :
  (forall c, emits P (p c)) -> emits P (filter_m p l).
Proof.
  intros Hp. induction l as [|c r IH]; cbn [filter_m].
  - apply emits_ret.
  - apply emits_bind; auto. intros keep.
    apply emits_bind; auto. intros r'. apply emits_ret.
Qed.

Lemma emits_first_char_in P cs k : emits P (first_char_in cs k).
Proof. destruct k; [apply emits_raise | apply emits_ret]. Qed.

Lemma runs_not_run t : Forall not_run t -> runs t = [].
Proof.
  induction 1 as [|ev t Hev _ IH]; [reflexivity|].
  destruct ev; unfold runs in *; cbn; auto. destruct Hev.
Qed.

Lemma ltb_length_filter {A} (f : A -> bool) (l : list A) :
  Nat.ltb 0 (List.length (filter f l)) = existsb f l.
Proof.
  induction l as [|a r IH]; [reflexivity|].
  cbn [filter existsb]. destruct (f a); [reflexivity | exact IH].
Qed.

Lemma filter_iop_keys (ks : list string) t :
  Forall (fun k => k <> EmptyString) ks ->
  filter_m iop_key ks t = (t, Returned (filter is_iop_key ks)).
Proof.
  intros H. revert t. induction H as [|k r Hk _ IH]; intros t.
  - reflexivity.
  - cbn [filter_m filter]. unfold bind at 1.
    destruct k as [|c k']; [congruence|].
    unfold iop_key at 1, bind, first_char_in, ret. cbn [is_iop_key].
    unfold bind. rewrite IH. reflexivity.
Qed.

Section Dispatch.

Variable Args : Type.
Variable gsb : string -> Args -> list Z.
Variable perf : string -> list float -> pyval -> string.
Variable B : string -> list plugin.
Variable QAA : ndarray -> list Z -> Dict.t ndarray.
Variable other : list Z -> Z -> string * string.
Variable ml :
  Args -> string -> option ndarray -> option ndarray -> ndarray ->
  ndarray -> Dict.t pyslice -> bool -> bool -> list string * result (Dict.t pyval).

Lemma emits_bench_qaa (P : event -> Prop) args sensor x y slices silent :
  (forall l, P (Printed l)) ->
  emits P (bench_qaa gsb perf QAA other args sensor x y slices silent).
Proof.
  intros Hp. unfold bench_qaa.
  apply emits_bind.
  { apply emits_filter_m. intros k. apply emits_first_char_in. }
  intros param. apply emits_bind.
  - apply emits_for_each. intros acc nm. unfold qaa_param.
    destruct (Dict.get _ _) as [est|].
    + apply emits_bind; [apply emits_getitem|]. intros sl.
      apply emits_bind; [apply emits_assert|]. intros _.
      apply emits_for_each. intros [ests lbls] i. unfold qaa_column.
      apply emits_bind.
      * apply emits_when. apply emits_bind; [apply emits_index|].
        intros w. apply emits_print, Hp.
      * intros _. apply emits_bind; [apply emits_index|]. intros w. apply emits_ret.
    + apply emits_bind; [apply emits_print, Hp|]. intros _. apply emits_raise.
  - intros [ests lbls]. apply emits_ret.
Qed.

Lemma emits_bench_ml (P : event -> Prop)
    args sensor x_train y_train x y slices silent gridsearch :
  (forall l, P (Printed l)) ->
  emits P (bench_ml ml args sensor x_train y_train x y slices silent gridsearch).
Proof.
  intros Hp. unfold bench_ml.
  destruct (ml args sensor x_train y_train x y slices silent gridsearch)
    as [lines out] eqn:E.
  split.
  - apply uniform_intro with (new := map (fun s => Printed (Report s)) lines) (r := out).
    reflexivity.
  - unfold events_of. cbn [fst app]. apply Forall_forall. intros ev Hin.
    apply in_map_iff in Hin. destruct Hin as (s & <- & _). apply Hp.
Qed.

Lemma emits_bench_product args sensor x y slices silent product method :
  emits not_run (bench_product gsb perf B args sensor x y slices silent product method).
Proof.
  split; [apply uniform_bench_product|].
  apply bench_product_events; intros; exact I.
Qed.

(** One [benchmarks.update(variant(...))] whose variant returns. *)
Lemma update_with_returns o (variant : M (Dict.t pyval)) r benchmarks t :
  uniform variant -> outcome variant = Returned r ->
  update_with o variant benchmarks t =
  (t ++ Run o :: events_of variant, Returned (Dict.update benchmarks r)).
Proof.
  intros Hu Ho. unfold update_with, bind, emit.
  rewrite (Hu (t ++ [Run o])), Ho. cbn [ret]. now rewrite <- app_assoc.
Qed.

Lemma update_with_product_returns o (variant : M (ndarray * Dict.t pyval)) x' r
    benchmarks t :
  uniform variant -> outcome variant = Returned (x', r) ->
  update_with_product o variant benchmarks t =
  (t ++ Run o :: events_of variant, Returned (x', Dict.update benchmarks r)).
Proof.
  intros Hu Ho. unfold update_with_product, bind, emit.
  rewrite (Hu (t ++ [Run o])), Ho. cbn [ret fst snd]. now rewrite <- app_assoc.
Qed.

Lemma update_with_product_raises o (variant : M (ndarray * Dict.t pyval)) e
    benchmarks t :
  uniform variant -> outcome variant = Raised e ->
  update_with_product o variant benchmarks t =
  (t ++ Run o :: events_of variant, Raised e).
Proof.
  intros Hu Ho. unfold update_with_product, bind, emit.
  rewrite (Hu (t ++ [Run o])), Ho. now rewrite <- app_assoc.
Qed.

(** [run_benchmarks] once the test of line 312 has passed. *)
Lemma run_benchmarks_run
    args sensor x y slices silent x_train y_train gridsearch with_ml t :
  Forall (fun k => k <> EmptyString) (Dict.keys slices) ->
  run_benchmarks gsb perf B QAA other ml args sensor x y slices silent x_train y_train
    gridsearch with_ml t =
  bind (if existsb is_iop_key (Dict.keys slices)
        then update_with Qaa (bench_qaa gsb perf QAA other args sensor x y slices silent) []
        else ret [])
    (fun b1 =>
       bind (if Dict.mem "chl" slices
             then bind (update_with_product (Product "chl")
                          (bench_chl gsb perf B args sensor x y slices silent) b1)
                    (fun st =>
                       bind (if with_ml
                             then update_with Ml
                                    (bench_ml ml args sensor x_train y_train (fst st) y
                                       slices silent gridsearch) (snd st)
                             else ret (snd st))
                         (fun b2 => ret (fst st, b2)))
             else ret (x, b1))
         (fun st =>
            bind (if Dict.mem "tss" slices
                  then update_with_product (Product "tss")
                         (bench_product gsb perf B args sensor (fst st) (Some y)
                            (Some slices) silent "tss" None) (snd st)
                  else ret st)
              (fun st' => ret st'))) t.
Proof.
  intros Hk. unfold run_benchmarks. unfold bind at 1.
  rewrite filter_iop_keys by exact Hk. rewrite ltb_length_filter.
  unfold bind.
  destruct (if existsb is_iop_key (Dict.keys slices) then _ else _) as [t1 [b1|e]];
    [|reflexivity].
  destruct (Dict.mem "chl" slices).
  - destruct (update_with_product _ _ _ _) as [t2 [[x1 b2]|e]]; [|reflexivity].
    cbn [fst snd].
    destruct (if with_ml then _ else _) as [t3 [b3|e]]; [|reflexivity].
    cbn [ret fst snd]. destruct (Dict.mem "tss" slices); [|reflexivity].
    destruct (update_with_product _ _ _ _) as [t4 [[x2 b4]|e]]; reflexivity.
  - cbn [ret fst snd]. destruct (Dict.mem "tss" slices); [|reflexivity].
    destruct (update_with_product _ _ _ _) as [t4 [[x2 b4]|e]]; reflexivity.
Qed.

(** C9, as the code has it, for a slice mapping without an empty key and a
    run in which every variant that is started returns a mapping.  The
    analytic-inversion orchestrator is started exactly when some key
    begins with [a] or [b] and contains neither [*] nor [ad]; the
    registry-based orchestrator for chlorophyll exactly when [chl] is a
    key, followed by the machine-learning variant when that is enabled;
    the registry-based orchestrator for suspended solids exactly when
    [tss] is a key; in that order.  The chlorophyll orchestrator may
    replace elements of the test data by zero, in place; the
    machine-learning variant and the orchestrator for suspended solids
    run on the test data as it left them (the arrays that the inversion
    and the machine-learning variant return are taken to own their
    memory).  The result holds the keys of all the mappings returned, and
    where a key occurs in several of them the value of the variant that
    ran last. *)
Theorem dispatch_and_merge
    args sensor x y slices silent x_train y_train gridsearch with_ml q x1 c m x2 s :
  let qaa_on := existsb is_iop_key (Dict.keys slices) in
  let chl_on := Dict.mem "chl" slices in
  let tss_on := Dict.mem "tss" slices in
  let run :=
    run_benchmarks gsb perf B QAA other ml args sensor x y slices silent x_train y_train
      gridsearch with_ml in
  let merged := Dict.update (Dict.update (Dict.update (Dict.update [] q) c) m) s in
  Forall (fun k => k <> EmptyString) (Dict.keys slices) ->
  variant_returns qaa_on (bench_qaa gsb perf QAA other args sensor x y slices silent) q ->
  product_returns chl_on (bench_chl gsb perf B args sensor x y slices silent) x (x1, c) ->
  variant_returns (chl_on && with_ml)
    (bench_ml ml args sensor x_train y_train x1 y slices silent gridsearch) m ->
  product_returns tss_on
    (bench_product gsb perf B args sensor x1 (Some y) (Some slices) silent "tss" None)
    x1 (x2, s) ->
  outcome run = Returned (x2, merged) /\
  runs (events_of run) =
    (if qaa_on then [Qaa] else []) ++
    (if chl_on then Product "chl" :: (if with_ml then [Ml] else []) else []) ++
    (if tss_on then [Product "tss"] else []) /\
  zeroed x x1 /\ x2 = x1 /\
  (forall k,
     In k (Dict.keys merged) <->
     In k (Dict.keys q) \/ In k (Dict.keys c) \/ In k (Dict.keys m) \/ In k (Dict.keys s)) /\
  (forall k,
     Dict.get k merged =
     match Dict.get k (Dict.of_list s) with
     | Some v => Some v
     | None =>
         match Dict.get k (Dict.of_list m) with
         | Some v => Some v
         | None =>
             match Dict.get k (Dict.of_list c) with
             | Some v => Some v
             | None => Dict.get k (Dict.of_list q)
             end
         end
     end).
Proof.
  intros qaa_on chl_on tss_on run merged Hkeys Hq Hc Hm Hs.
  assert (Hrun : run [] =
            ((if qaa_on then Run Qaa :: events_of (bench_qaa gsb perf QAA other args sensor
                                                     x y slices silent) else []) ++
             (if chl_on then
                Run (Product "chl")
                :: events_of (bench_chl gsb perf B args sensor x y slices silent)
                ++ (if with_ml then
                      Run Ml :: events_of (bench_ml ml args sensor x_train y_train x1 y
                                             slices silent gridsearch)
                    else [])
              else []) ++
             (if tss_on then
                Run (Product "tss")
                :: events_of (bench_product gsb perf B args sensor x1 (Some y)
                                (Some slices) silent "tss" None)
              else []),
             Returned (x2, merged))).
  { unfold run. rewrite run_benchmarks_run by exact Hkeys.
    fold qaa_on chl_on tss_on. unfold merged.
    unfold variant_returns, product_returns in *.
    unfold bind at 1.
    assert (E1 : forall t,
               (if qaa_on
                then update_with Qaa (bench_qaa gsb perf QAA other args sensor x y slices
                                        silent) []
                else ret []) t =
               (t ++ (if qaa_on then Run Qaa :: events_of (bench_qaa gsb perf QAA other
                                                             args sensor x y slices silent)
                      else []),
                Returned (Dict.update [] q))).
    { intros t. destruct qaa_on.
      - apply update_with_returns; [|exact Hq].
        apply (emits_bench_qaa (fun _ => True)). auto.
      - subst q. unfold ret. now rewrite app_nil_r. }
    rewrite E1. cbn [app].
    unfold bind at 1.
    assert (E2 : forall b t,
               (if chl_on
                then bind (update_with_product (Product "chl")
                             (bench_chl gsb perf B args sensor x y slices silent) b)
                       (fun st =>
                          bind (if with_ml
                                then update_with Ml
                                       (bench_ml ml args sensor x_train y_train (fst st) y
                                          slices silent gridsearch) (snd st)
                                else ret (snd st))
                            (fun b2 => ret (fst st, b2)))
                else ret (x, b)) t =
               (t ++ (if chl_on then
                        Run (Product "chl")
                        :: events_of (bench_chl gsb perf B args sensor x y slices silent)
                        ++ (if with_ml then
                              Run Ml :: events_of (bench_ml ml args sensor x_train
                                                     y_train x1 y slices silent gridsearch)
                            else [])
                      else []),
                Returned (x1, Dict.update (Dict.update b c) m))).
    { intros b t. destruct chl_on; cbn [andb] in Hm.
      - unfold bind at 1.
        rewrite update_with_product_returns with (x' := x1) (r := c);
          [|apply uniform_bench_product | exact Hc].
        cbn [fst snd]. unfold bind at 1. destruct with_ml.
        + rewrite update_with_returns with (r := m);
            [|apply (emits_bench_ml (fun _ => True)); auto | exact Hm].
          cbn [ret]. rewrite <- !app_assoc. reflexivity.
        + subst m. unfold ret. cbn [Dict.update fold_left].
          rewrite app_nil_r. reflexivity.
      - inversion Hc; subst. unfold ret. now rewrite app_nil_r. }
    rewrite E2. cbn [fst snd].
    unfold bind at 1.
    assert (E3 : forall b t,
               (if tss_on
                then update_with_product (Product "tss")
                       (bench_product gsb perf B args sensor x1 (Some y) (Some slices)
                          silent "tss" None) b
                else ret (x1, b)) t =
               (t ++ (if tss_on then
                        Run (Product "tss")
                        :: events_of (bench_product gsb perf B args sensor x1 (Some y)
                                        (Some slices) silent "tss" None)
                      else []),
                Returned (x2, Dict.update b s))).
    { intros b t. destruct tss_on.
      - apply update_with_product_returns; [apply uniform_bench_product | exact Hs].
      - inversion Hs; subst. unfold ret. now rewrite app_nil_r. }
    rewrite E3. unfold ret. rewrite <- app_assoc. reflexivity. }
  split; [unfold outcome; now rewrite Hrun|].
  split.
  { unfold events_of. rewrite Hrun. cbn [fst]. rewrite !runs_app.
    f_equal; [|f_equal].
    + destruct qaa_on; [|reflexivity].
      unfold runs at 1. cbn [flat_map app]. fold (runs (events_of
        (bench_qaa gsb perf QAA other args sensor x y slices silent))).
      rewrite runs_not_run; [reflexivity|].
      apply (emits_bench_qaa not_run). intros l. exact I.
    + destruct chl_on; [|reflexivity].
      change (runs (Run (Product "chl") :: ?t)) with (Product "chl" :: runs t).
      rewrite runs_app. rewrite (runs_not_run (t := events_of (bench_chl _ _ _ _ _ _ _ _ _))).
      * destruct with_ml; [|reflexivity].
        change (runs (Run Ml :: ?t)) with (Ml :: runs t).
        rewrite runs_not_run; [reflexivity|].
        apply (emits_bench_ml not_run). intros l. exact I.
      * apply emits_bench_product.
    + destruct tss_on; [|reflexivity].
      change (runs (Run (Product "tss") :: ?t)) with (Product "tss" :: runs t).
      rewrite runs_not_run; [reflexivity | apply emits_bench_product]. }
  split.
  { unfold product_returns in Hc. destruct chl_on.
    - unfold outcome in Hc.
      destruct (bench_chl gsb perf B args sensor x y slices silent []) as [t1 r1] eqn:E.
      cbn [snd] in Hc. subst r1. unfold bench_chl in E.
      apply bench_product_memory in E. tauto.
    - inversion Hc. apply zeroed_refl. }
  split.
  { unfold product_returns in Hs. destruct tss_on.
    - unfold outcome in Hs.
      destruct (bench_product gsb perf B args sensor x1 (Some y) (Some slices) silent
                  "tss" None []) as [t1 r1] eqn:E.
      cbn [snd] in Hs. subst r1.
      apply bench_product_memory in E. apply E. discriminate.
    - now inversion Hs. }
  split.
  - intros k. unfold merged. rewrite !DictFacts.In_keys_update. cbn [Dict.keys map In].
    unfold Dict.keys. tauto.
  - intros k. unfold merged. rewrite !DictFacts.get_update. cbn [Dict.get].
    destruct (Dict.get k (Dict.of_list s)); [reflexivity|].
    destruct (Dict.get k (Dict.of_list m)); [reflexivity|].
    destruct (Dict.get k (Dict.of_list c)); [reflexivity|].
    destruct (Dict.get k (Dict.of_list q)); reflexivity.
Qed.

End Dispatch.

(* ================================================================= *)
(** ** The properties on the example layouts *)

(** The end-to-end scenario of the design notes: four wavelengths, sensor
    "OLI", one algorithm "OC3" with defaults whose probe succeeds, test data
    of ten samples by four bands.  Running every method and running "OC3"
    by name return the same single-entry mapping. *)
Example end_to_end :
  outcome (bench_product Fixtures.bands Fixtures.perf Fixtures.layout_oc3 tt "OLI"
             (Fixtures.full 10 4 1) None None true "chl" None)
  = Returned (Fixtures.full 10 4 1, [("OC3", Arr2 (Fixtures.full 10 1 1))]) /\
  outcome (bench_product Fixtures.bands Fixtures.perf Fixtures.layout_oc3 tt "OLI"
             (Fixtures.full 10 4 1) None None true "chl" (Some "OC3"))
  = outcome (bench_product Fixtures.bands Fixtures.perf Fixtures.layout_oc3 tt "OLI"
               (Fixtures.full 10 4 1) None None true "chl" None).
Proof. split; reflexivity. Qed.

(** A probe that raises is logged and skipped; the next folder is still
    probed and registered. *)
Example raising_probe_is_skipped :
  get_methods Fixtures.layout_broken Fixtures.oli "OLI-rho" "chl" true false
    Fixtures.tol15 []
  = ([Call Fixtures.broken (np_ones 1 4) Fixtures.oli "OLI" Fixtures.tol15;
      Printed (ExceptionFor "Broken" (ModelError "no band near 709"));
      Call Fixtures.OC3 (np_ones 1 4) Fixtures.oli "OLI" Fixtures.tol15],
     Returned [("OC3", {| func := Fixtures.OC3; keywords_sensor := "OLI";
                          __name__ := "OC3" |})]).
Proof. reflexivity. Qed.



(** C6 as stated fails: with scoring requested and no ground truth, five
    feature columns against four wavelengths raise the assertion of line 59,
    not the band-count mismatch. *)
Lemma missing_ground_truth_fires_first :
  List.length (Fixtures.bands "OLI" tt) < ncols (Fixtures.full 10 5 1) /\
  bench_product Fixtures.bands Fixtures.perf Fixtures.layout_oc3 tt "OLI"
    (Fixtures.full 10 5 1) None None false "chl" None []
  = ([], Raised (AssertionError MustProvideY)).
Proof. split; [vm_compute; lia | reflexivity]. Qed.

Lemma band_count_checked_before_discovery_witness :
  bench_product Fixtures.bands Fixtures.perf Fixtures.layout_oc3 tt "OLI"
    (Fixtures.full 10 5 1) None None true "chl" None []
  = ([], Raised (AssertionError (TooManyFeatures "OLI" 5 4))).
Proof.
  refine (band_count_checked_before_discovery Fixtures.bands Fixtures.perf
            Fixtures.layout_oc3 tt "OLI" (Fixtures.full 10 5 1) None None true
            "chl" None [] _).
  vm_compute. lia.
Defined.

(** C7 as stated fails: "OC3" is a key of the registry (its probe sees all
    four bands), and on test data with two feature columns the call with
    that method name raises instead of returning a mapping.  And a name
    that is not a key of the registry, on test data with five feature
    columns, raises the band-count mismatch, which lists no registry
    names. *)
Lemma registered_method_can_raise :
  ncols (Fixtures.full 10 2 1) <= List.length (Fixtures.bands "OLI" tt) /\
  Dict.mem "OC3" (registry_of Fixtures.layout_oc3 (Fixtures.bands "OLI" tt) "OLI" "chl")
  = true /\
  outcome (bench_product Fixtures.bands Fixtures.perf Fixtures.layout_oc3 tt "OLI"
             (Fixtures.full 10 2 1) None None true "chl" (Some "OC3"))
  = Raised IndexError /\
  Dict.mem "OC4" (registry_of Fixtures.layout_oc3 (Fixtures.bands "OLI" tt) "OLI" "chl")
  = false /\
  outcome (bench_product Fixtures.bands Fixtures.perf Fixtures.layout_oc3 tt "OLI"
             (Fixtures.full 10 5 1) None None true "chl" (Some "OC4"))
  = Raised (AssertionError (TooManyFeatures "OLI" 5 4)).
Proof. split; [vm_compute; lia | repeat split; reflexivity]. Qed.

Lemma method_selection_witness :
  (forall t,
     bench_product Fixtures.bands Fixtures.perf Fixtures.layout_oc3 tt "OLI"
       (Fixtures.full 10 4 1) None None true "chl" (Some "OC4") t
     = (t ++ [Call Fixtures.OC3 (np_ones 1 4) Fixtures.oli "OLI" Fixtures.tol15],
        Raised (AssertionError (UnknownAlgorithm "OC4" ["OC3"])))) /\
  (forall t,
     bench_product Fixtures.bands Fixtures.perf Fixtures.layout_oc3 tt "OLI"
       (Fixtures.full 10 4 1) None None true "chl" (Some "OC3") t
     = (t ++ [Call Fixtures.OC3 (np_ones 1 4) Fixtures.oli "OLI" Fixtures.tol15;
              Call Fixtures.OC3 (Fixtures.full 10 4 1) Fixtures.oli "OLI" Fixtures.tol15],
        Returned (Fixtures.full 10 4 1, [("OC3", Arr2 (Fixtures.full 10 1 1))]))).
Proof.
  split.
  - refine (proj1 (method_selection Fixtures.bands Fixtures.perf Fixtures.layout_oc3
                     tt "OLI" (Fixtures.full 10 4 1) None None true "chl" "OC4"
                     eq_refl _ eq_refl) eq_refl).
    vm_compute. lia.
  - refine (proj1 (proj2 (method_selection Fixtures.bands Fixtures.perf
                            Fixtures.layout_oc3 tt "OLI" (Fixtures.full 10 4 1) None None
                            true "chl" "OC3" eq_refl _ eq_refl)
                     _ _ eq_refl eq_refl _ _)).
    + vm_compute. lia.
    + discriminate.
    + discriminate.
Defined.

(** The single sample [-1, 2, 3, 4]: the first algorithm returns a view of
    the first band, the clamping of its estimate writes the zero into the
    test data, and the second algorithm is invoked on [0, 2, 3, 4]. *)
Lemma chlorophyll_estimates_clamped_witness :
  bench_product Fixtures.bands Fixtures.perf MoreFixtures.layout_band1_oc3 tt "OLI"
    (MoreFixtures.row4 (-1) 2 3 4) None None true "chl" None []
  = ([Call MoreFixtures.Band1 (np_ones 1 4) Fixtures.oli "OLI" Fixtures.tol15;
      Call Fixtures.OC3 (np_ones 1 4) Fixtures.oli "OLI" Fixtures.tol15;
      Call MoreFixtures.Band1 (MoreFixtures.row4 (-1) 2 3 4) Fixtures.oli "OLI"
        Fixtures.tol15;
      Call Fixtures.OC3 (MoreFixtures.row4 0 2 3 4) Fixtures.oli "OLI" Fixtures.tol15],
     Returned (MoreFixtures.row4 0 2 3 4,
               [("Band1", Shared 1 [[(0, 0)]]);
                ("OC3", Arr2 {| ncols := 1; rows := [[0%float]] |})])) /\
  zeroed (MoreFixtures.row4 (-1) 2 3 4) (MoreFixtures.row4 0 2 3 4) /\
  exists p xk out,
    In (Call (func p) xk Fixtures.oli "OLI" [("tol", 15%Z)])
       [Call MoreFixtures.Band1 (np_ones 1 4) Fixtures.oli "OLI" Fixtures.tol15;
        Call Fixtures.OC3 (np_ones 1 4) Fixtures.oli "OLI" Fixtures.tol15;
        Call MoreFixtures.Band1 (MoreFixtures.row4 (-1) 2 3 4) Fixtures.oli "OLI"
          Fixtures.tol15;
        Call Fixtures.OC3 (MoreFixtures.row4 0 2 3 4) Fixtures.oli "OLI" Fixtures.tol15] /\
    run_partial xk Fixtures.oli p = Returned out /\
    exists a,
      out = Some a /\
      observe (MoreFixtures.row4 0 2 3 4) (Shared 1 [[(0, 0)]]) =
      Arr2 (clamp (value_of xk a)).
Proof.
  assert (E : bench_product Fixtures.bands Fixtures.perf MoreFixtures.layout_band1_oc3
                tt "OLI" (MoreFixtures.row4 (-1) 2 3 4) None None true "chl" None []
              = ([Call MoreFixtures.Band1 (np_ones 1 4) Fixtures.oli "OLI" Fixtures.tol15;
                  Call Fixtures.OC3 (np_ones 1 4) Fixtures.oli "OLI" Fixtures.tol15;
                  Call MoreFixtures.Band1 (MoreFixtures.row4 (-1) 2 3 4) Fixtures.oli
                    "OLI" Fixtures.tol15;
                  Call Fixtures.OC3 (MoreFixtures.row4 0 2 3 4) Fixtures.oli "OLI"
                    Fixtures.tol15],
                 Returned (MoreFixtures.row4 0 2 3 4,
                           [("Band1", Shared 1 [[(0, 0)]]);
                            ("OC3", Arr2 {| ncols := 1; rows := [[0%float]] |})]))).
  { vm_compute. reflexivity. }
  split; [exact E|].
  destruct (chlorophyll_estimates_clamped Fixtures.bands Fixtures.perf
              MoreFixtures.layout_band1_oc3 tt "OLI" (MoreFixtures.row4 (-1) 2 3 4)
              None None true "chl" None [] E)
    as (Hz & _ & Hall & _).
  split; [exact Hz|].
  destruct (Hall "Band1" (Shared 1 [[(0, 0)]]) (or_introl eq_refl))
    as (p & xk & out & _ & Hcall & _ & _ & Hc & a & Ha & Hobs & _).
  exists p, xk, out. split; [exact Hcall|]. split; [exact Hc|].
  exists a. split; [exact Ha | exact Hobs].
Defined.

(** C9 as stated fails: [aph] and [chl] are slice keys, the inversion
    engine has no [aph] output, so the analytic-inversion orchestrator
    raises, the dispatcher raises with it, and the chlorophyll orchestrator
    is never started although [chl] is a slice key.  And with an empty
    slice key next to [tss], line 312 raises on [k[0]] and nothing is
    started. *)
Lemma failed_variant_stops_dispatch :
  Dict.mem "chl" Fixtures.slices_aph_chl = true /\
  outcome (run_benchmarks Fixtures.bands Fixtures.perf Fixtures.layout_oc3
             Fixtures.qaa_empty MoreFixtures.no_other Fixtures.ml_xgb tt "OLI"
             (Fixtures.full 2 4 1) (Fixtures.full 2 2 1) Fixtures.slices_aph_chl true
             None None false false)
  = Raised (AssertionError (NotFound "aph")) /\
  runs (events_of
          (run_benchmarks Fixtures.bands Fixtures.perf Fixtures.layout_oc3
             Fixtures.qaa_empty MoreFixtures.no_other Fixtures.ml_xgb tt "OLI"
             (Fixtures.full 2 4 1) (Fixtures.full 2 2 1) Fixtures.slices_aph_chl true
             None None false false))
  = [Qaa] /\
  Dict.mem "tss" Fixtures.slices_empty_key = true /\
  run_benchmarks Fixtures.bands Fixtures.perf Fixtures.layout_oc3
    Fixtures.qaa_aph MoreFixtures.no_other Fixtures.ml_xgb tt "OLI" (Fixtures.full 2 4 1)
    (Fixtures.full 2 2 1) Fixtures.slices_empty_key true None None false false []
  = ([], Raised IndexError).
Proof. repeat split; vm_compute; reflexivity. Qed.

(** Test data whose elements are all -1, with [aph], [chl] and [tss] as
    slice keys: the chlorophyll algorithm returns a view of the first band,
    so its clamping zeroes the first band of the test data, and the learned
    bench, which runs next, reads zeros there. *)
Lemma dispatch_and_merge_witness :
  outcome (run_benchmarks Fixtures.bands Fixtures.perf MoreFixtures.layout_band1
             Fixtures.qaa_aph MoreFixtures.no_other Fixtures.ml_xgb tt "OLI"
             (Fixtures.full 2 4 (-1)) (Fixtures.full 2 3 1) Fixtures.slices_all true
             None None false true)
  = Returned (MoreFixtures.zero_first,
              [("QAA aph443", Arr1 [(-1)%float; (-1)%float]);
               ("Band1", Shared 1 [[(0, 0)]; [(1, 0)]]);
               ("XGB", Arr1 [0%float; 0%float])]) /\
  runs (events_of
          (run_benchmarks Fixtures.bands Fixtures.perf MoreFixtures.layout_band1
             Fixtures.qaa_aph MoreFixtures.no_other Fixtures.ml_xgb tt "OLI"
             (Fixtures.full 2 4 (-1)) (Fixtures.full 2 3 1) Fixtures.slices_all true
             None None false true))
  = [Qaa; Product "chl"; Ml; Product "tss"].
Proof.
  pose proof (dispatch_and_merge Fixtures.bands Fixtures.perf MoreFixtures.layout_band1
                Fixtures.qaa_aph MoreFixtures.no_other Fixtures.ml_xgb tt "OLI"
                (Fixtures.full 2 4 (-1)) (Fixtures.full 2 3 1) Fixtures.slices_all true
                None None false true
                [("QAA aph443", Arr1 [(-1)%float; (-1)%float])]
                MoreFixtures.zero_first
                [("Band1", Shared 1 [[(0, 0)]; [(1, 0)]])]
                [("XGB", Arr1 [0%float; 0%float])]
                MoreFixtures.zero_first
                [("Band1", Shared 1 [[(0, 0)]; [(1, 0)]])]) as H.
  cbv zeta in H.
  destruct H as (H1 & H2 & _).
  - repeat constructor; discriminate.
  - vm_compute. reflexivity.
  - vm_compute. reflexivity.
  - vm_compute. reflexivity.
  - vm_compute. reflexivity.
  - split; [rewrite H1 | rewrite H2]; vm_compute; reflexivity.
Defined.

(** C10 as stated fails: the orchestrator does see the full identifier.
    With bands that depend on it, the run for "OLI-rho" asks for the bands
    of "OLI-rho", finds two, and raises the band-count error, which names
    "OLI-rho"; the run for "OLI" on the same data returns. *)
Lemma orchestrator_sees_full_sensor :
  split_head "-" "OLI-rho" = "OLI" /\
  bench_product MoreFixtures.bands_of Fixtures.perf Fixtures.layout_oc3 tt "OLI-rho"
    (Fixtures.full 10 4 1) None None true "chl" None []
  = ([], Raised (AssertionError (TooManyFeatures "OLI-rho" 4 2))) /\
  outcome (bench_product MoreFixtures.bands_of Fixtures.perf Fixtures.layout_oc3 tt "OLI"
             (Fixtures.full 10 4 1) None None true "chl" None)
  = Returned (Fixtures.full 10 4 1, [("OC3", Arr2 (Fixtures.full 10 1 1))]).
Proof. repeat split; vm_compute; reflexivity. Qed.

Lemma registry_ignores_sensor_suffix_witness :
  (forall f x' w s kws,
     In (Call f x' w s kws)
        (events_of (get_methods Fixtures.layout_oc3 Fixtures.oli "OLI-rho" "chl" true false
                      Fixtures.tol15)) ->
     s = "OLI") /\
  (forall f x' w s kws,
     In (Call f x' w s kws)
        (events_of (bench_product MoreFixtures.bands_of Fixtures.perf Fixtures.layout_oc3
                      tt "OLI-rho" (Fixtures.full 10 2 1) None None true "chl" None)) ->
     s = "OLI" /\ w = [443; 490]%Z).
Proof.
  destruct (proj1 (proj2 (registry_ignores_sensor_suffix MoreFixtures.bands_of
                            Fixtures.perf Fixtures.layout_oc3 Fixtures.oli "OLI-rho"
                            EmptyString "chl" true false Fixtures.tol15 tt
                            (Fixtures.full 10 2 1) None None true None))
              "OLI" "-rho" eq_refl) as (H1 & _ & H3).
  - intros c [<-|[<-|[<-|[]]]]; discriminate.
  - right. eexists. reflexivity.
  - split; [exact H1 | exact H3].
Defined.

(* ================================================================= *)
(** ** Further properties of discovery *)

Lemma discover_step_nil wl s debug allow_opt t st c :
  discover_step wl s debug allow_opt (t, st) c =
  (t ++ fst (discover_step wl s debug allow_opt ([], st) c),
   snd (discover_step wl s debug allow_opt ([], st) c)).
Proof.
  pose proof (discover_trace wl s debug allow_opt [c] t st) as H.
  unfold discover in H. cbn [fold_left] in H. exact H.
Qed.

(** A symbol without [has_default] leaves no trace in a discovery pass. *)
Lemma discover_skip wl s debug allow_opt (cs : list (string * pyobj)) : forall acc,
  discover wl s debug allow_opt cs acc =
  discover wl s debug allow_opt
    (filter (fun c => match has_default (snd c) with Some _ => true | None => false end) cs)
    acc.
Proof.
  induction cs as [|[name model] r IH]; intros [t st]; [reflexivity|].
  cbn [filter snd]. destruct (has_default model) as [hd|] eqn:Hd.
  - unfold discover in *. cbn [fold_left]. apply IH.
  - unfold discover in *. cbn [fold_left].
    assert (E : discover_step wl s debug allow_opt (t, st) (name, model) = (t, st)).
    { unfold discover_step, eligible. rewrite Hd. now rewrite app_nil_r. }
    rewrite E. apply IH.
Qed.

Lemma candidates_prune ps :
  candidates (prune ps) =
  filter (fun c => match has_default (snd c) with Some _ => true | None => false end)
         (candidates ps).
Proof.
  induction ps as [|p r IH]; [reflexivity|].
  rewrite candidates_cons, filter_app, <- IH. unfold prune at 1. cbn [filter].
  destruct (is_folder p); [|reflexivity].
  cbn [map]. rewrite candidates_cons. cbn [is_folder name imported]. f_equal.
  induction (imported p) as [|[fn m] l IHl]; [reflexivity|].
  cbn [filter]. unfold entry_point at 1. cbn [fst snd].
  destruct (str_in "model" fn) eqn:Hfn; cbn [andb map filter snd fst].
  - destruct (has_default m) eqn:Hd; cbn [filter map fst snd]; rewrite ?Hfn;
      cbn [map fst snd]; now rewrite IHl.
  - exact IHl.
Qed.

(** X1: discovery passes over the items of the product directory that are
    not folders, the symbols whose name does not contain "model" and the
    symbols without the [has_default] attribute: it probes, prints and
    returns exactly what it does on the directory without them. *)
Theorem discovery_ignores_non_entry_points
    (B : string -> list plugin) wl sensor product debug allow_opt kw t :
  get_methods B wl sensor product debug allow_opt kw t =
  get_methods (fun p => prune (B p)) wl sensor product debug allow_opt kw t.
Proof.
  rewrite !get_methods_run, candidates_prune.
  now rewrite (discover_skip wl (split_head "-" sensor) debug allow_opt
                 (candidates (B product))).
Qed.

Lemma probe_kwargs_default kw model :
  has_default model = Some true -> probe_kwargs kw model = kw.
Proof. intros H. unfold probe_kwargs. now rewrite H. Qed.

Lemma expected_probes_default wl s kw models :
  Forall (fun m => has_default m = Some true) models ->
  forall f x w s' kws,
    In (Call f x w s' kws) (expected_probes wl s kw models) -> kws = kw.
Proof.
  induction 1 as [|m r Hm _ IH]; intros f x w s' kws Hin; [destruct Hin|].
  cbn [expected_probes] in Hin. rewrite (probe_kwargs_default kw m Hm) in Hin.
  destruct Hin as [Heq|Hin]; [now inversion Heq | eauto].
Qed.

(** X2: with optimization disabled, every probe receives exactly the named
    parameters of the caller: no placeholder is added to them. *)
Theorem probes_receive_caller_kwargs
    (B : string -> list plugin) wl sensor product debug kw f x w s kws :
  In (Call f x w s kws) (events_of (get_methods B wl sensor product debug false kw)) ->
  kws = kw.
Proof.
  intros Hin. rewrite events_get_methods in Hin. apply discover_calls in Hin.
  cbn [kwargs] in Hin. eapply expected_probes_default; [|exact Hin].
  apply Forall_forall. intros m Hm. apply filter_In in Hm.
  now apply eligible_no_opt.
Qed.

Lemma expected_probes_split wl s : forall pre models kw model x w s' kw0 post,
  expected_probes wl s kw models = pre ++ Call model x w s' kw0 :: post ->
  exists kw1 rest,
    kw0 = probe_kwargs kw1 model /\ post = expected_probes wl s kw0 rest.
Proof.
  induction pre as [|ev pre IH]; intros [|m r] kw model x w s' kw0 post H;
    try discriminate.
  - cbn [expected_probes app] in H. inversion H; subst. eauto.
  - cbn [expected_probes app] in H. inversion H; subst. eauto.
Qed.

(** X3: the placeholders stay.  Once a candidate whose [has_default] is
    false has been probed, every later probe of the same pass, of whichever
    candidate, receives the value 1 for each name in that candidate's
    [opt_vars]. *)
Theorem placeholders_persist
    (B : string -> list plugin) wl sensor product debug allow_opt kw
    pre model x w s kw0 post :
  call_events (events_of (get_methods B wl sensor product debug allow_opt kw)) =
    pre ++ Call model x w s kw0 :: post ->
  has_default model = Some false ->
  forall f x' w' s' kws k,
    In (Call f x' w' s' kws) post -> In k (opt_vars model) ->
    Dict.get k kws = Some 1%Z.
Proof.
  intros Hsplit Hd f x' w' s' kws k Hin Hk.
  rewrite events_get_methods, discover_probes in Hsplit.
  apply expected_probes_split in Hsplit. destruct Hsplit as (kw1 & rest & -> & ->).
  apply expected_probes_spec in Hin. destruct Hin as (_ & _ & H2 & _).
  destruct (H2 k) as [E|E]; [exact E|].
  rewrite E. now apply probe_kwargs_placeholder.
Qed.

Lemma discover_kwargs_no_opt wl s debug cs : forall st,
  kwargs (snd (discover wl s debug false cs ([], st))) = kwargs st.
Proof.
  induction cs as [|[name model] r IH]; intros st; [reflexivity|].
  rewrite discover_cons. cbn [snd]. rewrite IH.
  unfold discover_step. destruct (eligible false model) eqn:He; [|reflexivity].
  apply eligible_no_opt in He. rewrite (probe_kwargs_default _ _ He).
  destruct (call model _ wl s _) as [[a|]|e]; reflexivity.
Qed.

Lemma discover_keeps_entry wl s debug cs : forall st k p,
  Dict.get k (methods st) = Some p ->
  (forall name model out,
     In (name, model) cs -> has_default model = Some true ->
     call model (np_ones 1 (List.length wl)) wl s (kwargs st) = Returned (Some out) ->
     display_name name model <> k) ->
  Dict.get k (methods (snd (discover wl s debug false cs ([], st)))) = Some p.
Proof.
  induction cs as [|[name model] r IH]; intros st k p Hg Hno; [exact Hg|].
  rewrite discover_cons. cbn [snd]. apply IH.
  - unfold discover_step. destruct (eligible false model) eqn:He; [|exact Hg].
    apply eligible_no_opt in He. rewrite (probe_kwargs_default _ _ He).
    destruct (call model _ wl s _) as [[a|]|e] eqn:Hc; cbn [snd methods]; try exact Hg.
    rewrite DictFacts.get_set_ne; [exact Hg|].
    intros ->. eapply (Hno name model a); auto. now left.
  - intros name' model' out Hin Hd Hc.
    apply (Hno name' model' out); [now right | exact Hd |].
    rewrite <- Hc. f_equal.
    pose proof (discover_kwargs_no_opt wl s debug [(name, model)] st) as E.
    unfold discover in E. cbn [fold_left] in E. symmetry. exact E.
Qed.

(** X4: the last registration wins.  With optimization disabled, when a
    candidate with defaults has a probe that returns a value, and no later
    candidate with defaults and a successful probe has the same display
    name, the registry maps that display name to this candidate with the
    truncated sensor bound in, whatever was registered under the name
    before. *)
Theorem last_registration_wins
    (B : string -> list plugin) wl sensor product debug kw l1 name model l2 out reg :
  let s := split_head "-" sensor in
  candidates (B product) = l1 ++ (name, model) :: l2 ->
  has_default model = Some true ->
  call model (np_ones 1 (List.length wl)) wl s kw = Returned (Some out) ->
  (forall name' model' out',
     In (name', model') l2 -> has_default model' = Some true ->
     call model' (np_ones 1 (List.length wl)) wl s kw = Returned (Some out') ->
     display_name name' model' <> display_name name model) ->
  outcome (get_methods B wl sensor product debug false kw) = Returned reg ->
  Dict.get (display_name name model) reg = Some (bound s name model).
Proof.
  intros s Hsplit Hd Hc Hlater Hreg.
  rewrite outcome_get_methods in Hreg. inversion Hreg; subst reg; clear Hreg.
  fold s. rewrite Hsplit.
  change (l1 ++ (name, model) :: l2) with (l1 ++ [(name, model)] ++ l2).
  rewrite !discover_app.
  destruct (discover wl s debug false l1 ([], {| methods := []; kwargs := kw |}))
    as [t1 st1] eqn:E1.
  assert (Hk1 : kwargs st1 = kw).
  { pose proof (discover_kwargs_no_opt wl s debug l1 {| methods := []; kwargs := kw |}) as H.
    rewrite E1 in H. exact H. }
  unfold discover at 2. cbn [fold_left]. rewrite discover_step_nil, discover_trace.
  cbn [snd]. apply discover_keeps_entry.
  - unfold discover_step, eligible. rewrite Hd. cbn [orb].
    rewrite (probe_kwargs_default _ _ Hd), Hk1, Hc. cbn [snd methods].
    apply DictFacts.get_set_eq.
  - intros name' model' out' Hin Hd' Hc'. apply (Hlater name' model' out'); auto.
    rewrite <- Hc'. f_equal.
    unfold discover_step, eligible. rewrite Hd. cbn [orb].
    rewrite (probe_kwargs_default _ _ Hd), Hk1, Hc. reflexivity.
Qed.

(** Without [debug] a discovery pass leaves its probes in the trace and
    nothing else. *)
Lemma discover_quiet_probes wl s allow_opt cs : forall st,
  fst (discover wl s false allow_opt cs ([], st)) =
  expected_probes wl s (kwargs st) (filter (eligible allow_opt) (map snd cs)).
Proof.
  induction cs as [|[name model] r IH]; intros st; [reflexivity|].
  rewrite discover_cons. cbn [fst]. rewrite IH. cbn [map snd filter].
  unfold discover_step. destruct (eligible allow_opt model).
  - cbn [expected_probes].
    destruct (call model _ wl s _) as [[a|]|e]; reflexivity.
  - cbn [fst snd app]. destruct (has_default model); reflexivity.
Qed.

(** X19: the [debug] flag decides what is printed and nothing else.  With
    and without it discovery returns the same registry, and what happens
    without it is what happens with it less the printed lines: the same
    probes with the same arguments in the same order. *)
Theorem debug_only_affects_printing
    (B : string -> list plugin) wl sensor product allow_opt kw :
  outcome (get_methods B wl sensor product false allow_opt kw) =
    outcome (get_methods B wl sensor product true allow_opt kw) /\
  events_of (get_methods B wl sensor product false allow_opt kw) =
    call_events (events_of (get_methods B wl sensor product true allow_opt kw)).
Proof.
  rewrite !outcome_get_methods, !events_get_methods, !discover_registry.
  rewrite discover_probes, discover_quiet_probes. split; reflexivity.
Qed.

(* ================================================================= *)
(** ** Further properties of the orchestrator *)

Lemma for_each_app {A C} (f : A -> C -> M A) (l1 l2 : list C) (a : A) t :
  for_each f (l1 ++ l2) a t = bind (for_each f l1 a) (for_each f l2) t.
Proof.
  revert a t. induction l1 as [|c r IH]; intros a t; cbn [app for_each].
  - reflexivity.
  - unfold bind. destruct (f a c t) as [t' [a'|e]]; [|reflexivity].
    rewrite IH. reflexivity.
Qed.

(** A loop stops at the first iteration that raises. *)
Lemma for_each_raises_at {A C} (f : A -> C -> M A) l1 c l2 a t t1 a1 t2 e :
  for_each f l1 a t = (t1, Returned a1) ->
  f a1 c t1 = (t2, Raised e) ->
  for_each f (l1 ++ c :: l2) a t = (t2, Raised e).
Proof.
  intros H1 H2. rewrite for_each_app. unfold bind. rewrite H1.
  cbn [for_each]. unfold bind. now rewrite H2.
Qed.

(** X10: the chlorophyll post-processing of lines 73-75 keeps the shape of
    the estimate (the number of columns, of rows, and the length of each
    row), applied twice it gives what it gives applied once, and it leaves
    an estimate unchanged whose elements are all finite and not below
    zero. *)
Theorem clamp_idempotent a :
  ncols (clamp a) = ncols a /\
  map (@List.length float) (rows (clamp a)) = map (@List.length float) (rows a) /\
  clamp (clamp a) = clamp a /\
  (Forall (Forall (fun e => physical e = true)) (rows a) -> clamp a = a).
Proof.
  repeat split.
  - rewrite clamp_rows, map_map. apply map_ext. intros r. apply length_map.
  - apply ndarray_eq; [reflexivity|].
    rewrite !clamp_rows, map_map. apply map_ext. intros r.
    rewrite map_map. apply map_ext. apply clamp_element_idempotent.
  - intros H. apply ndarray_eq; [reflexivity|].
    rewrite clamp_rows. induction H as [|r rs Hr _ IH]; [reflexivity|].
    cbn [map]. f_equal; [|exact IH].
    induction Hr as [|e es He _ IHe]; [reflexivity|].
    cbn [map]. now rewrite clamp_element_fixes, IHe.
Qed.

Lemma run_events_silent perf y slices product waves
    (l : list (string * partial * ndarray)) :
  flat_map (run_events perf y slices true product waves) l = map (run_call waves) l.
Proof.
  induction l as [|[[k p] x] r IH]; [reflexivity|].
  cbn [flat_map map]. rewrite IH. reflexivity.
Qed.

(** An entry that returns no view leaves the test data as they are. *)
Lemma next_own product waves x p :
  (forall a, run_partial x waves p = Returned (Some a) -> exists a0, a = Own a0) ->
  next product waves x p = x.
Proof.
  intros H. unfold next, postprocess.
  destruct (run_partial x waves p) as [[a|]|e]; [| |reflexivity].
  - destruct (H a eq_refl) as (a0 & ->).
    destruct (String.eqb product "chl"); reflexivity.
  - destruct (String.eqb product "chl"); reflexivity.
Qed.

Lemma turns_own product waves : forall l x,
  (forall turn a,
     In turn (turns product waves x l) ->
     run_partial (snd turn) waves (snd (fst turn)) = Returned (Some a) ->
     exists a0, a = Own a0) ->
  forall turn, In turn (turns product waves x l) -> snd turn = x.
Proof.
  induction l as [|kp r IH]; intros x Hown turn Hin; [destruct Hin|].
  cbn [turns] in Hin, Hown.
  assert (Hnext : next product waves x (snd kp) = x).
  { apply next_own. intros a Ha. apply (Hown (kp, x) a); [now left | exact Ha]. }
  rewrite Hnext in Hin, Hown.
  destruct Hin as [<-|Hin]; [reflexivity|].
  apply IH; [|exact Hin]. intros turn' a Hin'. apply Hown. now right.
Qed.

Lemma turns_app product waves : forall l1 l2 x,
  turns product waves x (l1 ++ l2) =
  turns product waves x l1 ++ turns product waves (finally product waves x l1) l2.
Proof.
  induction l1 as [|kp r IH]; intros l2 x; [reflexivity|].
  cbn [app turns]. rewrite IH. reflexivity.
Qed.

Section MoreOrchestration.

Variable Args : Type.
Variable gsb : string -> Args -> list Z.
Variable perf : string -> list float -> pyval -> string.
Variable B : string -> list plugin.

(** X5: with [method=None] and [silent] set, when every registered callable
    returns on the test data as the entries before it left them (a value
    that is not [None] for the chlorophyll product), the orchestrator
    invokes each registry entry once, in registry order, after discovery,
    and returns one estimate per registry entry under the registry's keys,
    in the same order.  What an entry is invoked on is the caller's data
    with some elements that are not finite or are below zero replaced by
    zero, and it is the caller's data themselves for a product other than
    chlorophyll or when no entry returns a view of the test data. *)
Theorem all_methods_run_in_registry_order args sensor x y slices product :
  let waves := gsb sensor args in
  let reg := registry_of B waves sensor product in
  let discovery := get_methods B waves sensor product true false [("tol", 15%Z)] in
  let todo := turns product waves x reg in
  ncols x <= List.length waves ->
  (forall turn, In turn todo ->
     exists out, run_partial (snd turn) waves (snd (fst turn)) = Returned out /\
                 (product = "chl" -> out <> None)) ->
  (forall t,
     bench_product gsb perf B args sensor x y slices true product None t =
     (t ++ events_of discovery ++ map (run_call waves) todo,
      Returned (finally product waves x reg,
                map (fun turn => (fst (fst turn),
                                  estimate product (snd turn) waves (snd (fst turn))))
                    todo))) /\
  map fst todo = reg /\
  (forall turn, In turn todo -> zeroed x (snd turn)) /\
  (product <> "chl" \/
   (forall turn a,
      In turn todo -> run_partial (snd turn) waves (snd (fst turn)) = Returned (Some a) ->
      exists a0, a = Own a0) ->
   forall turn, In turn todo -> snd turn = x).
Proof.
  intros waves reg discovery todo Hn Hall. split; [|split; [|split]].
  - intros t. rewrite bench_product_returns; auto.
    + fold waves reg discovery. unfold expected_estimates.
      rewrite selection_all. fold todo. now rewrite run_events_silent.
    + fold waves reg. rewrite selection_all. intros turn Hin.
      destruct (Hall turn Hin) as (out & Hc & Hchl).
      exists out. repeat split; auto. discriminate.
  - apply turns_fst.
  - intros turn Hin. apply (turns_zeroed product waves reg x turn Hin).
  - intros [Hp|Hown] turn Hin.
    + unfold todo in Hin. rewrite turns_other in Hin by exact Hp.
      apply in_map_iff in Hin. destruct Hin as (kp & <- & _). reflexivity.
    + exact (turns_own product waves reg x Hown turn Hin).
Qed.

(** The loop of lines 69-87 up to an entry whose iteration raises. *)
Lemma loop_fails_at y slices silent product waves l1 k p l2 new e :
  forall x,
    (forall turn, In turn (turns product waves x l1) ->
                  completes perf y slices silent product waves turn) ->
    (forall acc t,
       run_method perf y slices silent product None waves
         (finally product waves x l1, acc) (k, p) t =
       (t ++ new, Raised e)) ->
    forall acc t,
      for_each (run_method perf y slices silent product None waves)
        (l1 ++ (k, p) :: l2) (x, acc) t =
      (t ++ flat_map (run_events perf y slices silent product waves)
                     (turns product waves x l1) ++ new,
       Raised e).
Proof.
  intros x Hall Hfail acc t.
  eapply for_each_raises_at.
  - apply loop_returns. now rewrite selection_all.
  - rewrite !selection_all, Hfail, <- app_assoc. reflexivity.
Qed.

(** X6: with [method=None], an error raised by a registered algorithm, on
    the test data as the entries before it left them, is not handled.
    When the turns of the entries before it have completed, the
    orchestrator raises that error right after invoking the failing entry:
    the entries after it are never invoked and the estimates computed so
    far are not returned. *)
Theorem first_error_aborts_run args sensor x y slices silent product l1 k p l2 e :
  let waves := gsb sensor args in
  let discovery := get_methods B waves sensor product true false [("tol", 15%Z)] in
  let xk := finally product waves x l1 in
  silent || given y = true ->
  ncols x <= List.length waves ->
  registry_of B waves sensor product = l1 ++ (k, p) :: l2 ->
  (forall turn, In turn (turns product waves x l1) ->
                completes perf y slices silent product waves turn) ->
  run_partial xk waves p = Raised e ->
  forall t,
    bench_product gsb perf B args sensor x y slices silent product None t =
    (t ++ events_of discovery
       ++ flat_map (run_events perf y slices silent product waves)
                   (turns product waves x l1)
       ++ [run_call waves (k, p, xk)],
     Raised e).
Proof.
  intros waves discovery xk Hy Hn Hreg Hall Hc t.
  rewrite bench_product_run. cbn zeta. fold waves discovery.
  apply Nat.leb_le in Hn. rewrite Hy, Hn, Hreg. cbn [negb].
  rewrite loop_fails_at with (new := [run_call waves (k, p, xk)]) (e := e); auto.
  - now rewrite <- app_assoc.
  - intros [ests lbls] t'. rewrite run_method_run by reflexivity.
    cbn zeta. fold xk. now rewrite Hc.
Qed.

(** X7: with [method=None], for the chlorophyll product an algorithm that
    returns [None] on the test data makes the orchestrator raise a
    [TypeError] (line 74 indexes the estimate), where the same algorithm
    passed its probe by returning a value on the matrix of ones.  The
    error comes right after that algorithm is invoked, once the turns of
    the entries before it have completed. *)
Theorem chl_none_estimate_raises args sensor x y slices silent l1 k p l2 :
  let waves := gsb sensor args in
  let discovery := get_methods B waves sensor "chl" true false [("tol", 15%Z)] in
  let xk := finally "chl" waves x l1 in
  silent || given y = true ->
  ncols x <= List.length waves ->
  registry_of B waves sensor "chl" = l1 ++ (k, p) :: l2 ->
  (forall turn, In turn (turns "chl" waves x l1) ->
                completes perf y slices silent "chl" waves turn) ->
  run_partial xk waves p = Returned None ->
  forall t,
    bench_product gsb perf B args sensor x y slices silent "chl" None t =
    (t ++ events_of discovery
       ++ flat_map (run_events perf y slices silent "chl" waves) (turns "chl" waves x l1)
       ++ [run_call waves (k, p, xk)],
     Raised TypeError).
Proof.
  intros waves discovery xk Hy Hn Hreg Hall Hc t.
  rewrite bench_product_run. cbn zeta. fold waves discovery.
  apply Nat.leb_le in Hn. rewrite Hy, Hn, Hreg. cbn [negb].
  rewrite loop_fails_at with (new := [run_call waves (k, p, xk)]) (e := TypeError); auto.
  - now rewrite <- app_assoc.
  - intros [ests lbls] t'. rewrite run_method_run by reflexivity.
    cbn zeta. fold xk. now rewrite Hc.
Qed.

(** X8: when discovery registers nothing, the orchestrator with
    [method=None] returns the empty mapping once the checks of lines 59 and
    62 pass: no algorithm is invoked, and neither the ground truth nor the
    slice mapping is looked at, so a missing or ambiguous slice mapping
    raises nothing. *)
Theorem empty_registry_returns_empty args sensor x y slices silent product :
  let waves := gsb sensor args in
  let discovery := get_methods B waves sensor product true false [("tol", 15%Z)] in
  silent || given y = true ->
  ncols x <= List.length waves ->
  registry_of B waves sensor product = [] ->
  forall t,
    bench_product gsb perf B args sensor x y slices silent product None t =
    (t ++ events_of discovery, Returned (x, [])).
Proof.
  intros waves discovery Hy Hn Hreg t.
  rewrite bench_product_run. cbn zeta. fold waves discovery.
  apply Nat.leb_le in Hn. rewrite Hy, Hn, Hreg. reflexivity.
Qed.


End MoreOrchestration.


(* ================================================================= *)
(** ** The analytic inversion and the dispatcher *)

Lemma NoDup_keys_of_list {V} (l : list (string * V)) :
  NoDup (Dict.keys (Dict.of_list l)).
Proof.
  unfold Dict.of_list, Dict.update.
  assert (G : forall (d : Dict.t V), NoDup (Dict.keys d) ->
              NoDup (Dict.keys (fold_left (fun acc kv => Dict.set (fst kv) (snd kv) acc) l d))).
  { induction l as [|[k v] r IH]; intros d Hd; [exact Hd|].
    cbn [fold_left]. apply IH. now apply DictFacts.NoDup_keys_set. }
  apply G. constructor.
Qed.

Lemma update_empty_of_list {V} (l : list (string * V)) :
  Dict.update [] (Dict.of_list l) = Dict.of_list l.
Proof.
  change (Dict.of_list (Dict.of_list l) = Dict.of_list l).
  apply DictFacts.of_list_NoDup. apply NoDup_keys_of_list.
Qed.

Lemma combine_fst_snd {X Y} (l : list (X * Y)) : combine (map fst l) (map snd l) = l.
Proof. induction l as [|[a b] r IH]; [reflexivity|]. cbn. now rewrite IH. Qed.

(** A comprehension that tests the first character of each key raises at an
    empty key, and is a filter otherwise. *)
Lemma filter_m_first_char (p : string -> M bool) (g : string -> bool) :
  (forall k t, p k t = (t, match k with
                           | EmptyString => Raised IndexError
                           | String _ _ => Returned (g k)
                           end)) ->
  forall ks t,
    filter_m p ks t =
    (t, if existsb (String.eqb EmptyString) ks then Raised IndexError
        else Returned (filter g ks)).
Proof.
  intros Hp. induction ks as [|k r IH]; intros t; [reflexivity|].
  cbn [filter_m]. unfold bind. rewrite Hp, IH.
  destruct k as [|c k']; [reflexivity|].
  destruct (existsb (String.eqb EmptyString) r) eqn:E;
    cbn [existsb filter]; rewrite E; reflexivity.
Qed.

Lemma existsb_empty_key (ks : list string) :
  existsb (String.eqb EmptyString) ks = true <-> In EmptyString ks.
Proof.
  rewrite existsb_exists. split.
  - intros (k & Hin & Hk). apply String.eqb_eq in Hk. now subst.
  - intros Hin. exists EmptyString. split; [exact Hin | reflexivity].
Qed.

Lemma no_empty_key (ks : list string) :
  Forall (fun k => k <> EmptyString) ks ->
  existsb (String.eqb EmptyString) ks = false.
Proof.
  intros H. destruct (existsb _ ks) eqn:E; [|reflexivity].
  apply existsb_empty_key in E. rewrite Forall_forall in H.
  now destruct (H _ E).
Qed.

Lemma first_char_in_run cs k t :
  first_char_in cs k t =
  (t, match k with
      | EmptyString => Raised IndexError
      | String c _ => Returned (match k with
                                | EmptyString => false
                                | String c _ => existsb (Ascii.eqb c) cs
                                end)
      end).
Proof. destruct k; reflexivity. Qed.

Lemma iop_key_run k t :
  iop_key k t =
  (t, match k with
      | EmptyString => Raised IndexError
      | String _ _ => Returned (is_iop_key k)
      end).
Proof. destruct k; reflexivity. Qed.

Lemma index_run {A} (l : list A) i d t :
  i < List.length l -> index l i t = (t, Returned (nth i l d)).
Proof.
  intros H. unfold index. rewrite (nth_error_nth' l d H). reflexivity.
Qed.

Lemma index_out_of_range {A} (l : list A) i t :
  List.length l <= i -> index l i t = (t, @Raised A IndexError).
Proof.
  intros H. unfold index. apply nth_error_None in H. rewrite H. reflexivity.
Qed.

Lemma runs_Run o t : runs (Run o :: t) = o :: runs t.
Proof. reflexivity. Qed.

Section MoreDispatch.

Variable Args : Type.
Variable gsb : string -> Args -> list Z.
Variable perf : string -> list float -> pyval -> string.
Variable B : string -> list plugin.
Variable QAA : ndarray -> list Z -> Dict.t ndarray.
Variable other : list Z -> Z -> string * string.
Variable ml :
  Args -> string -> option ndarray -> option ndarray -> ndarray ->
  ndarray -> Dict.t pyslice -> bool -> bool -> list string * result (Dict.t pyval).

(** One column of one slice key (lines 250-254). *)
Lemma qaa_column_run name waves silent ins est ests lbls i t :
  i < List.length waves ->
  qaa_column perf other name waves silent ins est (ests, lbls) i t =
  (t ++ (if silent then []
         else [Printed (Report (perf (qaa_report_label other name waves (nth i waves 0%Z))
                                     (column i ins) (Arr1 (column i est))))]),
   Returned (ests ++ [Arr1 (column i est)],
             lbls ++ [qaa_label other name waves (nth i waves 0%Z)])).
Proof.
  intros Hi. unfold qaa_column, bind.
  destruct silent; cbn [negb when].
  - cbn [ret]. rewrite (index_run waves 0%Z t Hi). now rewrite app_nil_r.
  - unfold bind. rewrite (index_run waves 0%Z t Hi). unfold print, emit.
    rewrite (index_run waves 0%Z _ Hi). reflexivity.
Qed.

Lemma qaa_column_out_of_range name waves silent ins est acc i t :
  List.length waves <= i ->
  qaa_column perf other name waves silent ins est acc i t = (t, Raised IndexError).
Proof.
  intros Hi. unfold qaa_column, bind. destruct acc as [ests lbls].
  destruct silent; cbn [negb when].
  - cbn [ret]. now rewrite index_out_of_range.
  - unfold bind. now rewrite index_out_of_range.
Qed.

Lemma qaa_columns_run name waves silent ins est : forall n s acc t,
  s + n <= List.length waves ->
  for_each (qaa_column perf other name waves silent ins est) (seq s n) acc t =
  (t ++ (if silent then []
         else map (fun i => Printed (Report (perf (qaa_report_label other name waves
                                                     (nth i waves 0%Z))
                                                  (column i ins) (Arr1 (column i est)))))
                  (seq s n)),
   Returned (fst acc ++ map (fun i => Arr1 (column i est)) (seq s n),
             snd acc ++ map (fun i => qaa_label other name waves (nth i waves 0%Z))
                            (seq s n))).
Proof.
  induction n as [|n IH]; intros s [ests lbls] t Hn.
  - cbn. destruct silent; now rewrite !app_nil_r.
  - cbn [seq for_each map]. unfold bind.
    rewrite qaa_column_run by lia. rewrite IH by lia. cbn [fst snd].
    rewrite <- !app_assoc. destruct silent; reflexivity.
Qed.

(** One slice key that is ready (lines 245-254). *)
Lemma qaa_param_run y slices silent waves qaa acc name t :
  qaa_ready y slices waves qaa name = true ->
  qaa_param perf other y slices silent waves qaa acc name t =
  (t ++ (if silent then [] else qaa_reports perf other y slices waves qaa name),
   Returned (fst acc ++ map snd (qaa_entries other waves qaa name),
             snd acc ++ map fst (qaa_entries other waves qaa name))).
Proof.
  unfold qaa_ready, qaa_param, qaa_reports, qaa_entries.
  destruct (Dict.get (replace "_" EmptyString name) qaa) as [est|]; [|discriminate].
  unfold getitem, bind. destruct (Dict.get name slices) as [sl|]; [|discriminate].
  intros H. apply andb_prop in H. destruct H as [H Hw].
  apply andb_prop in H. destruct H as [Hr Hc].
  cbn [ret shape fst snd]. rewrite Hr, Hc. cbn [andb assert ret].
  apply Nat.eqb_eq in Hc. apply Nat.leb_le in Hw.
  rewrite Hc. rewrite qaa_columns_run by (cbn; exact Hw).
  rewrite !map_map. cbn [fst snd]. reflexivity.
Qed.

Lemma qaa_params_run y slices silent waves qaa : forall names acc t,
  forallb (qaa_ready y slices waves qaa) names = true ->
  for_each (qaa_param perf other y slices silent waves qaa) names acc t =
  (t ++ (if silent then [] else flat_map (qaa_reports perf other y slices waves qaa) names),
   Returned (fst acc ++ map snd (flat_map (qaa_entries other waves qaa) names),
             snd acc ++ map fst (flat_map (qaa_entries other waves qaa) names))).
Proof.
  induction names as [|name r IH]; intros [ests lbls] t H.
  - cbn. destruct silent; now rewrite !app_nil_r.
  - cbn [forallb] in H. apply andb_prop in H. destruct H as [H1 H2].
    cbn [for_each flat_map]. unfold bind.
    rewrite qaa_param_run by exact H1. rewrite IH by exact H2. cbn [fst snd].
    rewrite !map_app, <- !app_assoc. destruct silent; reflexivity.
Qed.

(** [bench_qaa] once its comprehension has passed. *)
Lemma bench_qaa_run args sensor x y slices silent t :
  Forall (fun k => k <> EmptyString) (Dict.keys slices) ->
  bench_qaa gsb perf QAA other args sensor x y slices silent t =
  match for_each (qaa_param perf other y slices silent (gsb sensor args)
                    (QAA x (firstn (ncols x) (gsb sensor args))))
          (filter starts_ab (Dict.keys slices)) ([], []) t with
  | (t', Returned (ests, lbls)) => (t', Returned (Dict.of_list (combine lbls ests)))
  | (t', Raised e) => (t', Raised e)
  end.
Proof.
  intros Hk. unfold bench_qaa. unfold bind at 1.
  rewrite (filter_m_first_char (first_char_in ["a"; "b"]%char) starts_ab)
    by (intros k t'; destruct k; reflexivity).
  rewrite no_empty_key by exact Hk. unfold bind.
  destruct (for_each _ _ _ t) as [t' [[ests lbls]|e]]; reflexivity.
Qed.

(** X11: when no slice key is empty and every slice key that begins with
    [a] or [b] is ready (the inversion has an output under the key without
    its underscores, of the shape of the key's ground-truth columns, with no
    more columns than the sensor has wavelengths), [bench_qaa] returns one
    entry per such key and output column, labelled with "QAA", the key and
    the wavelength at the column's position in the sensor's band list; it
    prints one report per entry unless [silent] is set, and nothing else.
    When every band of the sensor fits a signed 64-bit integer the
    wavelength stands in the labels in decimal; otherwise numpy holds the
    bands in another dtype and the labels show them as it prints that
    dtype. *)
Theorem bench_qaa_returns args sensor x y slices silent :
  let waves := gsb sensor args in
  let qaa := QAA x (firstn (ncols x) waves) in
  let param := filter starts_ab (Dict.keys slices) in
  Forall (fun k => k <> EmptyString) (Dict.keys slices) ->
  forallb (qaa_ready y slices waves qaa) param = true ->
  (forall t,
     bench_qaa gsb perf QAA other args sensor x y slices silent t =
     (t ++ (if silent then []
            else flat_map (qaa_reports perf other y slices waves qaa) param),
      Returned (Dict.of_list (flat_map (qaa_entries other waves qaa) param)))) /\
  (forallb int64 waves = true ->
   forall name w,
     qaa_label other name waves w =
       String.append "QAA " (String.append name (str_of_Z w)) /\
     qaa_report_label other name waves w =
       String.append "QAA " (String.append name (str_of_Z w))).
Proof.
  intros waves qaa param Hk Hready. split.
  - intros t. rewrite bench_qaa_run by exact Hk. fold waves qaa param.
    rewrite qaa_params_run by exact Hready. cbn [fst snd app].
    now rewrite combine_fst_snd.
  - intros Hint name w. unfold qaa_label, qaa_report_label, format_s, format_i.
    now rewrite Hint.
Qed.

(** X12: a slice key that begins with [a] or [b] and has no inversion output
    under its name without underscores makes [bench_qaa] print the keys the
    inversion does have, also when [silent] is set, and raise the assertion
    of line 257 for the missing name; the keys before it have been
    processed, the keys after it are not. *)
Theorem bench_qaa_missing_output args sensor x y slices silent l1 name l2 :
  let waves := gsb sensor args in
  let qaa := QAA x (firstn (ncols x) waves) in
  Forall (fun k => k <> EmptyString) (Dict.keys slices) ->
  filter starts_ab (Dict.keys slices) = l1 ++ name :: l2 ->
  forallb (qaa_ready y slices waves qaa) l1 = true ->
  Dict.get (replace "_" EmptyString name) qaa = None ->
  forall t,
    bench_qaa gsb perf QAA other args sensor x y slices silent t =
    (t ++ (if silent then [] else flat_map (qaa_reports perf other y slices waves qaa) l1)
       ++ [Printed (Keys (Dict.keys qaa))],
     Raised (AssertionError (NotFound (replace "_" EmptyString name)))).
Proof.
  intros waves qaa Hk Hsplit Hready Hmiss t.
  rewrite bench_qaa_run by exact Hk. fold waves qaa. rewrite Hsplit.
  erewrite for_each_raises_at.
  - reflexivity.
  - apply qaa_params_run. exact Hready.
  - unfold qaa_param. rewrite Hmiss. unfold bind, print, emit, raise.
    now rewrite <- app_assoc.
Qed.

(** X13: an inversion output whose shape differs from that of the
    ground-truth columns of its slice key makes [bench_qaa] raise the
    assertion of line 248, which carries both shapes, before anything is
    printed for that key. *)
Theorem bench_qaa_shape_mismatch args sensor x y slices silent l1 name l2 est sl :
  let waves := gsb sensor args in
  let qaa := QAA x (firstn (ncols x) waves) in
  Forall (fun k => k <> EmptyString) (Dict.keys slices) ->
  filter starts_ab (Dict.keys slices) = l1 ++ name :: l2 ->
  forallb (qaa_ready y slices waves qaa) l1 = true ->
  Dict.get (replace "_" EmptyString name) qaa = Some est ->
  Dict.get name slices = Some sl ->
  shape (getitem_cols y sl) <> shape est ->
  forall t,
    bench_qaa gsb perf QAA other args sensor x y slices silent t =
    (t ++ (if silent then [] else flat_map (qaa_reports perf other y slices waves qaa) l1),
     Raised (AssertionError (ShapeMismatch (shape (getitem_cols y sl)) (shape est)))).
Proof.
  intros waves qaa Hk Hsplit Hready Hest Hsl Hshape t.
  rewrite bench_qaa_run by exact Hk. fold waves qaa. rewrite Hsplit.
  erewrite for_each_raises_at.
  - reflexivity.
  - apply qaa_params_run. exact Hready.
  - unfold qaa_param. rewrite Hest. unfold getitem, bind. rewrite Hsl.
    cbn [ret].
    destruct (Nat.eqb (fst (shape (getitem_cols y sl))) (fst (shape est))
              && Nat.eqb (snd (shape (getitem_cols y sl))) (snd (shape est))) eqn:E.
    + exfalso. apply Hshape. apply andb_prop in E. destruct E as [E1 E2].
      apply Nat.eqb_eq in E1, E2.
      destruct (shape (getitem_cols y sl)), (shape est). cbn in *. congruence.
    + cbn [assert raise]. reflexivity.
Qed.

(** X14: the label of an output column takes the wavelength at the column's
    position in the sensor's band list, so an inversion output with more
    columns than the sensor has wavelengths makes [bench_qaa] raise an
    [IndexError], although its shape agrees with the ground truth. *)
Theorem bench_qaa_more_columns_than_bands
    args sensor x y slices silent l1 name l2 est sl :
  let waves := gsb sensor args in
  let qaa := QAA x (firstn (ncols x) waves) in
  Forall (fun k => k <> EmptyString) (Dict.keys slices) ->
  filter starts_ab (Dict.keys slices) = l1 ++ name :: l2 ->
  forallb (qaa_ready y slices waves qaa) l1 = true ->
  Dict.get (replace "_" EmptyString name) qaa = Some est ->
  Dict.get name slices = Some sl ->
  shape (getitem_cols y sl) = shape est ->
  List.length waves < ncols est ->
  outcome (bench_qaa gsb perf QAA other args sensor x y slices silent) = Raised IndexError.
Proof.
  intros waves qaa Hk Hsplit Hready Hest Hsl Hshape Hw.
  unfold outcome. rewrite bench_qaa_run by exact Hk. fold waves qaa. rewrite Hsplit.
  assert (Hcols : ncols (getitem_cols y sl) = ncols est).
  { unfold shape in Hshape. now inversion Hshape. }
  assert (Hseq : seq 0 (ncols est) =
                 seq 0 (List.length waves)
                   ++ List.length waves :: seq (S (List.length waves))
                                               (ncols est - S (List.length waves))).
  { replace (ncols est) with (List.length waves + S (ncols est - S (List.length waves)))
      at 1 by lia.
    rewrite seq_app. reflexivity. }
  erewrite for_each_raises_at.
  - reflexivity.
  - apply qaa_params_run. exact Hready.
  - unfold qaa_param. rewrite Hest. unfold getitem, bind at 1. rewrite Hsl.
    cbn [ret]. unfold bind at 1. rewrite Hshape, !Nat.eqb_refl. cbn [andb assert ret].
    rewrite Hcols, Hseq.
    erewrite for_each_raises_at.
    + reflexivity.
    + apply qaa_columns_run. cbn. lia.
    + apply qaa_column_out_of_range. lia.
Qed.

(** X15: an empty slice key is an error before anything runs: the test
    [k[0]] of lines 239 and 312 raises an [IndexError], in [bench_qaa] and
    in [run_benchmarks], and nothing is printed, invoked or started. *)
Theorem empty_slice_key_raises
    args sensor x y slices silent x_train y_train gridsearch with_ml t :
  In EmptyString (Dict.keys slices) ->
  bench_qaa gsb perf QAA other args sensor x y slices silent t = (t, Raised IndexError) /\
  run_benchmarks gsb perf B QAA other ml args sensor x y slices silent x_train y_train
    gridsearch with_ml t = (t, Raised IndexError).
Proof.
  intros Hin. apply existsb_empty_key in Hin. split.
  - unfold bench_qaa, bind.
    rewrite (filter_m_first_char (first_char_in ["a"; "b"]%char) starts_ab)
      by (intros k t'; destruct k; reflexivity).
    now rewrite Hin.
  - unfold run_benchmarks, bind.
    rewrite (filter_m_first_char iop_key is_iop_key) by (intros; apply iop_key_run).
    now rewrite Hin.
Qed.

(** X16: [bench_iop] is [bench_qaa]: it prints, raises and returns exactly
    what [bench_qaa] does on the same arguments. *)
Theorem bench_iop_is_bench_qaa args sensor x y slices silent t :
  bench_iop gsb perf QAA other args sensor x y slices silent t =
  bench_qaa gsb perf QAA other args sensor x y slices silent t.
Proof.
  unfold bench_iop, bind.
  destruct (bench_qaa gsb perf QAA other args sensor x y slices silent t)
    as [t' [r|e]] eqn:E; [|reflexivity].
  assert (Hr : exists l, r = Dict.of_list l).
  { unfold bench_qaa, bind in E.
    destruct (filter_m _ _ t) as [t1 [param|e1]]; [|discriminate].
    destruct (for_each _ param _ t1) as [t2 [[ests lbls]|e2]]; [|discriminate].
    inversion E; subst. eauto. }
  destruct Hr as (l & ->). unfold ret. now rewrite update_empty_of_list.
Qed.

(** X18: an error raised by a variant ends the dispatcher.  With no empty
    slice key: when the analytic inversion is selected and raises,
    [run_benchmarks] raises the same error and no other variant is started;
    when the chlorophyll orchestrator raises, after the analytic inversion
    returned or was not selected, [run_benchmarks] raises the same error and
    neither the learned bench nor the suspended-solids orchestrator is
    started. *)
Theorem dispatch_stops_at_first_error
    args sensor x y slices silent x_train y_train gridsearch with_ml :
  let qaa_on := existsb is_iop_key (Dict.keys slices) in
  let run :=
    run_benchmarks gsb perf B QAA other ml args sensor x y slices silent x_train y_train
      gridsearch with_ml in
  Forall (fun k => k <> EmptyString) (Dict.keys slices) ->
  (forall e,
     qaa_on = true ->
     outcome (bench_qaa gsb perf QAA other args sensor x y slices silent) = Raised e ->
     outcome run = Raised e /\ runs (events_of run) = [Qaa]) /\
  (forall q e,
     variant_returns qaa_on (bench_qaa gsb perf QAA other args sensor x y slices silent) q ->
     Dict.mem "chl" slices = true ->
     outcome (bench_chl gsb perf B args sensor x y slices silent) = Raised e ->
     outcome run = Raised e /\
     runs (events_of run) = (if qaa_on then [Qaa] else []) ++ [Product "chl"]).
Proof.
  intros qaa_on run Hk.
  assert (Hq := emits_bench_qaa gsb perf QAA other not_run args sensor x y slices silent
                  (fun _ => I)).
  destruct Hq as [Uq Fq].
  assert (Hc := emits_bench_product gsb perf B args sensor x (Some y) (Some slices)
                  silent "chl" None).
  destruct Hc as [Uc Fc].
  split.
  - intros e Hon Hfail.
    assert (E : run [] =
                (([] ++ [Run Qaa])
                   ++ events_of (bench_qaa gsb perf QAA other args sensor x y slices silent),
                 Raised e)).
    { unfold run. rewrite run_benchmarks_run by exact Hk. fold qaa_on. rewrite Hon.
      unfold bind at 1. unfold update_with, bind, emit.
      rewrite (Uq ([] ++ [Run Qaa])), Hfail. reflexivity. }
    unfold outcome at 1, events_of. rewrite E. cbn [fst snd]. split; [reflexivity|].
    rewrite !runs_app, !runs_Run, (runs_not_run Fq). reflexivity.
  - intros q e Hq Hchl Hfail. unfold variant_returns in Hq. unfold bench_chl in *.
    assert (E : run [] =
                ((([] ++ (if qaa_on
                          then Run Qaa :: events_of (bench_qaa gsb perf QAA other args
                                                       sensor x y slices silent)
                          else []))
                    ++ [Run (Product "chl")])
                   ++ events_of (bench_product gsb perf B args sensor x (Some y)
                                   (Some slices) silent "chl" None),
                 Raised e)).
    { unfold run. rewrite run_benchmarks_run by exact Hk. fold qaa_on. rewrite Hchl.
      unfold bench_chl. destruct qaa_on.
      - unfold bind at 1.
        rewrite (update_with_returns Qaa [] [] Uq Hq).
        unfold bind at 1. unfold bind at 1. unfold update_with_product at 1, bind, emit.
        rewrite (Uc (([] ++ _) ++ [Run (Product "chl")])), Hfail. reflexivity.
      - unfold bind at 1. cbn [ret].
        unfold bind at 1. unfold bind at 1. unfold update_with_product at 1, bind, emit.
        rewrite (Uc ([] ++ [Run (Product "chl")])), Hfail. reflexivity. }
    unfold outcome at 1, events_of. rewrite E. cbn [fst snd]. split; [reflexivity|].
    rewrite !runs_app, !runs_Run, (runs_not_run Fc).
    destruct qaa_on; [rewrite runs_Run, (runs_not_run Fq)|]; reflexivity.
Qed.

End MoreDispatch.
(* ================================================================= *)
(** ** The further properties on the example layouts *)

(** A plain module, a symbol without "model" in its name and a symbol
    without [has_default] leave no trace. *)
Example messy_layout_is_pruned :
  get_methods MoreFixtures.layout_messy Fixtures.oli "OLI" "chl" true false
    Fixtures.tol15 []
  = ([Call Fixtures.OC3 (np_ones 1 4) Fixtures.oli "OLI" Fixtures.tol15],
     Returned [("OC3", bound "OLI" "OC3" Fixtures.OC3)]).
Proof. reflexivity. Qed.

Lemma probes_receive_caller_kwargs_witness :
  Forall (fun ev => match ev with
                    | Call _ _ _ _ kws => kws = Fixtures.tol15
                    | _ => True
                    end)
         (events_of (get_methods MoreFixtures.layout_tuned_oc3 Fixtures.oli "OLI-rho" "chl"
                       true false Fixtures.tol15)).
Proof.
  apply Forall_forall. intros ev Hin. destruct ev as [f x w s kws|l|o]; [|exact I|exact I].
  exact (probes_receive_caller_kwargs MoreFixtures.layout_tuned_oc3 Fixtures.oli "OLI-rho"
           "chl" true Fixtures.tol15 f x w s kws Hin).
Defined.

Lemma placeholders_persist_witness :
  In (Call Fixtures.OC3 (np_ones 1 4) Fixtures.oli "OLI" [("tol", 15%Z); ("a", 1%Z)])
     (events_of (get_methods MoreFixtures.layout_tuned_oc3 Fixtures.oli "OLI" "chl"
                   true true Fixtures.tol15)) /\
  Dict.get "a" [("tol", 15%Z); ("a", 1%Z)] = Some 1%Z.
Proof.
  split; [right; left; reflexivity|].
  refine (placeholders_persist MoreFixtures.layout_tuned_oc3 Fixtures.oli "OLI" "chl"
            true true Fixtures.tol15 [] Fixtures.tuned (np_ones 1 4) Fixtures.oli "OLI"
            [("tol", 15%Z); ("a", 1%Z)]
            [Call Fixtures.OC3 (np_ones 1 4) Fixtures.oli "OLI" [("tol", 15%Z); ("a", 1%Z)]]
            eq_refl eq_refl Fixtures.OC3 (np_ones 1 4) Fixtures.oli "OLI"
            [("tol", 15%Z); ("a", 1%Z)] "a" _ _).
  - left. reflexivity.
  - left. reflexivity.
Defined.

Lemma last_registration_wins_witness :
  Dict.get "OC" (registry_of MoreFixtures.layout_twins Fixtures.oli "OLI" "chl")
  = Some (bound "OLI" "OC" MoreFixtures.OC2).
Proof.
  refine (last_registration_wins MoreFixtures.layout_twins Fixtures.oli "OLI" "chl" true
            Fixtures.tol15 [("OC", Fixtures.OC3)] "OC" MoreFixtures.OC2 []
            (out := Own (Fixtures.first_column (np_ones 1 4)))
            eq_refl eq_refl eq_refl _ eq_refl).
  intros name' model' out' [].
Defined.

(** The single sample [-1, 2, 3, 4] for chlorophyll: the first entry
    returns a view of the first band, its clamping writes the zero into the
    test data, and the second entry is invoked on [0, 2, 3, 4]. *)
Lemma all_methods_run_in_registry_order_witness :
  bench_product Fixtures.bands Fixtures.perf MoreFixtures.layout_band1_oc3 tt "OLI"
    (MoreFixtures.row4 (-1) 2 3 4) None None true "chl" None []
  = ([Call MoreFixtures.Band1 (np_ones 1 4) Fixtures.oli "OLI" Fixtures.tol15;
      Call Fixtures.OC3 (np_ones 1 4) Fixtures.oli "OLI" Fixtures.tol15;
      Call MoreFixtures.Band1 (MoreFixtures.row4 (-1) 2 3 4) Fixtures.oli "OLI"
        Fixtures.tol15;
      Call Fixtures.OC3 (MoreFixtures.row4 0 2 3 4) Fixtures.oli "OLI" Fixtures.tol15],
     Returned (MoreFixtures.row4 0 2 3 4,
               [("Band1", Shared 1 [[(0, 0)]]);
                ("OC3", Arr2 {| ncols := 1; rows := [[0%float]] |})])).
Proof.
  refine (proj1 (@all_methods_run_in_registry_order _ Fixtures.bands Fixtures.perf
                   MoreFixtures.layout_band1_oc3 tt "OLI" (MoreFixtures.row4 (-1) 2 3 4)
                   None None "chl" _ _) []).
  - vm_compute. lia.
  - intros turn Hin. vm_compute in Hin.
    destruct Hin as [<-|[<-|[]]]; eexists; (split; [reflexivity | discriminate]).
Defined.

(** The same sample: the first entry returns the test data themselves, so
    its clamping zeroes their first element, and the second entry, which
    returns on the caller's data, raises on what it is given. *)
Lemma first_error_aborts_run_witness :
  run_partial (MoreFixtures.row4 (-1) 2 3 4) Fixtures.oli
    (bound "OLI" "B_picky" MoreFixtures.picky)
  = Returned (Some (Own {| ncols := 1; rows := [[(-1)%float]] |})) /\
  bench_product Fixtures.bands Fixtures.perf MoreFixtures.layout_same_picky tt "OLI"
    (MoreFixtures.row4 (-1) 2 3 4) None None true "chl" None []
  = ([Call MoreFixtures.same (np_ones 1 4) Fixtures.oli "OLI" Fixtures.tol15;
      Call MoreFixtures.picky (np_ones 1 4) Fixtures.oli "OLI" Fixtures.tol15;
      Call MoreFixtures.same (MoreFixtures.row4 (-1) 2 3 4) Fixtures.oli "OLI"
        Fixtures.tol15;
      Call MoreFixtures.picky (MoreFixtures.row4 0 2 3 4) Fixtures.oli "OLI"
        Fixtures.tol15],
     Raised (ModelError "zero reflectance")).
Proof.
  split; [reflexivity|].
  refine (@first_error_aborts_run _ Fixtures.bands Fixtures.perf
            MoreFixtures.layout_same_picky tt "OLI" (MoreFixtures.row4 (-1) 2 3 4)
            None None true "chl"
            [("A_same", bound "OLI" "A_same" MoreFixtures.same)] "B_picky"
            (bound "OLI" "B_picky" MoreFixtures.picky) []
            (ModelError "zero reflectance") eq_refl _ eq_refl _ eq_refl []).
  - vm_compute. lia.
  - intros turn [<-|[]]. eexists. split; [reflexivity|].
    split; [discriminate | discriminate].
Defined.

Lemma chl_none_estimate_raises_witness :
  bench_product Fixtures.bands Fixtures.perf MoreFixtures.layout_echo_shy tt "OLI"
    (Fixtures.full 2 4 1) None None true "chl" None []
  = ([Call Fixtures.echo (np_ones 1 4) Fixtures.oli "OLI" Fixtures.tol15;
      Call MoreFixtures.shy (np_ones 1 4) Fixtures.oli "OLI" Fixtures.tol15;
      Call Fixtures.echo (Fixtures.full 2 4 1) Fixtures.oli "OLI" Fixtures.tol15;
      Call MoreFixtures.shy (Fixtures.full 2 4 1) Fixtures.oli "OLI" Fixtures.tol15],
     Raised TypeError).
Proof.
  refine (@chl_none_estimate_raises _ Fixtures.bands Fixtures.perf
            MoreFixtures.layout_echo_shy tt "OLI" (Fixtures.full 2 4 1) None None true
            [("Echo", bound "OLI" "echo" Fixtures.echo)] "Shy"
            (bound "OLI" "shy" MoreFixtures.shy) [] eq_refl _ eq_refl _ eq_refl []).
  - vm_compute. lia.
  - intros turn [<-|[]]. eexists. split; [reflexivity|].
    split; [discriminate | discriminate].
Defined.

Lemma empty_registry_returns_empty_witness :
  bench_product Fixtures.bands Fixtures.perf MoreFixtures.layout_nothing tt "OLI"
    (Fixtures.full 10 4 1) (Some (Fixtures.full 10 3 1)) None false "chl" None []
  = ([Call Fixtures.broken (np_ones 1 4) Fixtures.oli "OLI" Fixtures.tol15;
      Printed (ExceptionFor "Broken" (ModelError "no band near 709"))],
     Returned (Fixtures.full 10 4 1, [])).
Proof.
  refine (empty_registry_returns_empty Fixtures.bands Fixtures.perf
            MoreFixtures.layout_nothing tt "OLI" (Fixtures.full 10 4 1)
            (Some (Fixtures.full 10 3 1)) None false "chl" eq_refl _ eq_refl []).
  vm_compute. lia.
Defined.


Lemma bench_qaa_returns_witness :
  bench_qaa Fixtures.bands Fixtures.perf Fixtures.qaa_aph MoreFixtures.no_other tt "OLI"
    (Fixtures.full 2 4 1) (Fixtures.full 2 2 1) MoreFixtures.slices_a_ph false []
  = ([Printed (Report "QAA a_ph443")],
     Returned [("QAA a_ph443", Arr1 [1%float; 1%float])]) /\
  qaa_label MoreFixtures.no_other "a_ph" Fixtures.oli 443 = "QAA a_ph443".
Proof.
  destruct (bench_qaa_returns Fixtures.bands Fixtures.perf Fixtures.qaa_aph
              MoreFixtures.no_other tt "OLI" (Fixtures.full 2 4 1) (Fixtures.full 2 2 1)
              MoreFixtures.slices_a_ph false) as [H1 H2].
  - repeat constructor; discriminate.
  - reflexivity.
  - split; [exact (H1 []) | exact (proj1 (H2 eq_refl "a_ph" 443%Z))].
Defined.

Lemma bench_qaa_missing_output_witness :
  bench_qaa Fixtures.bands Fixtures.perf Fixtures.qaa_aph MoreFixtures.no_other tt "OLI"
    (Fixtures.full 2 4 1) (Fixtures.full 2 2 1) MoreFixtures.slices_a_ph_bbp true []
  = ([Printed (Keys ["aph"])], Raised (AssertionError (NotFound "bbp"))).
Proof.
  refine (bench_qaa_missing_output Fixtures.bands Fixtures.perf Fixtures.qaa_aph
            MoreFixtures.no_other tt "OLI"
            (Fixtures.full 2 4 1) (Fixtures.full 2 2 1) MoreFixtures.slices_a_ph_bbp true
            ["a_ph"] "bbp" [] _ eq_refl eq_refl eq_refl []).
  repeat constructor; discriminate.
Defined.

Lemma bench_qaa_shape_mismatch_witness :
  bench_qaa Fixtures.bands Fixtures.perf MoreFixtures.qaa_wide MoreFixtures.no_other tt
    "OLI" (Fixtures.full 2 4 1) (Fixtures.full 2 2 1) Fixtures.slices_aph_chl true []
  = ([], Raised (AssertionError (ShapeMismatch (2, 1) (2, 4)))).
Proof.
  refine (bench_qaa_shape_mismatch Fixtures.bands Fixtures.perf MoreFixtures.qaa_wide
            MoreFixtures.no_other tt
            "OLI" (Fixtures.full 2 4 1) (y := Fixtures.full 2 2 1) Fixtures.slices_aph_chl
            true [] "aph" [] (est := Fixtures.full 2 4 1) (sl := Fixtures.columns 0 1)
            _ eq_refl eq_refl eq_refl eq_refl _ []).
  - repeat constructor; discriminate.
  - vm_compute. discriminate.
Defined.

Lemma bench_qaa_more_columns_than_bands_witness :
  outcome (bench_qaa Fixtures.bands Fixtures.perf MoreFixtures.qaa_wide
             MoreFixtures.no_other tt "OLI"
             (Fixtures.full 2 5 1) (Fixtures.full 2 5 1) MoreFixtures.slices_aph_wide true)
  = Raised IndexError.
Proof.
  refine (bench_qaa_more_columns_than_bands Fixtures.bands Fixtures.perf
            MoreFixtures.qaa_wide MoreFixtures.no_other tt "OLI" (Fixtures.full 2 5 1)
            (y := Fixtures.full 2 5 1)
            MoreFixtures.slices_aph_wide true [] "aph" []
            (est := Fixtures.full 2 5 1) (sl := Fixtures.columns 0 5)
            _ eq_refl eq_refl eq_refl eq_refl _ _).
  - repeat constructor; discriminate.
  - vm_compute. reflexivity.
  - vm_compute. lia.
Defined.

Lemma empty_slice_key_raises_witness :
  bench_qaa Fixtures.bands Fixtures.perf Fixtures.qaa_aph MoreFixtures.no_other tt "OLI"
    (Fixtures.full 2 4 1) (Fixtures.full 2 2 1) Fixtures.slices_empty_key false []
  = ([], Raised IndexError) /\
  run_benchmarks Fixtures.bands Fixtures.perf Fixtures.layout_oc3 Fixtures.qaa_aph
    MoreFixtures.no_other Fixtures.ml_xgb tt "OLI" (Fixtures.full 2 4 1)
    (Fixtures.full 2 2 1) Fixtures.slices_empty_key false None None false true []
  = ([], Raised IndexError).
Proof.
  refine (empty_slice_key_raises Fixtures.bands Fixtures.perf Fixtures.layout_oc3
            Fixtures.qaa_aph MoreFixtures.no_other Fixtures.ml_xgb tt "OLI"
            (Fixtures.full 2 4 1)
            (Fixtures.full 2 2 1) Fixtures.slices_empty_key false None None false true [] _).
  left. reflexivity.
Defined.

Lemma dispatch_stops_at_first_error_witness :
  outcome (run_benchmarks Fixtures.bands Fixtures.perf Fixtures.layout_oc3
             Fixtures.qaa_empty MoreFixtures.no_other Fixtures.ml_xgb tt "OLI"
             (Fixtures.full 2 4 1)
             (Fixtures.full 2 2 1) Fixtures.slices_aph_chl true None None false true)
  = Raised (AssertionError (NotFound "aph")) /\
  runs (events_of
          (run_benchmarks Fixtures.bands Fixtures.perf Fixtures.layout_oc3
             Fixtures.qaa_empty MoreFixtures.no_other Fixtures.ml_xgb tt "OLI"
             (Fixtures.full 2 4 1)
             (Fixtures.full 2 2 1) Fixtures.slices_aph_chl true None None false true))
  = [Qaa].
Proof.
  refine (proj1 (dispatch_stops_at_first_error Fixtures.bands Fixtures.perf
                   Fixtures.layout_oc3 Fixtures.qaa_empty MoreFixtures.no_other
                   Fixtures.ml_xgb tt "OLI"
                   (Fixtures.full 2 4 1) (Fixtures.full 2 2 1) Fixtures.slices_aph_chl
                   true None None false true _)
            (AssertionError (NotFound "aph")) eq_refl eq_refl).
  repeat constructor; discriminate.
Defined.
